(** * ampd: asynchronous MPD client -- protocol engine

    A shallow embedding of the protocol engine of the [ampd] package:
    - [ampd/errors.py] and [ampd/request.py] (release 0.2.12),
    - [ampd/client.py] (release 0.2.12), module [V0212],
    - [src/ampd/client.py] (release 0.3.3), module [V033].

    Python text ([str]) and wire data ([bytes]) are both modelled as
    [string] (a sequence of 8-bit characters); [encode('utf-8')] and
    [decode('utf-8')] are the identity on such sequences.

    Objects with identity (requests, executors, timer handles) live in
    finite maps keyed by their address; the asyncio event loop is the
    explicit queue of ready handles and the table of scheduled timers. *)

From Stdlib Require Import String Ascii ZArith NArith QArith List Bool Lia.
From stdpp Require Import base option list gmap strings.

Set Warnings "-register-all".

Local Open Scope string_scope.
Local Open Scope Z_scope.
Local Open Scope list_scope.

(** ** Python string operations *)

Module PyStr.

(** [s.startswith(p)] *)
Fixpoint startswith (p s : string) : bool :=
  match p, s with
  | EmptyString, _ => true
  | String a p', String b s' => if Ascii.eqb a b then startswith p' s' else false
  | String _ _, EmptyString => false
  end.

(** [s[n:]] *)
Fixpoint drop (n : nat) (s : string) : string :=
  match n, s with
  | O, _ => s
  | S n', String _ s' => drop n' s'
  | S _, EmptyString => EmptyString
  end.

(** [s.partition(sep)] for a non-empty [sep]: the text before the first
    occurrence of [sep], whether [sep] was found, and the text after it. *)
Fixpoint partition (sep s : string) : string * bool * string :=
  if startswith sep s then (EmptyString, true, drop (String.length sep) s)
  else match s with
       | EmptyString => (EmptyString, false, EmptyString)
       | String c s' =>
           let '(h, found, t) := partition sep s' in (String c h, found, t)
       end.

(** [s.rpartition(sep)] for a one-character [sep]: split at the last
    occurrence; when [sep] is absent the whole text is the third part. *)
Fixpoint rpartition (sep : ascii) (s : string) : string * bool * string :=
  match s with
  | EmptyString => (EmptyString, false, EmptyString)
  | String c s' =>
      let '(h, found, t) := rpartition sep s' in
      if found then (String c h, true, t)
      else if Ascii.eqb c sep then (EmptyString, true, s')
      else (EmptyString, false, String c t)
  end.

(** [s.replace(old, new)] for a one-character [old]. *)
Fixpoint replace (old : ascii) (new : string) (s : string) : string :=
  match s with
  | EmptyString => EmptyString
  | String c s' =>
      if Ascii.eqb c old then new ++ replace old new s'
      else String c (replace old new s')
  end.

(** [sep.join(l)] *)
Fixpoint join (sep : string) (l : list string) : string :=
  match l with
  | [] => EmptyString
  | [x] => x
  | x :: l' => x ++ sep ++ join sep l'
  end.

(** [s.split(sep)] for a one-character [sep] (never the empty list). *)
Fixpoint split (sep : ascii) (s : string) : list string :=
  match s with
  | EmptyString => [EmptyString]
  | String c s' =>
      if Ascii.eqb c sep then EmptyString :: split sep s'
      else match split sep s' with
           | x :: l => String c x :: l
           | [] => [String c EmptyString]
           end
  end.

(** [c in s] for a character. *)
Fixpoint contains (c : ascii) (s : string) : bool :=
  match s with
  | EmptyString => false
  | String d s' => Ascii.eqb c d || contains c s'
  end.

Definition is_digit (c : ascii) : bool :=
  let n := nat_of_ascii c in (Nat.leb 48 n && Nat.leb n 57)%bool.

(** [s.isdigit() and s.isascii()] *)
Fixpoint all_digits (s : string) : bool :=
  match s with
  | EmptyString => true
  | String c s' => is_digit c && all_digits s'
  end.

Definition isdigit (s : string) : bool :=
  match s with EmptyString => false | _ => all_digits s end.

(** [int(s)] on a string of decimal digits. *)
Fixpoint int_acc (acc : N) (s : string) : N :=
  match s with
  | EmptyString => acc
  | String c s' => int_acc (10 * acc + N.of_nat (nat_of_ascii c - 48))%N s'
  end.

Definition int (s : string) : N := int_acc 0%N s.

(** The longest prefix of decimal digits and the rest. *)
Fixpoint span_digits (s : string) : string * string :=
  match s with
  | String c s' =>
      if is_digit c then let '(d, r) := span_digits s' in (String c d, r)
      else (EmptyString, s)
  | EmptyString => (EmptyString, EmptyString)
  end.

(** [c.lower()] on ASCII letters. *)
Definition lower_char (c : ascii) : ascii :=
  let n := nat_of_ascii c in
  if (Nat.leb 65 n && Nat.leb n 90)%bool then ascii_of_nat (n + 32) else c.

Fixpoint lower (s : string) : string :=
  match s with
  | EmptyString => EmptyString
  | String c s' => String (lower_char c) (lower s')
  end.

(** [c.upper()] on ASCII letters. *)
Definition upper_char (c : ascii) : ascii :=
  let n := nat_of_ascii c in
  if (Nat.leb 97 n && Nat.leb n 122)%bool then ascii_of_nat (n - 32) else c.

Fixpoint upper (s : string) : string :=
  match s with
  | EmptyString => EmptyString
  | String c s' => String (upper_char c) (upper s')
  end.

Definition is_empty (s : string) : bool :=
  match s with EmptyString => true | _ => false end.

(** [l.remove(x)]: drop the first occurrence; [None] is [ValueError]. *)
Fixpoint list_remove (x : nat) (l : list nat) : option (list nat) :=
  match l with
  | [] => None
  | y :: l' =>
      if Nat.eqb y x then Some l'
      else match list_remove x l' with
           | Some l'' => Some (y :: l'')
           | None => None
           end
  end.

End PyStr.

(** ** ampd/errors.py and the built-in exceptions the engine can raise *)

Inductive Exn : Type :=
  | ConnectionError
  | ReplyError (error command_list_num : N) (command message commandline : string)
  | ProtocolError
  | CommandError
  | CancelledError
  | InvalidStateError
  | ValueError
  | TypeError
  | UnboundLocalError
  | KeyError
  | IndexError
  | AssertionError
  | AttributeError
  | DanglingReference
  | OutOfFuel.
  (* [DanglingReference] and [OutOfFuel] are raised by the model only: when
     an address is not allocated (Python references cannot dangle), and
     when a recursion over the executor tree exceeds its fuel. *)

#[global] Instance Exn_eq_dec : EqDecision Exn.
Proof. solve_decision. Defined.

(** ** ampd/request.py: events *)

Module Event.

(** [EVENTS = {name: 1 << i for i, name in enumerate([...])}] *)
Definition names : list string :=
  [ "DATABASE"; "UPDATE"; "STORED_PLAYLIST"; "PLAYLIST"; "PLAYER"; "MIXER";
    "OUTPUT"; "OPTIONS"; "PARTITION"; "STICKER"; "SUBSCRIPTION"; "MESSAGE";
    "CONNECT"; "IDLE"; "TIMEOUT" ].

Fixpoint index_of (name : string) (l : list string) (i : Z) : option Z :=
  match l with
  | [] => None
  | x :: l' => if String.eqb x name then Some i else index_of name l' (i + 1)
  end.

Definition DATABASE : Z := Z.shiftl 1 0.
Definition UPDATE : Z := Z.shiftl 1 1.
Definition STORED_PLAYLIST : Z := Z.shiftl 1 2.
Definition PLAYLIST : Z := Z.shiftl 1 3.
Definition PLAYER : Z := Z.shiftl 1 4.
Definition MIXER : Z := Z.shiftl 1 5.
Definition OUTPUT : Z := Z.shiftl 1 6.
Definition OPTIONS : Z := Z.shiftl 1 7.
Definition PARTITION : Z := Z.shiftl 1 8.
Definition STICKER : Z := Z.shiftl 1 9.
Definition SUBSCRIPTION : Z := Z.shiftl 1 10.
Definition MESSAGE : Z := Z.shiftl 1 11.
Definition CONNECT : Z := Z.shiftl 1 12.
Definition IDLE : Z := Z.shiftl 1 13.
Definition TIMEOUT : Z := Z.shiftl 1 14.
Definition NONE : Z := 0.
(** [EVENTS['ANY'] = EVENTS['CONNECT'] - 1] *)
Definition ANY : Z := CONNECT - 1.

(** [Event[name]]: lookup by member name; [KeyError] when absent. *)
Definition by_name (name : string) : option Z :=
  if String.eqb name "NONE" then Some NONE
  else if String.eqb name "ANY" then Some ANY
  else match index_of name names 0 with
       | Some i => Some (Z.shiftl 1 i)
       | None => None
       end.

End Event.

(** ** Values carried by resolved requests *)

Inductive Value : Type :=
  | VNone
  | VTrue
  | VStr (s : string)
  | VInt (z : Z)                          (* an [Event] flag set *)
  | VPair (k v : string)                  (* a [(key, value)] tuple *)
  | VList (l : list Value)
  | VDict (d : list (string * Value)).    (* insertion-ordered [dict] *)

(** ** ampd/request.py: reply transforms *)

Module Transform.

(** [d[k] = v] on an insertion-ordered dict. *)
Fixpoint dict_set {A} (k : string) (v : A) (d : list (string * A)) : list (string * A) :=
  match d with
  | [] => [(k, v)]
  | (k', v') :: d' =>
      if String.eqb k' k then (k', v) :: d' else (k', v') :: dict_set k v d'
  end.

(** [d.setdefault(k, []).append(v)] *)
Fixpoint dict_append {A} (k : string) (v : A) (d : list (string * list A))
  : list (string * list A) :=
  match d with
  | [] => [(k, [v])]
  | (k', l) :: d' =>
      if String.eqb k' k then (k', l ++ [v]) :: d' else (k', l) :: dict_append k v d'
  end.

Fixpoint dict_get {A} (k : string) (d : list (string * A)) : option A :=
  match d with
  | [] => None
  | (k', v) :: d' => if String.eqb k' k then Some v else dict_get k d'
  end.

(** [dict(reply)]: last value wins, first position kept. *)
Definition dict {A} (reply : list (string * A)) : list (string * A) :=
  fold_left (fun d kv => dict_set (fst kv) (snd kv) d) reply [].

Definition transform_empty (reply : list (string * string)) : Exn + Value :=
  match reply with
  | [] => inr VTrue
  | _ => inl ProtocolError
  end.

Definition transform_lists {A} (reply : list (string * A)) : list (string * list A) :=
  fold_left (fun lists fv => dict_append (fst fv) (snd fv) lists) reply [].

(** The loop of [transform_subsets]: [subsets] is the list of
    [(field, subset)] built so far, the last one being the current
    [subset]; [None] is the unbound [subset] before the first marker. *)
Fixpoint subsets_loop (markers : list string) (reply : list (string * string))
    (subsets : list (string * list (string * string)))
  : Exn + list (string * list (string * string)) :=
  match reply with
  | [] => inr subsets
  | item :: reply' =>
      if existsb (String.eqb (fst item)) markers
      then subsets_loop markers reply' (subsets ++ [(fst item, [item])])
      else match List.rev subsets with
           | [] => inl UnboundLocalError
           | (f, subset) :: before =>
               subsets_loop markers reply' (List.rev before ++ [(f, subset ++ [item])])
           end
  end.

Definition dict_value (subset : list (string * string)) : Value :=
  VDict (map (fun kv => (fst kv, VStr (snd kv))) (dict subset)).

Definition transform_subsets_with (markers : list string) (reply : list (string * string))
  : Exn + list (string * list Value) :=
  match subsets_loop markers reply [] with
  | inl e => inl e
  | inr subsets =>
      inr (transform_lists (map (fun fs => (fst fs, dict_value (snd fs))) subsets))
  end.

Definition lists_value (lists : list (string * list Value)) : Value :=
  VDict (map (fun fl => (fst fl, VList (snd fl))) lists).

Definition transform_subsets (reply : list (string * string)) : Exn + Value :=
  match transform_subsets_with ["file"; "directory"; "playlist"] reply with
  | inl e => inl e
  | inr lists => inr (lists_value lists)
  end.

Definition transform_single_value (reply : list (string * string)) : Exn + Value :=
  match reply with
  | [(_, value)] => inr (VStr value)
  | _ => inl ProtocolError
  end.

Definition transform_single_list (reply : list (string * string)) : Exn + Value :=
  inr (VList (map (fun fv => VStr (snd fv)) reply)).

Definition transform_single_subset (reply : list (string * string)) : Exn + Value :=
  match reply with
  | [] => inr (VList [])
  | (marker, _) :: _ =>
      match transform_subsets_with [marker] reply with
      | inl e => inl e
      | inr lists =>
          match dict_get marker lists with
          | Some l => inr (VList l)
          | None => inl KeyError
          end
      end
  end.

(** The values of the [COMMANDS] table. *)
Inductive t : Type :=
  | Empty | Lists | Subsets | SingleValue | SingleList | SingleSubset
  | Dict
  | LambdaNone        (* [lambda: None] *)
  | NoTransform.      (* [None] *)

#[global] Instance t_eq_dec : EqDecision t.
Proof. solve_decision. Defined.

(** [lines if self._transform is None else self._transform(lines)] *)
Definition apply (tr : t) (lines : list (string * string)) : Exn + Value :=
  match tr with
  | NoTransform => inr (VList (map (fun kv => VPair (fst kv) (snd kv)) lines))
  | Empty => transform_empty lines
  | Lists =>
      inr (lists_value (transform_lists (map (fun kv => (fst kv, VStr (snd kv))) lines)))
  | Subsets => transform_subsets lines
  | SingleValue => transform_single_value lines
  | SingleList => transform_single_list lines
  | SingleSubset => transform_single_subset lines
  | Dict => inr (dict_value lines)
  | LambdaNone => inl TypeError
  end.

Definition COMMANDS : list (string * t) :=
  [ ("add", Empty); ("addid", SingleValue); ("addtagid", NoTransform);
    ("channels", SingleList); ("clear", Empty); ("clearerror", Empty);
    ("cleartagid", NoTransform); ("close", LambdaNone); ("commands", SingleList);
    ("config", Dict); ("consume", Empty); ("count", Dict); ("crossfade", Empty);
    ("currentsong", Dict); ("decoders", Lists); ("delete", Empty);
    ("deleteid", Empty); ("delpartition", Empty); ("disableoutput", Empty);
    ("enableoutput", Empty); ("find", SingleSubset); ("findadd", Empty);
    ("kill", LambdaNone); ("list", SingleList); ("listall", Lists);
    ("listallinfo", Subsets); ("listfiles", Subsets); ("listmounts", SingleSubset);
    ("listneighbors", SingleSubset); ("listpartitions", SingleList);
    ("listplaylist", SingleList); ("listplaylistinfo", SingleSubset);
    ("listplaylists", SingleSubset); ("load", Empty); ("lsinfo", Subsets);
    ("mixrampdb", Empty); ("mixrampdelay", Empty); ("mount", NoTransform);
    ("move", Empty); ("moveid", Empty); ("moveoutput", Empty); ("next", Empty);
    ("newpartition", Empty); ("notcommands", SingleList); ("outputs", SingleSubset);
    ("partition", Empty); ("password", Empty); ("pause", Empty); ("ping", Empty);
    ("play", Empty); ("playid", Empty); ("playlist", SingleList);
    ("playlistadd", Empty); ("playlistclear", Empty); ("playlistdelete", Empty);
    ("playlistfind", SingleSubset); ("playlistid", SingleSubset);
    ("playlistinfo", SingleSubset); ("playlistmove", Empty);
    ("playlistsearch", SingleSubset); ("plchanges", SingleSubset);
    ("plchangesposid", SingleSubset); ("previous", Empty); ("prio", Empty);
    ("prioid", Empty); ("random", Empty); ("rangeid", Empty); ("readcomments", Dict);
    ("readmessages", SingleSubset); ("rename", Empty); ("repeat", Empty);
    ("replay_gain_mode", Empty); ("replay_gain_status", SingleValue);
    ("rescan", SingleValue); ("rm", Empty); ("save", Empty); ("search", SingleSubset);
    ("searchadd", Empty); ("searchaddpl", Empty); ("seek", Empty); ("seekcur", Empty);
    ("seekid", Empty); ("sendmessage", Empty); ("setvol", Empty); ("shuffle", Empty);
    ("single", Empty); ("stats", Dict); ("status", Dict); ("sticker", NoTransform);
    ("sticker_get", SingleValue); ("sticker_set", Empty); ("sticker_delete", Empty);
    ("sticker_list", SingleList); ("sticker_find", SingleSubset); ("stop", Empty);
    ("subscribe", Empty); ("swap", Empty); ("swapid", Empty); ("tagtypes", SingleList);
    ("toggleoutput", Empty); ("unmount", NoTransform); ("unsubscribe", Empty);
    ("update", SingleValue); ("urlhandlers", SingleList); ("volume", Empty) ].

End Transform.

(** ** Command lines ([RequestCommand.__init__]) *)

Module Quote.

Definition dquote : ascii := "034"%char.
Definition backslash : ascii := "092"%char.

(** A positional argument of a command: a [str], an [int], or another
    object known by its [str()] text. *)
Inductive Arg : Type :=
  | AStr (s : string)
  | AInt (z : Z)
  | AObj (str_ : string).

Fixpoint digits_of (fuel : nat) (n : N) (acc : string) : string :=
  match fuel with
  | O => acc
  | S fuel' =>
      let acc' := String (ascii_of_N (48 + n mod 10)%N) acc in
      if (n / 10 =? 0)%N then acc' else digits_of fuel' (n / 10)%N acc'
  end.

(** [str(z)] for an [int]. *)
Definition str_int (z : Z) : string :=
  let n := Z.abs_N z in
  let d := digits_of (S (N.to_nat (N.log2 n))) n EmptyString in
  if z <? 0 then String "-" d else d.

(** The [str] case of the generator in [RequestCommand.__init__]: the
    argument with every double quote replaced by backslash and double
    quote, between two double quotes. *)
Definition quote_arg (arg : string) : string :=
  String dquote (PyStr.replace dquote (String backslash (String dquote EmptyString)) arg
                 ++ String dquote EmptyString).

Definition format_arg (arg : Arg) : string :=
  match arg with
  | AStr s => quote_arg s
  | AInt z => str_int z
  | AObj s => s
  end.

(** [name.replace('_', ' ') + ' ' + ' '.join(...)] *)
Definition commandline (name : string) (args : list Arg) : string :=
  PyStr.replace "_" " " name ++ " " ++ PyStr.join " " (map format_arg args).

End Quote.

(** ** Objects: requests, executors, timer handles, the client *)

Abbreviation rid := nat (only parsing).   (* address of a [Request] *)
Abbreviation eid := nat (only parsing).   (* address of an [Executor] *)
Abbreviation hid := nat (only parsing).   (* address of an [asyncio.TimerHandle] *)

(** The state of an [asyncio.Future]. *)
Inductive Outcome : Type :=
  | Pending
  | Result (v : Value)
  | Exception (e : Exn)
  | Cancelled.

(** Bound methods registered with [add_done_callback]; each is called
    with the future as its argument. *)
Inductive Callback : Type :=
  | unlog_request (e : eid)     (* [Executor._unlog_request] of executor [e] *)
  | waiting_list_remove         (* [Client._waiting_list.remove] *)
  | cancel_timeout              (* [RequestPassive._cancel_timeout] *)
  | unidle                      (* [Client._unidle] (0.2.12) *)
  | idle_task_wakeup            (* the [_idle_task] awaiting its [RequestIdle] *)
  | caller_wakeup (t : nat).    (* a caller task awaiting the request *)

(** What the event loop can run. *)
Inductive Handle : Type :=
  | HDone (cb : Callback) (fut : rid)   (* a done callback, scheduled by [call_soon] *)
  | HTimer (h : hid)                    (* a timer handle whose delay has elapsed *)
  | HProcessReply (lines : list string) (* [ensure_future(self._process_reply(lines))] *)
  | HIdleTask.                          (* the first step of a new [_idle_task()] *)

Inductive RequestClass : Type :=
  | RequestWelcome
  | RequestCommandLine
  | RequestCommand
  | RequestIdle
  | RequestCommandList
  | RequestPassive.

#[global] Instance RequestClass_eq_dec : EqDecision RequestClass.
Proof. solve_decision. Defined.

Record Request : Type := mkRequest {
  class_ : RequestClass;
  outcome : Outcome;                 (* [Future._state], [_result], [_exception] *)
  _callbacks : list Callback;        (* [Future._callbacks] *)
  _executor : eid;
  _commandline : string;             (* [RequestActive] *)
  _transform : Transform.t;          (* [RequestCommandLine] *)
  _commands : list rid;              (* [RequestCommandList] *)
  _event_mask : Z;                   (* [RequestPassive] *)
  _timeout : option Q;               (* [RequestPassive], seconds *)
  _timeout_handle : option hid       (* [RequestPassive], set by [__await__] *)
}.

Inductive ClientRef : Type := the_client.

Record Executor : Type := mkExecutor {
  _parent : option eid;
  _client : option ClientRef;
  _children : list eid;
  _requests : list rid;
  _connect_cb_func : option nat;       (* an application callback, by name *)
  _disconnect_cb_func : option nat
}.

(** [TimerHandle]: the [lambda: self.set_result(Event.TIMEOUT)] of a
    passive request, its delay, and the [_cancelled] flag. *)
Record TimerHandle : Type := mkTimerHandle {
  h_request : rid;
  h_delay : Q;
  h_scheduled : bool;     (* still in the loop's [_scheduled] heap *)
  h_cancelled : bool
}.

(** The transport of the connection: the chunks passed to [write] so far. *)
Record Transport : Type := mkTransport {
  written : list string;
  closed : bool
}.

Record Client : Type := mkClient {
  executor : eid;
  _waiting_list : list rid;
  _state : Z;
  protocol_version : option string;
  _active_queue : option (list rid);   (* [None]: the attribute is deleted *)
  _transport : option Transport;       (* [None]: the attribute is deleted *)
  _active : bool                       (* 0.2.12 only *)
}.

(** What an observer of the engine sees, in order: calls of application
    callbacks, command lines written for requests, reply blocks handed to
    requests, replies turned into results, futures settled, timeout
    callbacks called, executors closed. *)
Inductive Obs : Type :=
  | connect_cb (f : nat)
  | disconnect_cb (f : nat) (reason : Z) (message : option string)
  | wrote (r : rid)
  | replied (r : rid)
  | decoded (r : rid)
  | settled (r : rid) (o : Outcome)
  | timeout_cb (h : hid)
  | closed_executor (e : eid).

Record World : Type := mkWorld {
  requests : gmap rid Request;
  executors : gmap eid Executor;
  timers : gmap hid TimerHandle;
  ready : list Handle;                 (* the loop's [_ready] queue *)
  client : Client;
  trace : list Obs
}.

Definition set_requests (f : gmap rid Request → gmap rid Request) (w : World) : World :=
  mkWorld (f (requests w)) (executors w) (timers w) (ready w) (client w) (trace w).
Definition set_executors (f : gmap eid Executor → gmap eid Executor) (w : World) : World :=
  mkWorld (requests w) (f (executors w)) (timers w) (ready w) (client w) (trace w).
Definition set_timers (f : gmap hid TimerHandle → gmap hid TimerHandle) (w : World) : World :=
  mkWorld (requests w) (executors w) (f (timers w)) (ready w) (client w) (trace w).
Definition set_ready (f : list Handle → list Handle) (w : World) : World :=
  mkWorld (requests w) (executors w) (timers w) (f (ready w)) (client w) (trace w).
Definition set_client (f : Client → Client) (w : World) : World :=
  mkWorld (requests w) (executors w) (timers w) (ready w) (f (client w)) (trace w).
Definition set_trace (f : list Obs → list Obs) (w : World) : World :=
  mkWorld (requests w) (executors w) (timers w) (ready w) (client w) (f (trace w)).

Definition set_outcome (o : Outcome) (r : Request) : Request :=
  mkRequest (class_ r) o (_callbacks r) (_executor r) (_commandline r) (_transform r)
            (_commands r) (_event_mask r) (_timeout r) (_timeout_handle r).
Definition set_callbacks_ (cbs : list Callback) (r : Request) : Request :=
  mkRequest (class_ r) (outcome r) cbs (_executor r) (_commandline r) (_transform r)
            (_commands r) (_event_mask r) (_timeout r) (_timeout_handle r).
Definition set_event_mask (m : Z) (r : Request) : Request :=
  mkRequest (class_ r) (outcome r) (_callbacks r) (_executor r) (_commandline r) (_transform r)
            (_commands r) m (_timeout r) (_timeout_handle r).
Definition set_timeout_handle (h : option hid) (r : Request) : Request :=
  mkRequest (class_ r) (outcome r) (_callbacks r) (_executor r) (_commandline r) (_transform r)
            (_commands r) (_event_mask r) (_timeout r) h.

Definition set_waiting_list (f : list rid → list rid) (c : Client) : Client :=
  mkClient (executor c) (f (_waiting_list c)) (_state c) (protocol_version c)
           (_active_queue c) (_transport c) (_active c).
Definition set_state (s : Z) (c : Client) : Client :=
  mkClient (executor c) (_waiting_list c) s (protocol_version c)
           (_active_queue c) (_transport c) (_active c).
Definition set_protocol_version (v : option string) (c : Client) : Client :=
  mkClient (executor c) (_waiting_list c) (_state c) v
           (_active_queue c) (_transport c) (_active c).
Definition set_active_queue (q : option (list rid)) (c : Client) : Client :=
  mkClient (executor c) (_waiting_list c) (_state c) (protocol_version c)
           q (_transport c) (_active c).
Definition set_transport (t : option Transport) (c : Client) : Client :=
  mkClient (executor c) (_waiting_list c) (_state c) (protocol_version c)
           (_active_queue c) t (_active c).
Definition set_active (b : bool) (c : Client) : Client :=
  mkClient (executor c) (_waiting_list c) (_state c) (protocol_version c)
           (_active_queue c) (_transport c) b.

(** ** Commands: a state and exception monad over [World] *)

Inductive Res (A : Type) : Type :=
  | Ok (a : A) (w : World)
  | Raise (e : Exn) (w : World).
Arguments Ok {A} a w.
Arguments Raise {A} e w.

Definition M (A : Type) : Type := World → Res A.

Definition ret {A} (a : A) : M A := fun w => Ok a w.
Definition raise {A} (e : Exn) : M A := fun w => Raise e w.
Definition bind {A B} (c : M A) (k : A → M B) : M B :=
  fun w => match c w with
           | Ok a w' => k a w'
           | Raise e w' => Raise e w'
           end.
Definition get : M World := fun w => Ok w w.
Definition modify (f : World → World) : M unit := fun w => Ok tt (f w).
(** [try: c  except e: h] *)
Definition try_except {A} (c : M A) (catches : Exn → bool) (h : M A) : M A :=
  fun w => match c w with
           | Ok a w' => Ok a w'
           | Raise e w' => if catches e then h w' else Raise e w'
           end.

Declare Scope cmd_scope.
Delimit Scope cmd_scope with cmd.
Notation "x <- c ;; k" := (bind c (fun x => k))
  (at level 100, c at next level, right associativity) : cmd_scope.
Notation "c ;; k" := (bind c (fun _ => k))
  (at level 100, right associativity) : cmd_scope.
Local Open Scope cmd_scope.

Definition emit (o : Obs) : M unit := modify (set_trace (fun t => t ++ [o])).

(** [for x in l: body x] *)
Fixpoint for_each {A} (l : list A) (body : A → M unit) : M unit :=
  match l with
  | [] => ret tt
  | x :: l' => body x ;; for_each l' body
  end.

Definition world_of {A} (r : Res A) : World :=
  match r with Ok _ w => w | Raise _ w => w end.

(** ** asyncio.Future *)

Module Future.

Definition lookup (r : rid) : M Request :=
  fun w => match requests w !! r with
           | Some req => Ok req w
           | None => Raise DanglingReference w
           end.

Definition update (r : rid) (f : Request → Request) : M unit :=
  modify (set_requests (fun m => match m !! r with
                                 | Some req => <[r := f req]> m
                                 | None => m
                                 end)).

Definition is_done (o : Outcome) : bool :=
  match o with Pending => false | _ => true end.

Definition done (r : rid) : M bool :=
  req <- lookup r ;; ret (is_done (outcome req)).

Definition cancelled (r : rid) : M bool :=
  req <- lookup r ;; ret (match outcome req with Cancelled => true | _ => false end).

Definition call_soon (h : Handle) : M unit :=
  modify (set_ready (fun q => q ++ [h])).

(** [__schedule_callbacks]: every registered callback is handed to
    [loop.call_soon] and the list is cleared. *)
Definition schedule_callbacks (r : rid) : M unit :=
  req <- lookup r ;;
  update r (set_callbacks_ []) ;;
  for_each (_callbacks req) (fun cb => call_soon (HDone cb r)).

Definition settle (r : rid) (o : Outcome) : M unit :=
  req <- lookup r ;;
  if is_done (outcome req) then raise InvalidStateError
  else update r (set_outcome o) ;; emit (settled r o) ;; schedule_callbacks r.

Definition set_result (r : rid) (v : Value) : M unit := settle r (Result v).
Definition set_exception (r : rid) (e : Exn) : M unit := settle r (Exception e).

Definition cancel (r : rid) : M bool :=
  req <- lookup r ;;
  if is_done (outcome req) then ret false
  else update r (set_outcome Cancelled) ;; emit (settled r Cancelled) ;;
       schedule_callbacks r ;; ret true.

Definition add_done_callback (r : rid) (cb : Callback) : M unit :=
  req <- lookup r ;;
  if is_done (outcome req) then call_soon (HDone cb r)
  else update r (set_callbacks_ (_callbacks req ++ [cb])).

Definition result (r : rid) : M Value :=
  req <- lookup r ;;
  match outcome req with
  | Pending => raise InvalidStateError
  | Cancelled => raise CancelledError
  | Exception e => raise e
  | Result v => ret v
  end.

Definition exception (r : rid) : M (option Exn) :=
  req <- lookup r ;;
  match outcome req with
  | Pending => raise InvalidStateError
  | Cancelled => raise CancelledError
  | Exception e => ret (Some e)
  | Result _ => ret None
  end.

End Future.

(** ** ampd/request.py: [Request.set_result] *)

Module Request_.

(** [if not self.done(): super().set_result(result)] *)
Definition set_result (r : rid) (result : Value) : M unit :=
  d <- Future.done r ;;
  if negb d then Future.set_result r result else ret tt.

End Request_.

(** ** ampd/request.py: reply parsers *)

Module Parser.

Definition SUCCESS : string := "OK".
Definition WELCOME_PREFIX : string := "OK MPD ".
Definition LIST_SUCCESS : string := "list_OK".
Definition DELIM : string := ": ".

Definition newline : ascii := "010"%char.
Definition rbrace : ascii := "125"%char.

(** The last group of [ERROR_RE] and the final [$]: any characters but
    a newline, up to the end or to just before a final newline. *)
Fixpoint match_rest (s : string) : option string :=
  match s with
  | EmptyString => Some EmptyString
  | String c s' =>
      if Ascii.eqb c newline
      then (if PyStr.is_empty s' then Some EmptyString else None)
      else match match_rest s' with
           | Some m => Some (String c m)
           | None => None
           end
  end.

(** [re.match(ERROR_RE, line)]: the literal [ACK], a space, a bracketed
    pair of decimal numbers separated by [@], a space, a braced text
    without closing brace, a space, and the rest of the line.  The result
    is the four groups, the first two already through [int]. *)
Definition match_error (line : string) : option (N * N * string * string) :=
  if negb (PyStr.startswith "ACK [" line) then None else
  let '(g1, r1) := PyStr.span_digits (PyStr.drop 5 line) in
  if PyStr.is_empty g1 || negb (PyStr.startswith "@" r1) then None else
  let '(g2, r2) := PyStr.span_digits (PyStr.drop 1 r1) in
  if PyStr.is_empty g2 || negb (PyStr.startswith "] {" r2) then None else
  let '(g3, found, r3) := PyStr.partition (String rbrace EmptyString) (PyStr.drop 3 r2) in
  if negb found || negb (PyStr.startswith " " r3) then None else
  match match_rest (PyStr.drop 1 r3) with
  | Some g4 => Some (PyStr.int g1, PyStr.int g2, g3, g4)
  | None => None
  end.

(** A suspended parser generator: where it waits at [line = yield]. *)
Inductive State : Type :=
  | Welcome (self : rid)
  | CommandLine (self : rid) (success : string) (lines : list (string * string))
  | CommandList (self : rid) (command : rid) (rest : list rid)
                (lines : list (string * string)) (results : list Value)
  | CommandListEnd (self : rid) (results : list Value).

(** One iteration of the loop of [RequestCommandLine._parser]; [None]
    when the generator returns. *)
Definition CommandLine_send (self : rid) (success : string)
    (lines : list (string * string)) (line : string)
  : M (option (list (string * string))) :=
  match match_error line with
  | Some (error, num, command, message) =>
      req <- Future.lookup self ;;
      Future.set_exception self (ReplyError error num command message (_commandline req)) ;;
      ret None
  | None =>
      if String.eqb line success then
        req <- Future.lookup self ;;
        emit (decoded self) ;;
        match Transform.apply (_transform req) lines with
        | inl e => raise e
        | inr v => Request_.set_result self v ;; ret None
        end
      else
        match PyStr.partition DELIM line with
        | (key, true, value) => ret (Some (lines ++ [(PyStr.replace "-" "_" key, value)]))
        | _ => raise ValueError
        end
  end.

(** [RequestCommandList._parser] between two members: start the parser
    of the next command, or wait for the final line. *)
Definition CommandList_next (self : rid) (commands : list rid) (results : list Value)
  : State :=
  match commands with
  | [] => CommandListEnd self results
  | command :: rest => CommandList self command rest [] results
  end.

(** [parser.send(line)]: [None] is [StopIteration]. *)
Definition send (st : State) (line : string) : M (option State) :=
  match st with
  | Welcome self =>
      c <- Future.cancelled self ;;
      if c then ret None
      else if PyStr.startswith WELCOME_PREFIX line then
        Request_.set_result self (VStr (PyStr.drop (String.length WELCOME_PREFIX) line)) ;;
        ret None
      else raise ProtocolError
  | CommandLine self success lines =>
      o <- CommandLine_send self success lines line ;;
      ret (option_map (CommandLine self success) o)
  | CommandList self command rest lines results =>
      o <- CommandLine_send command LIST_SUCCESS lines line ;;
      match o with
      | Some lines' => ret (Some (CommandList self command rest lines' results))
      | None =>
          exc <- Future.exception command ;;
          match exc with
          | Some e => Future.set_exception self e ;; ret None
          | None =>
              v <- Future.result command ;;
              ret (Some (CommandList_next self rest (results ++ [v])))
          end
      end
  | CommandListEnd self results =>
      if negb (String.eqb line SUCCESS) then raise ProtocolError
      else
        c <- Future.cancelled self ;;
        (if negb c then Request_.set_result self (VList results) else ret tt) ;;
        ret None
  end.

(** [parser = self._parser(); parser.send(None)] *)
Definition _parser (self : rid) : M State :=
  req <- Future.lookup self ;;
  match class_ req with
  | RequestWelcome => ret (Welcome self)
  | RequestCommandLine | RequestCommand | RequestIdle => ret (CommandLine self SUCCESS [])
  | RequestCommandList => ret (CommandList_next self (_commands req) [])
  | RequestPassive => raise AttributeError
  end.

(** The [for line in lines] loop of [RequestActive._process_reply]. *)
Fixpoint feed (st : State) (lines : list string) : M unit :=
  match lines with
  | [] => ret tt
  | line :: lines' =>
      o <- send st line ;;
      match o with
      | None => ret tt
      | Some st' => feed st' lines'
      end
  end.

Definition _process_reply (self : rid) (lines : list string) : M unit :=
  st <- _parser self ;; feed st lines.

End Parser.

(** ** asyncio: awaiting a future, timers *)

Module Loop.

(** [Future.__await__] up to its first suspension: [None] when the
    awaiting task must wait, the result (or the exception) when the
    future is already done. *)
Definition await_ (r : rid) : M (option Value) :=
  d <- Future.done r ;;
  if d then v <- Future.result r ;; ret (Some v) else ret None.

(** [loop.call_later(delay, lambda: request.set_result(Event.TIMEOUT))] *)
Definition call_later (delay : Q) (r : rid) : M hid :=
  w <- get ;;
  let h : hid := fresh (dom (timers w)) in
  modify (set_timers (insert h (mkTimerHandle r delay true false))) ;;
  ret h.

(** [handle.cancel()] *)
Definition cancel (h : hid) : M unit :=
  modify (set_timers (fun m => match m !! h with
                               | Some t => <[h := mkTimerHandle (h_request t) (h_delay t)
                                                                (h_scheduled t) true]> m
                               | None => m
                               end)).

(** The delay of a scheduled timer has elapsed: the loop moves the
    handle from [_scheduled] to [_ready]. *)
Definition timer_due (h : hid) : M unit :=
  w <- get ;;
  match timers w !! h with
  | Some t =>
      if h_scheduled t then
        modify (set_timers (insert h (mkTimerHandle (h_request t) (h_delay t)
                                                    false (h_cancelled t)))) ;;
        Future.call_soon (HTimer h)
      else ret tt
  | None => ret tt
  end.

(** The loop runs a timer handle taken from [_ready]: a cancelled handle
    is skipped; otherwise its callback, the
    [lambda: self.set_result(Event.TIMEOUT)] of the request, is called. *)
Definition run_timer (h : hid) : M unit :=
  w <- get ;;
  match timers w !! h with
  | Some t =>
      if h_cancelled t then ret tt
      else emit (timeout_cb h) ;; Request_.set_result (h_request t) (VInt Event.TIMEOUT)
  | None => ret tt
  end.

End Loop.

(** ** ampd/request.py: [__await__] *)

Section Await.

(** [Executor._log_request] of the client module in use. *)
Variable _log_request : eid → rid → M unit.

(** [Request.__await__] *)
Definition Request_await (self : rid) : M (option Value) :=
  req <- Future.lookup self ;;
  _log_request (_executor req) self ;;
  Loop.await_ self.

(** [RequestPassive.__await__] *)
Definition RequestPassive_await (self : rid) : M (option Value) :=
  req <- Future.lookup self ;;
  match _timeout req with
  | Some timeout =>
      h <- Loop.call_later timeout self ;;
      Future.update self (set_timeout_handle (Some h)) ;;
      Future.update self (set_event_mask (Z.lor (_event_mask req) Event.TIMEOUT)) ;;
      Future.add_done_callback self cancel_timeout
  | None => ret tt
  end ;;
  Request_await self.

(** [await request]: the [__await__] of the request's class;
    [RequestWelcome.__await__ = asyncio.Future.__await__]. *)
Definition await (self : rid) : M (option Value) :=
  req <- Future.lookup self ;;
  match class_ req with
  | RequestWelcome => Loop.await_ self
  | RequestPassive => RequestPassive_await self
  | _ => Request_await self
  end.

End Await.

(** [RequestPassive._cancel_timeout] *)
Definition _cancel_timeout (self : rid) : M unit :=
  req <- Future.lookup self ;;
  match _timeout_handle req with
  | Some h => Loop.cancel h
  | None => raise AttributeError
  end.

(** Allocation of a new request object. *)
Definition new_request (req : Request) : M rid :=
  w <- get ;;
  let r : rid := fresh (dom (requests w)) in
  modify (set_requests (insert r req)) ;;
  ret r.

(** [RequestWelcome(executor)] *)
Definition new_RequestWelcome (executor : eid) : M rid :=
  new_request (mkRequest RequestWelcome Pending [] executor "" Transform.NoTransform
                         [] 0 None None).

(** [RequestCommandLine(executor, commandline, None)], the [_raw] request *)
Definition new_RequestCommandLine (executor : eid) (commandline : string) : M rid :=
  new_request (mkRequest RequestCommandLine Pending [] executor commandline
                         Transform.NoTransform [] 0 None None).

(** [RequestCommand(executor, name, *args)] *)
Definition new_RequestCommand (executor : eid) (name : string) (args : list Quote.Arg)
  : M rid :=
  match Transform.dict_get name Transform.COMMANDS with
  | Some transform =>
      new_request (mkRequest RequestCommand Pending [] executor
                             (Quote.commandline name args) transform [] 0 None None)
  | None => raise KeyError
  end.

(** [RequestIdle(executor)] *)
Definition new_RequestIdle (executor : eid) : M rid :=
  new_request (mkRequest RequestIdle Pending [] executor "idle" Transform.SingleList
                         [] 0 None None).

(** [RequestCommandList(executor, commands)] *)
Definition new_RequestCommandList (executor : eid) (commands : list rid) : M rid :=
  w <- get ;;
  if forallb (fun c => match requests w !! c with
                       | Some req => bool_decide (class_ req = RequestCommand)
                       | None => false
                       end) commands
  then
    let lines := map (fun c => match requests w !! c with
                               | Some req => _commandline req
                               | None => ""
                               end) commands in
    new_request (mkRequest RequestCommandList Pending [] executor
                   (PyStr.join (String Parser.newline EmptyString)
                      (["command_list_ok_begin"] ++ lines ++ ["command_list_end"]))
                   Transform.NoTransform commands 0 None None)
  else raise CommandError.

(** [RequestPassive(executor, event_mask, timeout=timeout)] *)
Definition new_RequestPassive (executor : eid) (event_mask : Z) (timeout : option Q)
  : M rid :=
  new_request (mkRequest RequestPassive Pending [] executor "" Transform.NoTransform
                         [] event_mask timeout None).

(** [Request._new_request(executor, name)]: which constructor the
    attribute [name] of an executor stands for. *)
Inductive Constructor : Type :=
  | MakeCommand (name : string)
  | MakePassive
  | MakeCommandList
  | MakeRaw.

Definition _new_request (name : string) : Exn + Constructor :=
  if existsb (fun kv => String.eqb (fst kv) name) Transform.COMMANDS then inr (MakeCommand name)
  else if String.eqb name "idle" then inr MakePassive
  else if String.eqb name "command_list" then inr MakeCommandList
  else if String.eqb name "_raw" then inr MakeRaw
  else inl AttributeError.

(** ** client.py: what both releases share word for word *)

Module ClientState.
Definition FLAG_CONNECTED : Z := 1.
Definition FLAG_ACTIVE : Z := 2.
Definition STATE_DISCONNECTED : Z := 0.
Definition STATE_CONNECTING : Z := FLAG_ACTIVE.
Definition STATE_IDLE : Z := FLAG_CONNECTED.
Definition STATE_ACTIVE : Z := Z.lor FLAG_CONNECTED FLAG_ACTIVE.
End ClientState.

Module Disconnect.
Definition NOT_CONNECTED : Z := 0.
Definition FAILED_CONNECT : Z := 1.
Definition ERROR : Z := 2.
Definition REQUESTED : Z := 3.
Definition RECONNECT : Z := 4.
Definition SHUTDOWN : Z := 5.
Definition PASSWORD : Z := 6.
End Disconnect.

(** A Python truth test on an [int]. *)
Definition truthy (z : Z) : bool := negb (z =? 0).

Module Executor_.

Definition lookup (e : eid) : M Executor :=
  fun w => match executors w !! e with
           | Some ex => Ok ex w
           | None => Raise DanglingReference w
           end.

Definition update (e : eid) (f : Executor → Executor) : M unit :=
  modify (set_executors (fun m => match m !! e with
                                  | Some ex => <[e := f ex]> m
                                  | None => m
                                  end)).

Definition set_children (l : list eid) (ex : Executor) : Executor :=
  mkExecutor (_parent ex) (_client ex) l (_requests ex)
             (_connect_cb_func ex) (_disconnect_cb_func ex).
Definition set_requests_ (l : list rid) (ex : Executor) : Executor :=
  mkExecutor (_parent ex) (_client ex) (_children ex) l
             (_connect_cb_func ex) (_disconnect_cb_func ex).
Definition set_parent (p : option eid) (ex : Executor) : Executor :=
  mkExecutor p (_client ex) (_children ex) (_requests ex)
             (_connect_cb_func ex) (_disconnect_cb_func ex).
Definition set_cb_funcs (c d : option nat) (ex : Executor) : Executor :=
  mkExecutor (_parent ex) (_client ex) (_children ex) (_requests ex) c d.
Definition clear_client (ex : Executor) : Executor :=
  mkExecutor (_parent ex) None (_children ex) (_requests ex)
             (_connect_cb_func ex) (_disconnect_cb_func ex).

(** [Executor.__init__(client_or_parent)]; [None] is the client. *)
Definition __init__ (parent : option eid) : M eid :=
  w <- get ;;
  let e : eid := fresh (dom (executors w)) in
  match parent with
  | Some p =>
      px <- lookup p ;;
      modify (set_executors (insert e (mkExecutor (Some p) (_client px) [] [] None None))) ;;
      update p (set_children (_children px ++ [e])) ;;
      ret e
  | None =>
      modify (set_executors (insert e (mkExecutor None (Some the_client) [] [] None None))) ;;
      ret e
  end.

Definition sub_executor (self : eid) : M eid := __init__ (Some self).

Definition get_is_connected (self : eid) : M Z :=
  ex <- lookup self ;;
  match _client ex with
  | Some _ => w <- get ;; ret (Z.land (_state (client w)) ClientState.FLAG_CONNECTED)
  | None => raise AttributeError
  end.

Definition set_callbacks (self : eid) (connect_cb_ disconnect_cb_ : option nat) : M unit :=
  update self (set_cb_funcs connect_cb_ disconnect_cb_) ;;
  c <- get_is_connected self ;;
  match connect_cb_ with
  | Some f => if truthy c then emit (connect_cb f) else ret tt
  | None => ret tt
  end.

(** Pre-order, parent before children. *)
Fixpoint _connect_cb (fuel : nat) (self : eid) : M unit :=
  match fuel with
  | O => raise OutOfFuel
  | S fuel' =>
      ex <- lookup self ;;
      match _connect_cb_func ex with
      | Some f => emit (connect_cb f)
      | None => ret tt
      end ;;
      for_each (_children ex) (fun child => _connect_cb fuel' child)
  end.

(** Post-order, children before parent. *)
Fixpoint _disconnect_cb (fuel : nat) (self : eid) (reason : Z) (message : option string)
  : M unit :=
  match fuel with
  | O => raise OutOfFuel
  | S fuel' =>
      ex <- lookup self ;;
      for_each (_children ex) (fun child => _disconnect_cb fuel' child reason message) ;;
      match _disconnect_cb_func ex with
      | Some f => emit (disconnect_cb f reason message)
      | None => ret tt
      end
  end.

(** [self._requests.remove(request_)] *)
Definition _unlog_request (self : eid) (request_ : rid) : M unit :=
  ex <- lookup self ;;
  match PyStr.list_remove request_ (_requests ex) with
  | Some l => update self (set_requests_ l)
  | None => raise ValueError
  end.

(** The part of [close] after the children are closed and the open
    requests are dealt with: detach from the parent, forget the client
    and the callbacks. *)
Definition detach (self : eid) : M unit :=
  ex <- lookup self ;;
  match _parent ex with
  | Some p =>
      px <- lookup p ;;
      match PyStr.list_remove self (_children px) with
      | Some l => update p (set_children l)
      | None => raise ValueError
      end ;;
      update self (set_parent None)
  | None => ret tt
  end ;;
  update self clear_client ;;
  update self (set_cb_funcs None None) ;;
  emit (closed_executor self).

Section Close.

(** What [close] does with each request the executor still owns; the
    one statement in which the two releases of [close] differ. *)
Variable fail : rid → M unit.

(** [Executor.close] *)
Fixpoint close (fuel : nat) (self : eid) : M unit :=
  match fuel with
  | O => raise OutOfFuel
  | S fuel' =>
      ex <- lookup self ;;
      match _client ex with
      | None => ret tt
      | Some _ =>
          close_children fuel' self ;;
          ex' <- lookup self ;;
          for_each (_requests ex') fail ;;
          detach self
      end
  end
(** [while self._children: self._children[0].close()] *)
with close_children (fuel : nat) (self : eid) : M unit :=
  match fuel with
  | O => raise OutOfFuel
  | S fuel' =>
      ex <- lookup self ;;
      match _children ex with
      | [] => ret tt
      | child :: _ => close fuel' child ;; close_children fuel' self
      end
  end.

End Close.

End Executor_.

(** ** Connection specifications ([Client.connect_to_server]) *)

Module Netloc.

(** The [netloc] of [urllib.parse.urlsplit('//' + spec)]: the text
    after the two slashes, up to the first of [/], [?] and [#]. *)
Fixpoint netloc (s : string) : string :=
  match s with
  | EmptyString => EmptyString
  | String c s' =>
      if (Ascii.eqb c "/" || Ascii.eqb c "?" || Ascii.eqb c "#")%bool then EmptyString
      else String c (netloc s')
  end.

(** [SplitResult.username] *)
Definition username (netloc : string) : option string :=
  let '(userinfo, have_info, _) := PyStr.rpartition "@" netloc in
  if have_info then
    let '(user, _, _) := PyStr.partition ":" userinfo in Some user
  else None.

(** [SplitResult._hostinfo] *)
Definition _hostinfo (netloc : string) : string * option string :=
  let '(_, _, hostinfo) := PyStr.rpartition "@" netloc in
  let '(_, have_open_br, bracketed) := PyStr.partition "[" hostinfo in
  let '(hostname, port) :=
    if have_open_br then
      let '(hostname, _, port) := PyStr.partition "]" bracketed in
      let '(_, _, port) := PyStr.partition ":" port in (hostname, port)
    else
      let '(hostname, _, port) := PyStr.partition ":" hostinfo in (hostname, port) in
  (hostname, if PyStr.is_empty port then None else Some port).

(** [SplitResult.hostname] *)
Definition hostname (netloc : string) : option string :=
  let hostname := fst (_hostinfo netloc) in
  if PyStr.is_empty hostname then None
  else
    let '(hostname, percent, zone) := PyStr.partition "%" hostname in
    Some (PyStr.lower hostname ++ (if percent then "%" else "") ++ zone)%string.

(** [SplitResult.port]; [inl ValueError] for a port that is not a
    decimal number or is above 65535. *)
Definition port (netloc : string) : Exn + option N :=
  match snd (_hostinfo netloc) with
  | None => inr None
  | Some port =>
      if PyStr.all_digits port then
        let p := PyStr.int port in
        if (p <=? 65535)%N then inr (Some p) else inl ValueError
      else inl ValueError
  end.

(** [urlsplit] rejects a netloc with only one of the two brackets. *)
Definition brackets_ok (netloc : string) : bool :=
  Bool.eqb (PyStr.contains "[" netloc) (PyStr.contains "]" netloc).

Record Target : Type := mkTarget {
  _host : option string;
  _port : N;
  _password : option string
}.

(** [x or y] on optional text: an absent or empty [x] gives [y]. *)
Definition or_str (x y : option string) : option string :=
  match x with
  | Some s => if PyStr.is_empty s then y else Some s
  | None => y
  end.

(** The three assignments of [connect_to_server(host, port, password)];
    [MPD_HOST] is the value of the environment variable, if set. *)
Definition connect_to_server (MPD_HOST : option string)
    (host : option string) (port_ : N) (password : option string) : Exn + Target :=
  let spec :=
    match or_str host None with
    | Some h => h
    | None => match MPD_HOST with Some h => h | None => "localhost" end
    end in
  let nl := netloc spec in
  if negb (brackets_ok nl) then inl ValueError else
  match port nl with
  | inl e => inl e
  | inr p =>
      inr (mkTarget (hostname nl)
                    (match p with
                     | Some n => if (n =? 0)%N then port_ else n
                     | None => port_
                     end)
                    (or_str (username nl) password))
  end.

End Netloc.

(** ** client.py: the client, in the parts both releases share *)

Module Client_.

Import ClientState.

Definition state : M Z := w <- get ;; ret (_state (client w)).

Definition put_state (s : Z) : M unit := modify (set_client (set_state s)).

(** [self._transport.write(data)] *)
Definition write (data : string) : M unit :=
  w <- get ;;
  match _transport (client w) with
  | Some t =>
      modify (set_client (set_transport (Some (mkTransport (written t ++ [data]) (closed t)))))
  | None => raise AttributeError
  end.

(** [self._active_queue.append(request_)] *)
Definition queue_append (request_ : rid) : M unit :=
  w <- get ;;
  match _active_queue (client w) with
  | Some q => modify (set_client (set_active_queue (Some (q ++ [request_]))))
  | None => raise AttributeError
  end.

(** [self._active_queue.pop(0)] *)
Definition queue_pop : M rid :=
  w <- get ;;
  match _active_queue (client w) with
  | Some (request_ :: rest) =>
      modify (set_client (set_active_queue (Some rest))) ;; ret request_
  | Some [] => raise IndexError
  | None => raise AttributeError
  end.

Definition nl : string := String Parser.newline EmptyString.

(** The body of [_send] after the connection test, the same in both
    releases. *)
Definition send_connected (request_ : rid) : M unit :=
  req <- Future.lookup request_ ;;
  st <- state ;;
  (if bool_decide (class_ req = RequestIdle) then
     put_state (Z.land st (Z.lnot FLAG_ACTIVE))
   else if negb (truthy (Z.land st FLAG_ACTIVE)) then
     write ("noidle" ++ nl)%string ;;
     put_state (Z.lor st FLAG_ACTIVE)
   else ret tt) ;;
  write (_commandline req ++ nl)%string ;;
  emit (wrote request_) ;;
  queue_append request_.

Section Wait.
Variable _current_events : M Z.

(** [Client._wait] *)
Definition _wait (request_ : rid) : M unit :=
  cur <- _current_events ;;
  req <- Future.lookup request_ ;;
  let event := Z.land cur (_event_mask req) in
  if truthy event then Request_.set_result request_ (VInt event)
  else
    modify (set_client (set_waiting_list (fun l => l ++ [request_]))) ;;
    Future.add_done_callback request_ waiting_list_remove.
End Wait.

Section LogRequest.
Variable _wait : rid → M unit.
Variable _send : rid → M unit.

(** [Executor._log_request] *)
Definition _log_request (self : eid) (request_ : rid) : M unit :=
  ex <- Executor_.lookup self ;;
  match _client ex with
  | None => raise ConnectionError
  | Some _ =>
      Executor_.update self (Executor_.set_requests_ (_requests ex ++ [request_])) ;;
      Future.add_done_callback request_ (unlog_request self) ;;
      req <- Future.lookup request_ ;;
      if bool_decide (class_ req = RequestPassive) then _wait request_ else _send request_
  end.
End LogRequest.

(** [self._waiting_list.remove(request_)] *)
Definition waiting_list_remove_ (request_ : rid) : M unit :=
  w <- get ;;
  match PyStr.list_remove request_ (_waiting_list (client w)) with
  | Some l => modify (set_client (set_waiting_list (fun _ => l)))
  | None => raise ValueError
  end.

(** The loop of [_event] over [list(self._waiting_list)]; [mark] is the
    statement the older release runs before [set_result]. *)
Fixpoint event_loop (mark : M unit) (snapshot : list rid) (event : Z) (one : bool)
  : M bool :=
  match snapshot with
  | [] => ret false
  | request_ :: rest =>
      req <- Future.lookup request_ ;;
      let reply := Z.land (_event_mask req) event in
      if truthy reply then
        mark ;;
        Request_.set_result request_ (VInt reply) ;;
        if one then ret true else event_loop mark rest event one
      else event_loop mark rest event one
  end.

(** [event |= Event[subsystem.upper()]] over the result of the idle
    request. *)
Fixpoint subsystems_event (subsystems : list Value) (event : Z) : M Z :=
  match subsystems with
  | [] => ret event
  | VStr subsystem :: rest =>
      match Event.by_name (PyStr.upper subsystem) with
      | Some e => subsystems_event rest (Z.lor event e)
      | None => raise KeyError
      end
  | _ :: _ => raise AttributeError
  end.

(** The segment of [reconnect_to_server] between the success of
    [create_connection] and [await welcome]. *)
Definition connection_made : M rid :=
  put_state STATE_ACTIVE ;;
  modify (set_client (set_transport (Some (mkTransport [] false)))) ;;
  w <- get ;;
  welcome <- new_RequestWelcome (executor (client w)) ;;
  modify (set_client (set_active_queue (Some [welcome]))) ;;
  ret welcome.

End Client_.

(** [AMPDProtocol.data_received] of release 0.2.12: lines are collected
    until one starts with [OK] or [ACK]; each such block is handed to a
    new [_process_reply] task. *)
Module AMPDProtocol.

Record t : Type := mk { _lines : list string; _incomplete_line : string }.

Fixpoint lines_loop (new_lines : list string) (lines : list string) (blocks : list (list string))
  : list string * list (list string) :=
  match new_lines with
  | [] => (lines, blocks)
  | line :: rest =>
      if (PyStr.startswith "OK" line || PyStr.startswith "ACK" line)%bool
      then lines_loop rest [] (blocks ++ [lines ++ [line]])
      else lines_loop rest (lines ++ [line]) blocks
  end.

Definition data_received (p : t) (data : string) : t * list (list string) :=
  let new_lines := PyStr.split Parser.newline (_incomplete_line p ++ data)%string in
  let '(lines, blocks) := lines_loop (removelast new_lines) (_lines p) [] in
  (mk lines (List.last new_lines EmptyString), blocks).

End AMPDProtocol.

(** ** ampd/client.py, release 0.2.12 *)

Module V0212.

Import ClientState.

Definition _current_events : M Z :=
  st <- Client_.state ;;
  let idle := if st =? STATE_IDLE then Event.IDLE else 0 in
  let connected := if truthy (Z.land st FLAG_CONNECTED) then Event.CONNECT else 0 in
  ret (Z.lor idle connected).

Definition _wait : rid → M unit := Client_._wait _current_events.

Definition _send (request_ : rid) : M unit :=
  modify (set_client (set_active true)) ;;
  st <- Client_.state ;;
  if negb (truthy (Z.land st FLAG_CONNECTED)) then raise ConnectionError
  else Client_.send_connected request_.

Definition _log_request : eid → rid → M unit := Client_._log_request _wait _send.

Definition await_ : rid → M (option Value) := await _log_request.

Definition _event (event : Z) (one : bool) : M bool :=
  w <- get ;;
  Client_.event_loop (modify (set_client (set_active true)))
                     (_waiting_list (client w)) event one.

Definition _unidle (request_ : rid) : M unit :=
  st <- Client_.state ;;
  if truthy (Z.land st FLAG_CONNECTED) then Client_.put_state (Z.lor st FLAG_ACTIVE)
  else ret tt.

(** [_idle_task] after [await request_] has produced its value. *)
Definition _idle_task_resume (request_ : rid) : M unit :=
  v <- Future.result request_ ;;
  match v with
  | VList subsystems =>
      event <- Client_.subsystems_event subsystems Event.NONE ;;
      if truthy event then _event event false ;; ret tt else ret tt
  | _ => raise TypeError
  end.

(** [_idle_task] up to the point where [await request_] suspends it. *)
Definition _idle_task : M unit :=
  w <- get ;;
  if negb (truthy (Z.land (_state (client w)) FLAG_CONNECTED)) then ret tt
  else if _active (client w) then ret tt
  else
    b <- _event Event.IDLE true ;;
    if b then ret tt
    else
      request_ <- new_RequestIdle (executor (client w)) ;;
      Future.add_done_callback request_ unidle ;;
      o <- await_ request_ ;;
      match o with
      | None => Future.add_done_callback request_ idle_task_wakeup
      | Some _ => _idle_task_resume request_
      end.

(** [Client._process_reply(reply)] *)
Definition _process_reply (reply : list string) : M unit :=
  w <- get ;;
  match _active_queue (client w) with
  | None => raise AssertionError
  | Some [] => ret tt
  | Some (_ :: _) =>
      request_ <- Client_.queue_pop ;;
      emit (replied request_) ;;
      Parser._process_reply request_ reply ;;
      w' <- get ;;
      match _active_queue (client w') with
      | Some [] =>
          modify (set_client (set_active false)) ;;
          Future.call_soon HIdleTask
      | Some _ => ret tt
      | None => raise AttributeError
      end
  end.

(** [Executor.close]: [request_.cancel()] for each request still owned. *)
Definition close : nat → eid → M unit :=
  Executor_.close (fun request_ => Future.cancel request_ ;; ret tt).

(** [Client.disconnect_from_server(_reason, _message)] *)
Definition disconnect_from_server (fuel : nat) (_reason : Z) (_message : option string)
  : M unit :=
  st <- Client_.state ;;
  if st =? STATE_DISCONNECTED then ret tt
  else
    (if st =? STATE_CONNECTING then ret tt   (* [self._connecting.cancel()] *)
     else
       modify (set_client (set_protocol_version None)) ;;
       modify (set_client (set_active_queue None)) ;;
       modify (set_client (set_transport None))) ;;
    Client_.put_state STATE_DISCONNECTED ;;
    w <- get ;;
    Executor_._disconnect_cb fuel (executor (client w)) _reason _message.

(** What the event loop does with a ready handle. *)
Definition run_handle (h : Handle) : M unit :=
  match h with
  | HDone (unlog_request e) r => Executor_._unlog_request e r
  | HDone waiting_list_remove r => Client_.waiting_list_remove_ r
  | HDone cancel_timeout r => _cancel_timeout r
  | HDone unidle r => _unidle r
  | HDone idle_task_wakeup r => _idle_task_resume r
  | HDone (caller_wakeup _) _ => ret tt
  | HTimer h => Loop.run_timer h
  | HProcessReply lines => _process_reply lines
  | HIdleTask => _idle_task
  end.

End V0212.

(** ** src/ampd/client.py, release 0.3.3 *)

Module V033.

Import ClientState.

Definition _current_events : M Z :=
  st <- Client_.state ;;
  let idle := if st =? STATE_IDLE then Event.IDLE else 0 in
  ret idle.

Definition _wait : rid → M unit := Client_._wait _current_events.

Definition _send (request_ : rid) : M unit :=
  st <- Client_.state ;;
  if negb (truthy (Z.land st FLAG_CONNECTED)) then raise ConnectionError
  else Client_.send_connected request_.

Definition _log_request : eid → rid → M unit := Client_._log_request _wait _send.

Definition await_ : rid → M (option Value) := await _log_request.

Definition _event (event : Z) (one : bool) : M bool :=
  w <- get ;;
  Client_.event_loop (ret tt) (_waiting_list (client w)) event one.

(** [_idle_task] after [await RequestIdle(...)] has produced its value. *)
Definition _idle_task_resume (request_ : rid) : M unit :=
  v <- Future.result request_ ;;
  match v with
  | VList subsystems =>
      event <- Client_.subsystems_event subsystems Event.NONE ;;
      (if truthy event then _event event false ;; ret tt else ret tt) ;;
      Future.call_soon HIdleTask
  | _ => raise TypeError
  end.

(** [_idle_task] up to the point where the [await] suspends it. *)
Definition _idle_task : M unit :=
  w <- get ;;
  if negb (truthy (Z.land (_state (client w)) FLAG_CONNECTED)) then ret tt
  else
    match _active_queue (client w) with
    | None => raise AttributeError
    | Some (_ :: _) => ret tt
    | Some [] =>
        b <- _event Event.IDLE true ;;
        if b then Future.call_soon HIdleTask
        else
          request_ <- new_RequestIdle (executor (client w)) ;;
          o <- await_ request_ ;;
          match o with
          | None => Future.add_done_callback request_ idle_task_wakeup
          | Some _ => _idle_task_resume request_
          end
    end.

(** [if not request_.done(): request_.set_exception(errors.ConnectionError)] *)
Definition fail_request (request_ : rid) : M unit :=
  d <- Future.done request_ ;;
  if negb d then Future.set_exception request_ ConnectionError else ret tt.

(** [Executor.close] *)
Definition close : nat → eid → M unit := Executor_.close fail_request.

(** Modelled from the spec: [request.py] of release 0.3.3 is not
    available, so what [await request_] does in [disconnect_from_server]
    is taken from the words «explicitly fails them with a connection
    error and awaits their settlement»: the future itself is awaited, as
    [asyncio.Future.__await__] does.  The request is done at that point,
    so the await returns its result or raises its exception at once. *)
Definition await_settlement (request_ : rid) : M unit :=
  Loop.await_ request_ ;; ret tt.

(** [Client.disconnect_from_server(_reason, _message)] *)
Definition disconnect_from_server (fuel : nat) (_reason : Z) (_message : option string)
  : M unit :=
  st <- Client_.state ;;
  if st =? STATE_DISCONNECTED then ret tt
  else
    (if st =? STATE_CONNECTING then ret tt   (* [self._connecting.cancel()] *)
     else
       w <- get ;;
       match _transport (client w), _active_queue (client w) with
       | Some t, Some q =>
           modify (set_client (set_transport (Some (mkTransport (written t) true)))) ;;
           modify (set_client (set_protocol_version None)) ;;
           for_each (q ++ _waiting_list (client w))
                    (fun request_ =>
                       fail_request request_ ;;
                       try_except (await_settlement request_)
                                  (fun e => bool_decide (e = ConnectionError))
                                  (ret tt)) ;;
           modify (set_client (set_active_queue None)) ;;
           modify (set_client (set_transport None))
       | _, _ => raise AttributeError
       end) ;;
    Client_.put_state STATE_DISCONNECTED ;;
    w <- get ;;
    Executor_._disconnect_cb fuel (executor (client w)) _reason _message.

Section DataReceived.

(** [request_.read_data(data)] belongs to [request.py] of release
    0.3.3, which is not available: it is given the data received,
    and returns [None] while the reply of the request is incomplete,
    or the data left over once the reply is complete. *)
Variable read_data : rid → string → M (option string).

(** [Client.data_received(data)] *)
Fixpoint data_received (fuel : nat) (data : string) : M unit :=
  match fuel with
  | O => raise OutOfFuel
  | S fuel' =>
      w <- get ;;
      match _active_queue (client w) with
      | None => raise AttributeError
      | Some [] => raise IndexError
      | Some (request_ :: _) =>
          o <- read_data request_ data ;;
          match o with
          | None => ret tt
          | Some data' =>
              req <- Future.lookup request_ ;;
              (if bool_decide (class_ req = RequestIdle) then
                 st <- Client_.state ;; Client_.put_state (Z.lor st FLAG_ACTIVE)
               else ret tt) ;;
              popped <- Client_.queue_pop ;;
              emit (replied popped) ;;
              w' <- get ;;
              match _active_queue (client w') with
              | Some (_ :: _) => data_received fuel' data'
              | Some [] => Future.call_soon HIdleTask
              | None => raise AttributeError
              end
          end
      end
  end.

End DataReceived.

(** What the event loop does with a ready handle. *)
Definition run_handle (h : Handle) : M unit :=
  match h with
  | HDone (unlog_request e) r => Executor_._unlog_request e r
  | HDone waiting_list_remove r => Client_.waiting_list_remove_ r
  | HDone cancel_timeout r => _cancel_timeout r
  | HDone unidle r => ret tt
  | HDone idle_task_wakeup r => _idle_task_resume r
  | HDone (caller_wakeup _) _ => ret tt
  | HTimer h => Loop.run_timer h
  | HProcessReply _ => ret tt
  | HIdleTask => _idle_task
  end.

End V033.

(** ** Auxiliary definitions for the statements *)

(** The world after future [r] (holding [req]) settles with outcome [o]. *)
Definition settled_world (r : rid) (req : Request) (o : Outcome) (w : World) : World :=
  mkWorld (<[r := set_callbacks_ [] (set_outcome o req)]> (requests w))
          (executors w) (timers w)
          (ready w ++ map (fun cb => HDone cb r) (_callbacks req))
          (client w) (trace w ++ [settled r o]).

(** ** Quoting as the specification words it *)

Module QuoteSpec.

Import Quote.

(** Following the specification: «string args double-quoted with
    the double quote and the backslash escaped». *)
Fixpoint escape (s : string) : string :=
  match s with
  | EmptyString => EmptyString
  | String c s' =>
      if (Ascii.eqb c dquote || Ascii.eqb c backslash)%bool
      then String backslash (String c (escape s'))
      else String c (escape s')
  end.

Definition quote_arg (arg : string) : string :=
  String dquote (escape arg ++ String dquote EmptyString).

(** The reading this escaping determines, which is the one of the
    protocol: after the opening quote a backslash makes the next
    character literal and the first bare double quote ends the argument.
    The result is the argument and the text after the closing quote;
    [None] when the closing quote is missing. *)
Fixpoint unescape (s : string) : option (string * string) :=
  match s with
  | EmptyString => None
  | String c s' =>
      if Ascii.eqb c dquote then Some (EmptyString, s')
      else if Ascii.eqb c backslash then
        match s' with
        | EmptyString => None
        | String d s'' =>
            match unescape s'' with
            | Some (a, rest) => Some (String d a, rest)
            | None => None
            end
        end
      else
        match unescape s' with
        | Some (a, rest) => Some (String c a, rest)
        | None => None
        end
  end.

(** Decoding of one quoted argument standing alone. *)
Definition unquote_arg (s : string) : option string :=
  match s with
  | String c s' =>
      if Ascii.eqb c dquote then
        match unescape s' with
        | Some (a, EmptyString) => Some a
        | _ => None
        end
      else None
  | EmptyString => None
  end.

End QuoteSpec.

(** The argument of the specification's round-trip example: the five
    characters a, double quote, b, backslash, c. *)
Definition arg_quote_backslash : string :=
  String "a" (String Quote.dquote (String "b" (String Quote.backslash (String "c" EmptyString)))).

(** ** Reply blocks *)

(** A line that [RequestCommandLine._parser(success)] takes as a field:
    it is not an error line, not the success line, and splits at the
    first [DELIM]; the result is the pair appended to [lines]. *)
Definition payload_line (success line : string) : option (string * string) :=
  match Parser.match_error line with
  | Some _ => None
  | None =>
      if String.eqb line success then None
      else match PyStr.partition Parser.DELIM line with
           | (key, true, value) => Some (PyStr.replace "-" "_" key, value)
           | _ => None
           end
  end.

Fixpoint payload_lines (success : string) (lines : list string)
  : option (list (string * string)) :=
  match lines with
  | [] => Some []
  | line :: rest =>
      match payload_line success line, payload_lines success rest with
      | Some kv, Some kvs => Some (kv :: kvs)
      | _, _ => None
      end
  end.

(** A member of a command list whose part of the reply is a success:
    its address, the field lines the server sends for it, and the value
    its transform makes of them. *)
Record Member : Type := mkMember {
  m_request : rid;
  m_payload : list string;
  m_value : Value
}.

Definition member_ok (w : World) (m : Member) : Prop :=
  ∃ req fields,
    requests w !! m_request m = Some req
    ∧ outcome req = Pending
    ∧ payload_lines Parser.LIST_SUCCESS (m_payload m) = Some fields
    ∧ Transform.apply (_transform req) fields = inr (m_value m).

(** The lines of the reply for the members that succeed. *)
Definition members_reply (members : list Member) : list string :=
  flat_map (fun m => m_payload m ++ [Parser.LIST_SUCCESS]) members.

(** What is observed while the members that succeed are parsed. *)
Definition members_trace (members : list Member) : list Obs :=
  flat_map (fun m => [decoded (m_request m); settled (m_request m) (Result (m_value m))])
           members.

Definition outcome_of (w : World) (r : rid) : option Outcome :=
  outcome <$> requests w !! r.

(** The world after a member's reply is decoded and the member resolved. *)
Definition member_world (c : rid) (v : Value) (w : World) : World :=
  match requests w !! c with
  | Some req => settled_world c req (Result v) (set_trace (fun t => t ++ [decoded c]) w)
  | None => w
  end.

Definition members_world (members : list Member) (w : World) : World :=
  fold_left (fun w m => member_world (m_request m) (m_value m) w) members w.

(** ** Example worlds *)

Module Examples.

Definition command (name : string) (args : list Quote.Arg) (tr : Transform.t) : Request :=
  mkRequest RequestCommand Pending [] 0 (Quote.commandline name args) tr [] 0 None None.

Definition root : Executor := mkExecutor None (Some the_client) [] [] None None.

Definition active_client (queue : list rid) : Client :=
  mkClient 0 [] ClientState.STATE_ACTIVE (Some "0.23.5") (Some queue)
           (Some (mkTransport [] false)) true.

(** [status], [currentsong] and [play] grouped in the command list 10,
    which has been sent. *)
Definition batch : Request :=
  mkRequest RequestCommandList Pending [] 0
            "command_list_ok_begin
status 
currentsong 
play 
command_list_end"
            Transform.NoTransform [1; 2; 3]%nat 0 None None.

Definition w_batch : World :=
  mkWorld (list_to_map [ (1%nat, command "status" [] Transform.Dict);
                         (2%nat, command "currentsong" [] Transform.Dict);
                         (3%nat, command "play" [] Transform.Empty);
                         (10%nat, batch) ])
          {[ 0%nat := root ]} ∅ [] (active_client [10%nat]) [].

Definition status_ok : Member :=
  mkMember 1 ["volume: 50"; "state: stop"]
           (VDict [("volume", VStr "50"); ("state", VStr "stop")]).

Definition ack_line : string := "ACK [50@1] {currentsong} No such song".

(** One pending [status] request, and the same request resolved. *)
Definition w_pending : World :=
  mkWorld {[ 1%nat := command "status" [] Transform.Dict ]}
          {[ 0%nat := root ]} ∅ [] (active_client [1%nat]) [].

Definition w_resolved : World :=
  mkWorld {[ 1%nat := set_outcome (Result VTrue) (command "ping" [] Transform.Empty) ]}
          {[ 0%nat := root ]} ∅ [] (active_client []) [].

End Examples.

(** ** Runs of the engine on one connection *)

(** The requests whose command lines were written, and the requests that
    were handed a reply, in order. *)
Definition wrote_of (t : list Obs) : list rid :=
  omap (fun o => match o with wrote r => Some r | _ => None end) t.
Definition replied_of (t : list Obs) : list rid :=
  omap (fun o => match o with replied r => Some r | _ => None end) t.

(** What the ordering of replies depends on. *)
Definition fifo_view (w : World) : option (list rid) * list rid * list rid :=
  (_active_queue (client w), replied_of (trace w), wrote_of (trace w)).

(** The requests answered so far, followed by the in-flight queue, are
    the requests in [base] followed by the requests written so far. *)
Definition fifo_inv (base : list rid) (w : World) : Prop :=
  ∃ q, _active_queue (client w) = Some q
       ∧ replied_of (trace w) ++ q = base ++ wrote_of (trace w).

(** What can happen on a connection of release 0.2.12. *)
Inductive Action : Type :=
  | Await (r : rid)                    (* a caller task awaits request [r] *)
  | ReplyBlock (lines : list string)   (* a reply block is processed *)
  | RunReady                           (* the loop runs its next ready handle *)
  | TimerDue (h : hid).                (* the delay of a timer elapses *)

(** The loop runs the first ready handle; what the handle raises goes to
    the loop's exception handler. *)
Definition run_ready (run_handle : Handle → M unit) (w : World) : World :=
  match ready w with
  | [] => w
  | h :: q => world_of (run_handle h (set_ready (fun _ => q) w))
  end.

Definition act0212 (a : Action) (w : World) : World :=
  match a with
  | Await r => world_of (V0212.await_ r w)
  | ReplyBlock lines => world_of (V0212._process_reply lines w)
  | RunReady => run_ready V0212.run_handle w
  | TimerDue h => world_of (Loop.timer_due h w)
  end.

Definition run0212 (actions : list Action) (w : World) : World :=
  fold_left (fun w a => act0212 a w) actions w.

(** What can happen on a connection of release 0.3.3; [Data] is a call
    of [Client.data_received] by the protocol. *)
Inductive Action033 : Type :=
  | Await033 (r : rid)
  | Data (fuel : nat) (data : string)
  | RunReady033
  | TimerDue033 (h : hid).

Definition act033 (read_data : rid → string → M (option string)) (a : Action033) (w : World)
  : World :=
  match a with
  | Await033 r => world_of (V033.await_ r w)
  | Data fuel data => world_of (V033.data_received read_data fuel data w)
  | RunReady033 => run_ready V033.run_handle w
  | TimerDue033 h => world_of (Loop.timer_due h w)
  end.

Definition run033 (read_data : rid → string → M (option string))
    (actions : list Action033) (w : World) : World :=
  fold_left (fun w a => act033 read_data a w) actions w.

(** A command leaves a view of the world as it is, whether it returns or
    raises. *)
Definition preserves {X A : Type} (view : World → X) (c : M A) : Prop :=
  ∀ w, view (world_of (c w)) = view w.

(** A command keeps an invariant of the world, whether it returns or
    raises. *)
Definition keeps {A : Type} (I : World → Prop) (c : M A) : Prop :=
  ∀ w, I w → I (world_of (c w)).

(** The part of the world that the wire and the timers see: the
    in-flight queue, the transport, the timer handles, and the command
    lines written, replies handed out and timeout callbacks called. *)
Definition is_wire_obs (o : Obs) : bool :=
  match o with wrote _ | replied _ | timeout_cb _ => true | _ => false end.

Definition core_view (w : World)
  : option (list rid) * option Transport * gmap hid TimerHandle * list Obs :=
  (_active_queue (client w), _transport (client w), timers w,
   List.filter is_wire_obs (trace w)).

(** The classes whose [_parser] is [RequestCommandLine._parser]. *)
Definition is_command_line (c : RequestClass) : bool :=
  match c with
  | RequestCommandLine | RequestCommand | RequestIdle => true
  | _ => false
  end.

(** A read_data that takes a reply to be complete with whatever has
    arrived: a stand-in for the missing method in examples. *)
Definition read_all (r : rid) (data : string) : M (option string) :=
  Request_.set_result r VNone ;; ret (Some EmptyString).

Module Scenario.

(** A client just connected: the greeting 0 is in flight; [status],
    [currentsong] and a subscription to the player have been created by
    two callers and are not yet awaited. *)
Definition welcome : Request :=
  mkRequest RequestWelcome Pending [] 0 "" Transform.NoTransform [] 0 None None.

Definition subscription (mask : Z) (timeout : option Q) : Request :=
  mkRequest RequestPassive Pending [] 0 "" Transform.NoTransform [] mask timeout None.

Definition connected : World :=
  mkWorld (list_to_map [ (0%nat, welcome);
                         (1%nat, Examples.command "status" [] Transform.Dict);
                         (2%nat, Examples.command "currentsong" [] Transform.Dict);
                         (3%nat, subscription Event.PLAYER None) ])
          {[ 0%nat := Examples.root ]} ∅ []
          (mkClient 0 [] ClientState.STATE_ACTIVE None (Some [0%nat])
                    (Some (mkTransport [] false)) true)
          [].

(** The greeting arrives, the loop goes idle, then the two commands are
    awaited and answered. *)
Definition actions : list Action :=
  [ ReplyBlock ["OK MPD 0.23.5"]; RunReady; RunReady;
    Await 3; Await 2; Await 1;
    ReplyBlock ["changed: player"; "OK"];
    ReplyBlock ["file: x.mp3"; "OK"];
    RunReady; RunReady; RunReady ].

Definition actions033 : list Action033 :=
  [ Data 5 "OK MPD 0.23.5"; RunReady033; RunReady033;
    Await033 3; Await033 2; Await033 1;
    Data 5 "changed: player"; RunReady033 ].

End Scenario.

(** The order in which replies are handed out only ever grows at its
    end: the requests answered so far followed by the in-flight queue
    begin with [order]. *)
Definition order_inv (order : list rid) (w : World) : Prop :=
  ∃ q sent, _active_queue (client w) = Some q
            ∧ replied_of (trace w) ++ q = order ++ sent.

(** The client after [_send] of a request other than the idle request:
    [noidle] tells whether the interrupt token was written. *)
Definition sent_client (noidle : bool) (r : rid) (req : Request) (t : Transport)
    (q : list rid) (c : Client) : Client :=
  mkClient (executor c) (_waiting_list c)
           (if noidle then Z.lor (_state c) ClientState.FLAG_ACTIVE else _state c)
           (protocol_version c) (Some (q ++ [r]))
           (Some (mkTransport (written t
                               ++ (if noidle then [("noidle" ++ Client_.nl)%string] else [])
                               ++ [(_commandline req ++ Client_.nl)%string])
                              (closed t)))
           (_active c).

Definition sent_world (noidle : bool) (r : rid) (req : Request) (t : Transport)
    (q : list rid) (w : World) : World :=
  mkWorld (requests w) (executors w) (timers w) (ready w)
          (sent_client noidle r req t q (client w)) (trace w ++ [wrote r]).

Definition is_idle_state (st : Z) : bool :=
  truthy (Z.land st ClientState.FLAG_CONNECTED)
  && negb (truthy (Z.land st ClientState.FLAG_ACTIVE)).

Definition is_active_state (st : Z) : bool :=
  truthy (Z.land st ClientState.FLAG_CONNECTED)
  && truthy (Z.land st ClientState.FLAG_ACTIVE).

(** What [_send] of request [r] has done between the worlds [w] and
    [w1]: the chunks written, the new state, [r] at the end of the queue. *)
Definition sent_as (w w1 : World) (r : rid) (t : Transport) (q : list rid)
    (chunks : list string) (st1 : Z) : Prop :=
  _transport (client w1) = Some (mkTransport (written t ++ chunks) (closed t))
  ∧ _state (client w1) = st1
  ∧ _active_queue (client w1) = Some (q ++ [r])
  ∧ trace w1 = trace w ++ [wrote r]
  ∧ requests w1 = requests w.

Module Scenario2.

(** The client of [Scenario] gone idle: the greeting is answered and
    the idle request 4 is in flight. *)
Definition idle : World :=
  run0212 [ReplyBlock ["OK MPD 0.23.5"]; RunReady; RunReady] Scenario.connected.

(** The same client after [currentsong] was sent: Active, the idle
    request 4 and request 2 in flight. *)
Definition active : World := act0212 (Await 2) idle.

Definition transport_of (w : World) : Transport :=
  match _transport (client w) with Some t => t | None => mkTransport [] true end.

End Scenario2.

(** ** Subscriptions *)

(** The value of [Client._current_events()] in each release, from the
    state of the client. *)
Definition current_events0212 (st : Z) : Z :=
  Z.lor (if st =? ClientState.STATE_IDLE then Event.IDLE else 0)
        (if truthy (Z.land st ClientState.FLAG_CONNECTED) then Event.CONNECT else 0).

Definition current_events033 (st : Z) : Z :=
  if st =? ClientState.STATE_IDLE then Event.IDLE else 0.

(** A pending subscription of an executor that is not closed. *)
Definition open_subscription (w : World) (r : rid) (req : Request) : Prop :=
  requests w !! r = Some req
  ∧ class_ req = RequestPassive
  ∧ outcome req = Pending
  ∧ ∃ ex, executors w !! _executor req = Some ex ∧ _client ex = Some the_client.

(** Nothing went over the wire between two worlds: same transport (and
    so the same bytes written), same in-flight queue. *)
Definition wire_untouched (w w' : World) : Prop :=
  _transport (client w') = _transport (client w)
  ∧ _active_queue (client w') = _active_queue (client w).

(** The request and the world after the first statements of
    [RequestPassive.__await__]: with a timeout, the timer is armed, the
    [TIMEOUT] bit joins the mask and [_cancel_timeout] is registered. *)
Definition armed_request (w : World) (req : Request) : Request :=
  match _timeout req with
  | Some _ =>
      set_callbacks_ (_callbacks req ++ [cancel_timeout])
        (set_event_mask (Z.lor (_event_mask req) Event.TIMEOUT)
           (set_timeout_handle (Some (fresh (dom (timers w)))) req))
  | None => req
  end.

Definition armed_world (w : World) (r : rid) (req : Request) : World :=
  match _timeout req with
  | Some timeout =>
      set_requests (insert r (armed_request w req))
        (set_timers (insert (fresh (dom (timers w))) (mkTimerHandle r timeout true false)) w)
  | None => w
  end.

Module Scenario3.

(** Two more subscriptions, not yet awaited: 5 for [CONNECT], 6 for
    [IDLE] or [CONNECT] with a timeout of 30 seconds. *)
Definition more (w : World) : World :=
  set_requests
    (fun m => <[5%nat := Scenario.subscription Event.CONNECT None]>
              (<[6%nat := Scenario.subscription (Z.lor Event.IDLE Event.CONNECT) (Some 30%Q)]>
                 m)) w.

Definition idle : World := more Scenario2.idle.
Definition active : World := more Scenario2.active.

End Scenario3.

(** ** Timers of subscriptions *)

(** The calls of the callback of timer [h] seen so far. *)
Definition fired (h : hid) (t : list Obs) : list Obs :=
  List.filter (fun o => match o with timeout_cb h' => Nat.eqb h' h | _ => false end) t.

(** Timer [h] is cancelled and its callback has been called [n] times. *)
Definition disarmed_inv (h : hid) (n : nat) (w : World) : Prop :=
  (∃ t, timers w !! h = Some t ∧ h_cancelled t = true)
  ∧ length (fired h (trace w)) = n.

(** Subscription [r] waits with its timer [h] armed. *)
Definition armed (w : World) (r : rid) (h : hid) (timeout : Q) : Prop :=
  ∃ req, requests w !! r = Some req
         ∧ outcome req = Pending
         ∧ _timeout_handle req = Some h
         ∧ cancel_timeout ∈ _callbacks req
         ∧ Z.land (_event_mask req) Event.TIMEOUT = Event.TIMEOUT
         ∧ timers w !! h = Some (mkTimerHandle r timeout true false).

(** The subscription as it waits after [await]: armed, logged by its
    executor and put on the waiting list. *)
Definition waiting_request (w : World) (req : Request) : Request :=
  let req2 := armed_request w req in
  let req3 := set_callbacks_ (_callbacks req2 ++ [unlog_request (_executor req2)]) req2 in
  set_callbacks_ (_callbacks req3 ++ [waiting_list_remove]) req3.

Module Scenario4.

(** The idle client, with one more subscription: 7 waits for the
    player, for at most 30 seconds. *)
Definition start : World :=
  set_requests (insert 7%nat (Scenario.subscription Event.PLAYER (Some 30%Q))) Scenario2.idle.

(** The subscription is awaited; the server reports a change of the
    player; the timer elapses before the loop has run the callbacks of
    the idle request, which resolve the subscription. *)
Definition actions : list Action :=
  [ Await 7; ReplyBlock ["changed: player"; "OK"]; TimerDue 0;
    RunReady; RunReady; RunReady; RunReady; RunReady ].

(** ... and then the loop runs the done callbacks of the subscription. *)
Definition later : list Action := [ RunReady; RunReady; RunReady ].

End Scenario4.


(** Subscription [r] is done with outcome [o]; the loop has its
    [_cancel_timeout] to run and timer [h] is not cancelled yet. *)
Definition resolving (w : World) (r : rid) (h : hid) (o : Outcome) : Prop :=
  Future.is_done o = true
  ∧ (∃ req, requests w !! r = Some req ∧ outcome req = o ∧ _timeout_handle req = Some h)
  ∧ (∃ t, timers w !! h = Some t ∧ h_request t = r ∧ h_cancelled t = false)
  ∧ HDone cancel_timeout r ∈ ready w.

(** From world [w] on, the loop skips the handle of timer [h]: its
    callback has been called as often as it ever will be. *)
Definition never_again (h : hid) (n : nat) (w : World) : Prop :=
  Loop.run_timer h w = Ok tt w ∧ length (fired h (trace w)) = n.


(** ** Executor trees *)

(** The executors below an executor, as a forest in first-child,
    next-sibling form: [FCons e ch sib] is executor [e] with the forest
    [ch] of its children, followed by its later siblings [sib]. *)
Inductive Forest : Type :=
  | FNil
  | FCons (e : eid) (children : Forest) (siblings : Forest).

Fixpoint roots (f : Forest) : list eid :=
  match f with
  | FNil => []
  | FCons e _ sib => e :: roots sib
  end.

Fixpoint nodes (f : Forest) : list eid :=
  match f with
  | FNil => []
  | FCons e ch sib => e :: nodes ch ++ nodes sib
  end.

(** The requests an executor has logged. *)
Definition requests_of (w : World) (e : eid) : list rid :=
  match executors w !! e with
  | Some ex => _requests ex
  | None => []
  end.

(** Forest [f] is what the heap has below executor [p]: every executor
    of [f] is open, points to its parent, lists its children in order,
    and the requests it has logged exist. *)
Fixpoint forest_ok (w : World) (p : eid) (f : Forest) : Prop :=
  match f with
  | FNil => True
  | FCons e ch sib =>
      (∃ ex, executors w !! e = Some ex
             ∧ _client ex = Some the_client
             ∧ _parent ex = Some p
             ∧ _children ex = roots ch
             ∧ Forall (fun r => is_Some (requests w !! r)) (_requests ex))
      ∧ forest_ok w e ch
      ∧ forest_ok w p sib
  end.

(** Executor [e] is open, with the forest [ch] below it; its parent, if
    it has one, is outside that forest and lists [e] among its
    children. *)
Definition open_tree (w : World) (e : eid) (ch : Forest) : Prop :=
  NoDup (e :: nodes ch)
  ∧ forest_ok w e ch
  ∧ ∃ ex, executors w !! e = Some ex
          ∧ _client ex = Some the_client
          ∧ _children ex = roots ch
          ∧ Forall (fun r => is_Some (requests w !! r)) (_requests ex)
          ∧ match _parent ex with
            | None => True
            | Some p => (p ∉ e :: nodes ch)
                        ∧ ∃ px, executors w !! p = Some px ∧ e ∈ _children px
            end.

(** Executor [e] is closed: its reference to the client is cleared. *)
Definition is_closed (w : World) (e : eid) : Prop :=
  ∃ ex, executors w !! e = Some ex ∧ _client ex = None.

(** What [close] makes of a request it still finds in [_requests]: a
    pending request gets the outcome [how], a done request is left
    alone. *)
Definition failed (how : Outcome) (r : rid) (w : World) : World :=
  match requests w !! r with
  | Some req => if Future.is_done (outcome req) then w else settled_world r req how w
  | None => w
  end.

Definition failed_all (how : Outcome) (rs : list rid) (w : World) : World :=
  fold_left (fun w r => failed how r w) rs w.

(** Between two worlds the outcome of a request is the same, or the
    request was pending and now has the outcome [how]. *)
Definition outcomes_fail (how : Outcome) (w w' : World) : Prop :=
  ∀ r o, outcome_of w r = Some o →
         outcome_of w' r = Some o ∨ (o = Pending ∧ outcome_of w' r = Some how).

(** The history [tr] of closing the forest [f]: for each executor, first
    the history of closing its children, then its own requests are
    failed, then the executor itself is closed; then its siblings. *)
Fixpoint closes (how : Outcome) (owned : eid → list rid) (f : Forest) (tr : list Obs)
  : Prop :=
  match f with
  | FNil => tr = []
  | FCons e ch sib =>
      ∃ tr1 tr2 tr3,
        tr = tr1 ++ tr2 ++ closed_executor e :: tr3
        ∧ closes how owned ch tr1
        ∧ Forall (fun o => ∃ r, r ∈ owned e ∧ o = settled r how) tr2
        ∧ closes how owned sib tr3
  end.

(** The executor after [detach]. *)
Definition detached (ex : Executor) : Executor :=
  mkExecutor None None (_children ex) (_requests ex) None None.


(** World [w'] is world [w] after the forest [f] below executor [p]
    (whose record in [w] is [px]) has been closed. *)
Definition closed_below (how : Outcome) (p : eid) (px : Executor) (f : Forest)
    (w w' : World) : Prop :=
  executors w' !! p = Some (Executor_.set_children [] px)
  ∧ (∀ x, x ∈ nodes f → is_closed w' x)
  ∧ (∀ x, x ≠ p → x ∉ nodes f → executors w' !! x = executors w !! x)
  ∧ client w' = client w
  ∧ outcomes_fail how w w'
  ∧ (∀ x, requests_of w' x = requests_of w x)
  ∧ (∀ x r, x ∈ nodes f → r ∈ requests_of w x → outcome_of w r = Some Pending →
            outcome_of w' r = Some how)
  ∧ ∃ tr, trace w' = trace w ++ tr ∧ closes how (requests_of w) f tr.


(** World [w'] is world [w] after the first [close] of executor [e],
    with the forest [ch] below it: every executor of the tree is closed;
    every request of the tree that was pending has the outcome [how], the
    other outcomes are as they were; the client and its connection are
    untouched; and in the history the forest is closed first, then the
    requests of [e] itself are failed, then [e] is closed. *)
Definition tree_closed (how : Outcome) (e : eid) (ch : Forest) (w w' : World) : Prop :=
  (∀ x, x ∈ e :: nodes ch → is_closed w' x)
  ∧ (∀ x r, x ∈ e :: nodes ch → r ∈ requests_of w x → outcome_of w r = Some Pending →
            outcome_of w' r = Some how)
  ∧ outcomes_fail how w w'
  ∧ client w' = client w
  ∧ ∃ tr1 tr2,
      trace w' = trace w ++ tr1 ++ tr2 ++ [closed_executor e]
      ∧ closes how (requests_of w) ch tr1
      ∧ Forall (fun o => ∃ r, r ∈ requests_of w e ∧ o = settled r how) tr2.


Module Scenario5.

(** The executor 0 of a connected client with two sub-executors 1 and
    2, and a sub-executor 3 of 1.  Executor 1 has logged the pending
    command 11 and the pending subscription 14, executor 3 the pending
    command 13, executor 2 the command 12, which is resolved already. *)
Definition command (e : eid) (name : string) : Request :=
  mkRequest RequestCommand Pending [unlog_request e] e (Quote.commandline name [])
            Transform.Empty [] 0 None None.

Definition tree : World :=
  mkWorld (list_to_map [ (11%nat, command 1 "play");
                         (12%nat, set_callbacks_ [] (set_outcome (Result VTrue) (command 2 "stop")));
                         (13%nat, command 3 "next");
                         (14%nat, mkRequest RequestPassive Pending
                                    [cancel_timeout; unlog_request 1; waiting_list_remove]
                                    1 "" Transform.NoTransform []
                                    (Z.lor Event.PLAYER Event.TIMEOUT) (Some 30%Q) (Some 0%nat)) ])
          (list_to_map [ (0%nat, mkExecutor None (Some the_client) [1; 2]%nat [] None None);
                         (1%nat, mkExecutor (Some 0%nat) (Some the_client) [3%nat]
                                            [11; 14]%nat None (Some 7%nat));
                         (2%nat, mkExecutor (Some 0%nat) (Some the_client) [] [12%nat]
                                            None None);
                         (3%nat, mkExecutor (Some 1%nat) (Some the_client) [] [13%nat]
                                            None (Some 8%nat)) ])
          {[ 0%nat := mkTimerHandle 14 30 true false ]} []
          (mkClient 0 [14%nat] ClientState.STATE_ACTIVE (Some "0.23.5") (Some [11; 13]%nat)
                    (Some (mkTransport ["play 
"; "next 
"] false)) true)
          [].

(** The forest below executor 0. *)
Definition below : Forest := FCons 1 (FCons 3 FNil FNil) (FCons 2 FNil FNil).

End Scenario5.


(** ** Callbacks over the executor tree *)

(** The heap has the forest [f]: each executor of [f] lists the roots of
    its children. *)
Fixpoint forest_shape (m : gmap eid Executor) (f : Forest) : Prop :=
  match f with
  | FNil => True
  | FCons e ch sib =>
      (∃ ex, m !! e = Some ex ∧ _children ex = roots ch)
      ∧ forest_shape m ch ∧ forest_shape m sib
  end.

(** The call of the callback an executor has registered, if any. *)
Definition own_disconnect (m : gmap eid Executor) (reason : Z) (message : option string)
    (e : eid) : list Obs :=
  match m !! e with
  | Some ex => match _disconnect_cb_func ex with
               | Some f => [disconnect_cb f reason message]
               | None => []
               end
  | None => []
  end.

Definition own_connect (m : gmap eid Executor) (e : eid) : list Obs :=
  match m !! e with
  | Some ex => match _connect_cb_func ex with
               | Some f => [connect_cb f]
               | None => []
               end
  | None => []
  end.

(** The calls over a forest: children before their parent for
    [_disconnect_cb], the parent before its children for [_connect_cb];
    siblings in the order of [_children]. *)
Fixpoint disconnect_calls (m : gmap eid Executor) (reason : Z) (message : option string)
    (f : Forest) : list Obs :=
  match f with
  | FNil => []
  | FCons e ch sib =>
      disconnect_calls m reason message ch ++ own_disconnect m reason message e
      ++ disconnect_calls m reason message sib
  end.

Fixpoint connect_calls (m : gmap eid Executor) (f : Forest) : list Obs :=
  match f with
  | FNil => []
  | FCons e ch sib => own_connect m e ++ connect_calls m ch ++ connect_calls m sib
  end.

Definition add_trace (tr : list Obs) (w : World) : World :=
  set_trace (fun t => t ++ tr) w.


(** The client after [disconnect_from_server] of release 0.2.12. *)
Definition disconnected_client (c : Client) : Client :=
  mkClient (executor c) (_waiting_list c) ClientState.STATE_DISCONNECTED None None None
           (_active c).


Module Scenario6.

(** A client that is not connected; the command [status] has been
    created from its executor and is not yet awaited. *)
Definition offline : World :=
  mkWorld {[ 1%nat := Examples.command "status" [] Transform.Dict ]}
          {[ 0%nat := Examples.root ]} ∅ []
          (mkClient 0 [] ClientState.STATE_DISCONNECTED None None None false) [].

End Scenario6.


(** ** Events *)

(** The outcome of request [r] (whose record was [req]) after
    [_event(event)] went over the waiting list [l]. *)
Definition event_outcome (event : Z) (l : list rid) (r : rid) (req : Request) : Outcome :=
  if bool_decide (r ∈ l) && negb (Future.is_done (outcome req))
     && truthy (Z.land (_event_mask req) event)
  then Result (VInt (Z.land (_event_mask req) event))
  else outcome req.

Module Scenario7.

(** An idle client with three subscriptions on the waiting list: 5 for
    the player, 6 for the mixer, 7 for the player or the options. *)
Definition waiting (mask : Z) : Request :=
  mkRequest RequestPassive Pending [unlog_request 0; waiting_list_remove] 0 ""
            Transform.NoTransform [] mask None None.

Definition subscribed : World :=
  mkWorld (list_to_map [ (5%nat, waiting Event.PLAYER);
                         (6%nat, waiting Event.MIXER);
                         (7%nat, waiting (Z.lor Event.PLAYER Event.OPTIONS)) ])
          {[ 0%nat := mkExecutor None (Some the_client) [] [5; 6; 7]%nat None None ]} ∅ []
          (mkClient 0 [5; 6; 7]%nat ClientState.STATE_IDLE (Some "0.23.5") (Some [])
                    (Some (mkTransport [] false)) false)
          [].

End Scenario7.


Module Scenario8.

(** The command [play], whose reply must be empty, sent and pending. *)
Definition play : Request := Examples.command "play" [] Transform.Empty.

Definition sent : World :=
  mkWorld {[ 1%nat := play ]} {[ 0%nat := Examples.root ]} ∅ []
          (Examples.active_client [1%nat]) [].

End Scenario8.


(** ** Replies as values *)

(** The values of the field [k] in a reply, in the order of the reply. *)
Definition values_of {A} (k : string) (reply : list (string * A)) : list A :=
  map snd (List.filter (fun fv => String.eqb (fst fv) k) reply).

(** * Properties *)

(** ** Basic facts about futures *)

Lemma lookup_ok (w : World) (r : rid) (req : Request) :
  requests w !! r = Some req → Future.lookup r w = Ok req w.
Proof. intros H. unfold Future.lookup. by rewrite H. Qed.

Lemma schedule_loop_ok (r : rid) (cbs : list Callback) (w : World) :
  for_each cbs (fun cb => Future.call_soon (HDone cb r)) w
  = Ok tt (set_ready (fun q => q ++ map (fun cb => HDone cb r) cbs) w).
Proof.
  revert w. induction cbs as [|cb cbs IH]; intros w; simpl.
  - unfold ret, set_ready. destruct w; simpl. by rewrite app_nil_r.
  - unfold bind, Future.call_soon, modify. rewrite IH. f_equal.
    unfold set_ready; simpl. by rewrite <- app_assoc.
Qed.

Lemma update_ok (w : World) (r : rid) (req : Request) (f : Request → Request) :
  requests w !! r = Some req →
  Future.update r f w
  = Ok tt (mkWorld (<[r := f req]> (requests w)) (executors w) (timers w) (ready w)
                   (client w) (trace w)).
Proof. intros H. unfold Future.update, modify, set_requests. by rewrite H. Qed.

Lemma settle_pending (w : World) (r : rid) (req : Request) (o : Outcome) :
  requests w !! r = Some req → outcome req = Pending →
  Future.settle r o w = Ok tt (settled_world r req o w).
Proof.
  intros Hr Hp. unfold Future.settle, bind. rewrite (lookup_ok _ _ _ Hr), Hp.
  cbn [Future.is_done]. rewrite (update_ok _ _ _ _ Hr). unfold emit, modify, Future.schedule_callbacks, bind.
  rewrite (lookup_ok _ r (set_outcome o req)) by (simpl; apply lookup_insert_eq).
  rewrite (update_ok _ r (set_outcome o req)) by (simpl; apply lookup_insert_eq).
  rewrite schedule_loop_ok. unfold settled_world, set_ready, set_trace. simpl.
  by rewrite insert_insert_eq.
Qed.

Lemma set_result_done (w : World) (r : rid) (req : Request) (v : Value) :
  requests w !! r = Some req → Future.is_done (outcome req) = true →
  Request_.set_result r v w = Ok tt w.
Proof.
  intros Hr Hd. unfold Request_.set_result, Future.done, bind, ret.
  by rewrite (lookup_ok _ _ _ Hr), Hd.
Qed.

Lemma set_result_pending (w : World) (r : rid) (req : Request) (v : Value) :
  requests w !! r = Some req → outcome req = Pending →
  Request_.set_result r v w = Ok tt (settled_world r req (Result v) w).
Proof.
  intros Hr Hp. unfold Request_.set_result, Future.done, bind, ret.
  rewrite (lookup_ok _ _ _ Hr), Hp. simpl. by apply settle_pending.
Qed.

(** ** C9: resolving a request twice *)

(** C9.  [Request.set_result] on a request that is already done (resolved,
    failed or cancelled) returns normally and changes nothing; and once a
    pending request has been resolved with [v], any further calls of
    [set_result], with whatever values, leave the world -- and so the
    outcome [v] -- as it is. *)
Theorem set_result_idempotent (w : World) (r : rid) (req : Request) :
  requests w !! r = Some req →
  (Future.is_done (outcome req) = true →
   ∀ v, Request_.set_result r v w = Ok tt w)
  ∧ (outcome req = Pending →
     ∀ v later, ∃ w1 req1,
       Request_.set_result r v w = Ok tt w1
       ∧ requests w1 !! r = Some req1 ∧ outcome req1 = Result v
       ∧ for_each later (Request_.set_result r) w1 = Ok tt w1).
Proof.
  intros Hr. split.
  - intros Hd v. by apply (set_result_done w r req).
  - intros Hp v later.
    exists (settled_world r req (Result v) w), (set_callbacks_ [] (set_outcome (Result v) req)).
    split; [by apply set_result_pending|].
    assert (Hl : requests (settled_world r req (Result v) w) !! r
                 = Some (set_callbacks_ [] (set_outcome (Result v) req))).
    { unfold settled_world; simpl. by rewrite lookup_insert_eq. }
    split; [exact Hl|]. split; [reflexivity|].
    induction later as [|v' later IH]; simpl; [reflexivity|].
    unfold bind. by rewrite (set_result_done _ _ _ v' Hl).
Qed.

(** ** C5: quoting of command arguments *)

Lemma append_cons (c : ascii) (s t : string) :
  (String c s ++ t)%string = String c (s ++ t)%string.
Proof. reflexivity. Qed.

Lemma append_nil_l (t : string) : (EmptyString ++ t)%string = t.
Proof. reflexivity. Qed.

Lemma unescape_backslash (d : ascii) (s : string) :
  QuoteSpec.unescape (String Quote.backslash (String d s))
  = match QuoteSpec.unescape s with
    | Some (a, rest) => Some (String d a, rest)
    | None => None
    end.
Proof. reflexivity. Qed.

Lemma unescape_plain (c : ascii) (s : string) :
  Ascii.eqb c Quote.dquote = false → Ascii.eqb c Quote.backslash = false →
  QuoteSpec.unescape (String c s)
  = match QuoteSpec.unescape s with
    | Some (a, rest) => Some (String c a, rest)
    | None => None
    end.
Proof. intros Hq Hb. cbn [QuoteSpec.unescape]. by rewrite Hq, Hb. Qed.

Lemma unescape_escape (s rest : string) :
  QuoteSpec.unescape (QuoteSpec.escape s ++ String Quote.dquote rest)%string = Some (s, rest).
Proof.
  induction s as [|c s IH]; [reflexivity|].
  cbn [QuoteSpec.escape].
  destruct (Ascii.eqb c Quote.dquote) eqn:Hq; cbn [orb].
  - by rewrite !append_cons, unescape_backslash, IH.
  - destruct (Ascii.eqb c Quote.backslash) eqn:Hb; rewrite !append_cons.
    + by rewrite unescape_backslash, IH.
    + by rewrite (unescape_plain _ _ Hq Hb), IH.
Qed.

(** The escaping of the specification (both characters escaped) is
    reversible for every argument. *)
Lemma spec_quote_roundtrip (s : string) :
  QuoteSpec.unquote_arg (QuoteSpec.quote_arg s) = Some s.
Proof.
  unfold QuoteSpec.unquote_arg, QuoteSpec.quote_arg. simpl.
  by rewrite unescape_escape.
Qed.

Lemma unescape_code_quote (s rest : string) :
  PyStr.contains Quote.backslash s = false →
  QuoteSpec.unescape
    (PyStr.replace Quote.dquote (String Quote.backslash (String Quote.dquote EmptyString)) s
     ++ String Quote.dquote rest)%string = Some (s, rest).
Proof.
  induction s as [|c s IH]; [reflexivity|].
  cbn [PyStr.contains PyStr.replace]. intros Hc.
  apply orb_false_elim in Hc as [Hc1 Hc2]. rewrite Ascii.eqb_sym in Hc1.
  destruct (Ascii.eqb c Quote.dquote) eqn:Hq;
    repeat (rewrite ?append_cons, ?append_nil_l).
  - apply Ascii.eqb_eq in Hq. subst c. by rewrite unescape_backslash, (IH Hc2).
  - by rewrite (unescape_plain _ _ Hq Hc1), (IH Hc2).
Qed.

(** What [RequestCommand.__init__] does get right: an argument without
    a backslash is read back unchanged. *)
Lemma code_quote_roundtrip_no_backslash (s : string) :
  PyStr.contains Quote.backslash s = false →
  QuoteSpec.unquote_arg (Quote.quote_arg s) = Some s.
Proof.
  intros H. unfold QuoteSpec.unquote_arg, Quote.quote_arg. simpl.
  by rewrite (unescape_code_quote _ _ H).
Qed.


(** ** C4: a command list whose member fails *)

Lemma send_payload (c : rid) (success line : string) (lines : list (string * string))
    (kv : string * string) (w : World) :
  payload_line success line = Some kv →
  Parser.CommandLine_send c success lines line w = Ok (Some (lines ++ [kv])) w.
Proof.
  unfold payload_line, Parser.CommandLine_send. intros H.
  destruct (Parser.match_error line) as [[[[? ?] ?] ?]|]; [discriminate|].
  destruct (String.eqb line success); [discriminate|].
  destruct (PyStr.partition Parser.DELIM line) as [[key found] value].
  destruct found; [|discriminate]. by injection H as <-.
Qed.

Lemma send_success (c : rid) (req : Request) (success : string)
    (lines : list (string * string)) (v : Value) (w : World) :
  requests w !! c = Some req → outcome req = Pending →
  Parser.match_error success = None →
  Transform.apply (_transform req) lines = inr v →
  Parser.CommandLine_send c success lines success w = Ok None (member_world c v w).
Proof.
  intros Hr Hp Hm Ht. unfold Parser.CommandLine_send. rewrite Hm, String.eqb_refl.
  unfold bind. rewrite (lookup_ok _ _ _ Hr). unfold emit, modify. rewrite Ht.
  rewrite (set_result_pending _ c req v) by done.
  unfold member_world, ret. by rewrite Hr.
Qed.

Lemma send_error (c : rid) (req : Request) (success line : string)
    (lines : list (string * string)) (error num : N) (command message : string) (w : World) :
  requests w !! c = Some req → outcome req = Pending →
  Parser.match_error line = Some (error, num, command, message) →
  Parser.CommandLine_send c success lines line w
  = Ok None (settled_world c req
               (Exception (ReplyError error num command message (_commandline req))) w).
Proof.
  intros Hr Hp Hm. unfold Parser.CommandLine_send. rewrite Hm.
  unfold bind. rewrite (lookup_ok _ _ _ Hr). unfold Future.set_exception.
  by rewrite (settle_pending _ _ _ _ Hr Hp).
Qed.

Lemma feed_payload (b c : rid) (rest : list rid) (results : list Value)
    (payload : list string) (fields : list (string * string)) (more : list string) :
  payload_lines Parser.LIST_SUCCESS payload = Some fields →
  ∀ lines w,
    Parser.feed (Parser.CommandList b c rest lines results) (payload ++ more) w
    = Parser.feed (Parser.CommandList b c rest (lines ++ fields) results) more w.
Proof.
  revert fields. induction payload as [|line payload IH]; intros fields H lines w.
  - injection H as <-. by rewrite app_nil_r.
  - cbn [payload_lines] in H.
    destruct (payload_line Parser.LIST_SUCCESS line) as [kv|] eqn:Hl; [|discriminate].
    destruct (payload_lines Parser.LIST_SUCCESS payload) as [kvs|]; [|discriminate].
    injection H as <-. cbn [app Parser.feed Parser.send]. unfold bind at 1 2.
    rewrite (send_payload _ _ _ _ _ _ Hl). unfold ret at 1. rewrite (IH kvs eq_refl).
    by rewrite <- app_assoc.
Qed.

Lemma member_world_lookup (c : rid) (req : Request) (v : Value) (w : World) :
  requests w !! c = Some req →
  requests (member_world c v w) !! c = Some (set_callbacks_ [] (set_outcome (Result v) req)).
Proof. intros H. unfold member_world. rewrite H. simpl. apply lookup_insert_eq. Qed.

Lemma member_world_other (c r : rid) (v : Value) (w : World) :
  r ≠ c → requests (member_world c v w) !! r = requests w !! r.
Proof.
  intros H. unfold member_world. destruct (requests w !! c); simpl; [|done].
  by rewrite lookup_insert_ne.
Qed.

Lemma member_world_trace (c : rid) (req : Request) (v : Value) (w : World) :
  requests w !! c = Some req →
  trace (member_world c v w) = trace w ++ [decoded c; settled c (Result v)].
Proof. intros H. unfold member_world. rewrite H. simpl. by rewrite <- app_assoc. Qed.

Lemma feed_member (b : rid) (rest : list rid) (results : list Value) (m : Member)
    (more : list string) (w : World) :
  member_ok w m →
  Parser.feed (Parser.CommandList b (m_request m) rest [] results)
              (m_payload m ++ [Parser.LIST_SUCCESS] ++ more) w
  = Parser.feed (Parser.CommandList_next b rest (results ++ [m_value m])) more
                (member_world (m_request m) (m_value m) w).
Proof.
  intros (req & fields & Hr & Hp & Hf & Ht).
  rewrite (feed_payload _ _ _ _ _ _ _ Hf). cbn [app Parser.feed Parser.send].
  unfold bind at 1 2.
  rewrite (send_success _ req _ _ (m_value m)) by done.
  pose proof (member_world_lookup _ _ (m_value m) _ Hr) as Hl.
  unfold Future.exception, Future.result, bind. rewrite (lookup_ok _ _ _ Hl). simpl.
  unfold ret. by rewrite (lookup_ok _ _ _ Hl).
Qed.

Lemma members_world_other (members : list Member) (r : rid) (w : World) :
  r ∉ map m_request members →
  requests (members_world members w) !! r = requests w !! r.
Proof.
  revert w. induction members as [|m ms IH]; intros w Hn; [done|].
  cbn [map] in Hn. apply not_elem_of_cons in Hn as [Hne Hn].
  unfold members_world in *. cbn [fold_left]. rewrite (IH _ Hn).
  by apply member_world_other.
Qed.

Lemma member_ok_other (c : rid) (v : Value) (w : World) (m : Member) :
  m_request m ≠ c → member_ok w m → member_ok (member_world c v w) m.
Proof.
  intros Hne (req & fields & Hr & H). exists req, fields.
  by rewrite (member_world_other _ _ _ _ Hne).
Qed.

Lemma feed_members (b : rid) (rest : list rid) (more : list string) (members : list Member) :
  ∀ results w,
    NoDup (map m_request members) → Forall (member_ok w) members →
    Parser.feed (Parser.CommandList_next b (map m_request members ++ rest) results)
                (members_reply members ++ more) w
    = Parser.feed (Parser.CommandList_next b rest (results ++ map m_value members)) more
                  (members_world members w).
Proof.
  induction members as [|m ms IH]; intros results w Hnd Hok.
  - by rewrite app_nil_r.
  - apply NoDup_cons in Hnd as [Hnin Hnd]. apply Forall_cons in Hok as [Hm Hok].
    cbn [map app Parser.CommandList_next members_reply flat_map].
    rewrite <- !app_assoc. rewrite (feed_member _ _ _ _ _ _ Hm).
    fold (members_reply ms). rewrite IH; [|done|].
    + cbn [map]. by rewrite <- app_assoc.
    + apply Forall_forall. intros x Hx. apply member_ok_other.
      * intros Heq. apply Hnin. rewrite <- Heq.
        by apply list_elem_of_In, in_map, list_elem_of_In.
      * by apply (proj1 (Forall_forall _ _) Hok).
Qed.

Lemma members_world_trace (members : list Member) :
  ∀ w, NoDup (map m_request members) → Forall (member_ok w) members →
       trace (members_world members w) = trace w ++ members_trace members.
Proof.
  induction members as [|m ms IH]; intros w Hnd Hok.
  - by rewrite app_nil_r.
  - apply NoDup_cons in Hnd as [Hnin Hnd]. apply Forall_cons in Hok as [Hm Hok].
    destruct Hm as (req & fields & Hr & _).
    unfold members_world in *. cbn [fold_left members_trace flat_map].
    rewrite IH; [|done|].
    + rewrite (member_world_trace _ _ _ _ Hr). by rewrite <- app_assoc.
    + apply Forall_forall. intros x Hx. apply member_ok_other.
      * intros Heq. apply Hnin. rewrite <- Heq.
        by apply list_elem_of_In, in_map, list_elem_of_In.
      * by apply (proj1 (Forall_forall _ _) Hok).
Qed.

Lemma members_world_outcome (members : list Member) :
  ∀ w, NoDup (map m_request members) → Forall (member_ok w) members →
       Forall (fun m => outcome_of (members_world members w) (m_request m)
                        = Some (Result (m_value m))) members.
Proof.
  induction members as [|m ms IH]; intros w Hnd Hok; [constructor|].
  apply NoDup_cons in Hnd as [Hnin Hnd]. apply Forall_cons in Hok as [Hm Hok].
  destruct Hm as (req & fields & Hr & _).
  unfold members_world in *. cbn [fold_left]. constructor.
  - unfold outcome_of. fold (members_world ms (member_world (m_request m) (m_value m) w)).
    rewrite (members_world_other _ _ _ Hnin).
    by rewrite (member_world_lookup _ _ _ _ Hr).
  - apply IH; [done|]. apply Forall_forall. intros x Hx. apply member_ok_other.
    + intros Heq. apply Hnin. rewrite <- Heq.
      by apply list_elem_of_In, in_map, list_elem_of_In.
    + by apply (proj1 (Forall_forall _ _) Hok).
Qed.


Lemma set_result_idempotent_witness :
  (∀ v, Request_.set_result 1 v Examples.w_resolved = Ok tt Examples.w_resolved)
  ∧ (∀ v later, ∃ w1 req1,
       Request_.set_result 1 v Examples.w_pending = Ok tt w1
       ∧ requests w1 !! 1%nat = Some req1 ∧ outcome req1 = Result v
       ∧ for_each later (Request_.set_result 1) w1 = Ok tt w1).
Proof.
  split.
  - apply (proj1 (set_result_idempotent Examples.w_resolved 1 _ eq_refl)). reflexivity.
  - apply (proj2 (set_result_idempotent Examples.w_pending 1 _ eq_refl)). reflexivity.
Defined.


(** ** C8: connection specifications *)

(** The scenario of the specification: [bob@host:7700] with the default
    port 6600. *)
Lemma connect_scenario (MPD_HOST password : option string) :
  Netloc.connect_to_server MPD_HOST (Some "bob@host:7700") 6600 password
  = inr (Netloc.mkTarget (Some "host") 7700 (Some "bob")).
Proof. reflexivity. Qed.

(** A non-zero port and a non-empty password in the specification are
    the ones used, whatever the caller passes. *)
Lemma connect_embedded_first (MPD_HOST : option string) (spec : string)
    (port : N) (password : option string) (t : Netloc.Target) :
  spec ≠ EmptyString →
  Netloc.connect_to_server MPD_HOST (Some spec) port password = inr t →
  (∀ p, Netloc.port (Netloc.netloc spec) = inr (Some p) → p ≠ 0%N → Netloc._port t = p)
  ∧ (∀ u, Netloc.username (Netloc.netloc spec) = Some u → u ≠ EmptyString →
          Netloc._password t = Some u).
Proof.
  intros Hs. unfold Netloc.connect_to_server.
  assert (Hor : Netloc.or_str (Some spec) None = Some spec)
    by (destruct spec; [done | reflexivity]).
  rewrite Hor. destruct (Netloc.brackets_ok _); [|discriminate]. cbn [negb].
  destruct (Netloc.port _) as [e|p0] eqn:Hp; [discriminate|].
  intros [= <-]. split.
  - intros p [= ->] Hnz. cbn. destruct (N.eqb_spec p 0); [contradiction | reflexivity].
  - intros u Hu Hne. cbn. rewrite Hu. destruct u; [contradiction | reflexivity].
Qed.

(** Without a specification the host is the one of [MPD_HOST], or
    [localhost] when the variable is not set. *)
Lemma connect_default_host (MPD_HOST : option string) (port : N)
    (password : option string) (t : Netloc.Target) :
  Netloc.connect_to_server MPD_HOST None port password = inr t →
  Netloc._host t
  = Netloc.hostname (Netloc.netloc (match MPD_HOST with Some h => h | None => "localhost" end)).
Proof.
  unfold Netloc.connect_to_server. cbn [Netloc.or_str].
  destruct (Netloc.brackets_ok _); [|discriminate]. cbn [negb].
  destruct (Netloc.port _); [discriminate|]. by intros [= <-].
Qed.

(** C8.  A port written in the specification is not always the one
    used: for [host:0] with the caller's port 6600, [netloc.port] is 0,
    [netloc.port or port] is 6600, and the client is set to connect to
    port 6600. *)
Theorem connect_port_zero_ignored (MPD_HOST password : option string) :
  Netloc.port (Netloc.netloc "host:0") = inr (Some 0%N)
  ∧ Netloc.connect_to_server MPD_HOST (Some "host:0") 6600 password
    = inr (Netloc.mkTarget (Some "host") 6600 password).
Proof. split; reflexivity. Qed.

(** ** Views and invariants through the monad *)

Section Preserves.

Context {X : Type} (view : World → X).

Lemma preserves_ret {A} (a : A) : preserves view (ret a).
Proof. by intros w. Qed.

Lemma preserves_raise {A} (e : Exn) : preserves view (@raise A e).
Proof. by intros w. Qed.

Lemma preserves_get : preserves view get.
Proof. by intros w. Qed.

Lemma preserves_bind {A B} (c : M A) (k : A → M B) :
  preserves view c → (∀ a, preserves view (k a)) → preserves view (bind c k).
Proof.
  intros Hc Hk w. unfold bind. specialize (Hc w).
  destruct (c w) as [a w'|e w']; simpl in *; [|done].
  by rewrite (Hk a w').
Qed.

Lemma preserves_modify (f : World → World) :
  (∀ w, view (f w) = view w) → preserves view (modify f).
Proof. intros H w. apply H. Qed.

Lemma preserves_for_each {A} (l : list A) (body : A → M unit) :
  (∀ x, preserves view (body x)) → preserves view (for_each l body).
Proof.
  intros H. induction l as [|x l IH]; simpl.
  - apply preserves_ret.
  - apply preserves_bind; [apply H | by intros _].
Qed.

Lemma preserves_try_except {A} (c h : M A) (catches : Exn → bool) :
  preserves view c → preserves view h → preserves view (try_except c catches h).
Proof.
  intros Hc Hh w. unfold try_except. specialize (Hc w).
  destruct (c w) as [a w'|e w']; simpl in *; [done|].
  destruct (catches e); [|done]. by rewrite (Hh w').
Qed.

End Preserves.

Section Keeps.

Context (I : World → Prop).

Lemma keeps_bind {A B} (c : M A) (k : A → M B) :
  keeps I c → (∀ a, keeps I (k a)) → keeps I (bind c k).
Proof.
  intros Hc Hk w Hw. unfold bind. specialize (Hc w Hw).
  destruct (c w) as [a w'|e w']; simpl in *; [|done].
  by apply Hk.
Qed.

Lemma keeps_ret {A} (a : A) : keeps I (ret a).
Proof. by intros w. Qed.

Lemma keeps_raise {A} (e : Exn) : keeps I (@raise A e).
Proof. by intros w. Qed.

Lemma keeps_preserves {X A} (view : World → X) (c : M A) :
  (∀ w w', view w' = view w → I w → I w') → preserves view c → keeps I c.
Proof. intros HI Hc w Hw. apply (HI w); [apply Hc | done]. Qed.

End Keeps.

(** One step of a proof that a command preserves a view: the structure
    of the command decides. *)
Ltac pres_step :=
  match goal with
  | |- preserves _ (bind _ _) => apply preserves_bind; [|intros ?]
  | |- preserves _ (ret _) => apply preserves_ret
  | |- preserves _ (raise _) => apply preserves_raise
  | |- preserves _ get => apply preserves_get
  | |- preserves _ (for_each _ _) => apply preserves_for_each; intros ?
  | |- preserves _ (try_except _ _ _) => apply preserves_try_except
  | |- preserves _ (modify _) => apply preserves_modify; intros ?; reflexivity
  | |- preserves _ (if ?b then _ else _) => destruct b
  | |- preserves _ (match ?x with _ => _ end) => destruct x
  | |- preserves _ (let _ := _ in _) => cbv zeta
  end.

Create HintDb pres discriminated.

Ltac pres := repeat first [ pres_step | solve [ eauto with pres ] ].

(** ** What does not touch the wire *)

Lemma core_emit (o : Obs) :
  is_wire_obs o = false → preserves core_view (emit o).
Proof.
  intros H w. unfold core_view. simpl. rewrite List.filter_app. simpl.
  rewrite H. by rewrite app_nil_r.
Qed.

Lemma core_lookup (r : rid) : preserves core_view (Future.lookup r).
Proof. intros w. unfold Future.lookup. by destruct (requests w !! r). Qed.

Lemma core_update (r : rid) (f : Request → Request) :
  preserves core_view (Future.update r f).
Proof. apply preserves_modify. by intros w. Qed.

Lemma core_call_soon (h : Handle) : preserves core_view (Future.call_soon h).
Proof. apply preserves_modify. by intros w. Qed.

#[global] Hint Resolve core_lookup core_update core_call_soon : pres.
#[global] Hint Extern 1 (preserves core_view (emit _)) =>
  (apply core_emit; reflexivity) : pres.

Lemma core_schedule_callbacks (r : rid) :
  preserves core_view (Future.schedule_callbacks r).
Proof. unfold Future.schedule_callbacks. pres. Qed.

#[global] Hint Resolve core_schedule_callbacks : pres.

Lemma core_settle (r : rid) (o : Outcome) : preserves core_view (Future.settle r o).
Proof. unfold Future.settle. pres. Qed.

#[global] Hint Resolve core_settle : pres.

Lemma core_done (r : rid) : preserves core_view (Future.done r).
Proof. unfold Future.done. pres. Qed.

Lemma core_cancelled (r : rid) : preserves core_view (Future.cancelled r).
Proof. unfold Future.cancelled. pres. Qed.

Lemma core_cancel (r : rid) : preserves core_view (Future.cancel r).
Proof. unfold Future.cancel. pres. Qed.

Lemma core_add_done_callback (r : rid) (cb : Callback) :
  preserves core_view (Future.add_done_callback r cb).
Proof. unfold Future.add_done_callback. pres. Qed.

Lemma core_result (r : rid) : preserves core_view (Future.result r).
Proof. unfold Future.result. pres. Qed.

Lemma core_exception (r : rid) : preserves core_view (Future.exception r).
Proof. unfold Future.exception. pres. Qed.

#[global] Hint Resolve core_done core_cancelled core_cancel
  core_add_done_callback core_result core_exception : pres.

Lemma core_set_result (r : rid) (v : Value) : preserves core_view (Request_.set_result r v).
Proof. unfold Request_.set_result, Future.set_result. pres. Qed.

Lemma core_set_exception (r : rid) (e : Exn) :
  preserves core_view (Future.set_exception r e).
Proof. unfold Future.set_exception. pres. Qed.

Lemma core_await_future (r : rid) : preserves core_view (Loop.await_ r).
Proof. unfold Loop.await_. pres. Qed.

#[global] Hint Resolve core_set_result core_set_exception core_await_future : pres.

Lemma core_new_request (req : Request) : preserves core_view (new_request req).
Proof. unfold new_request. pres. Qed.

#[global] Hint Resolve core_new_request : pres.

Lemma core_executor_lookup (e : eid) : preserves core_view (Executor_.lookup e).
Proof. intros w. unfold Executor_.lookup. by destruct (executors w !! e). Qed.

Lemma core_executor_update (e : eid) (f : Executor → Executor) :
  preserves core_view (Executor_.update e f).
Proof. apply preserves_modify. by intros w. Qed.

#[global] Hint Resolve core_executor_lookup core_executor_update : pres.

Lemma core_unlog_request (e : eid) (r : rid) :
  preserves core_view (Executor_._unlog_request e r).
Proof. unfold Executor_._unlog_request. pres. Qed.

Lemma core_state : preserves core_view Client_.state.
Proof. unfold Client_.state. pres. Qed.

Lemma core_put_state (s : Z) : preserves core_view (Client_.put_state s).
Proof. apply preserves_modify. by intros w. Qed.

Lemma core_waiting_list_remove (r : rid) :
  preserves core_view (Client_.waiting_list_remove_ r).
Proof. unfold Client_.waiting_list_remove_. pres. Qed.

#[global] Hint Resolve core_unlog_request core_state core_put_state
  core_waiting_list_remove : pres.

Lemma core_event_loop (mark : M unit) (snapshot : list rid) (event : Z) (one : bool) :
  preserves core_view mark →
  preserves core_view (Client_.event_loop mark snapshot event one).
Proof.
  intros Hm. induction snapshot as [|r rest IH]; cbn [Client_.event_loop]; pres.
Qed.

Lemma core_subsystems_event (l : list Value) (event : Z) :
  preserves core_view (Client_.subsystems_event l event).
Proof.
  revert event. induction l as [|v l IH]; intros event; cbn [Client_.subsystems_event]; pres.
Qed.

#[global] Hint Resolve core_event_loop core_subsystems_event : pres.

Lemma core_wait (cur : M Z) (r : rid) :
  preserves core_view cur → preserves core_view (Client_._wait cur r).
Proof. intros H. unfold Client_._wait. pres. Qed.

Lemma core_parser_send (st : Parser.State) (line : string) :
  preserves core_view (Parser.send st line).
Proof.
  destruct st; cbn [Parser.send]; unfold Parser.CommandLine_send; pres.
Qed.

#[global] Hint Resolve core_wait core_parser_send : pres.

Lemma core_parser_feed (lines : list string) :
  ∀ st, preserves core_view (Parser.feed st lines).
Proof.
  induction lines as [|line lines IH]; intros st; cbn [Parser.feed]; pres.
Qed.

#[global] Hint Resolve core_parser_feed : pres.

Lemma core_parser_process_reply (r : rid) (lines : list string) :
  preserves core_view (Parser._process_reply r lines).
Proof. unfold Parser._process_reply, Parser._parser. pres. Qed.

#[global] Hint Resolve core_parser_process_reply : pres.

(** ** Invariants of the wire *)

Lemma keeps_apply {A} (I : World → Prop) (c : M A) (w : World) :
  keeps I c → I w → I (world_of (c w)).
Proof. intros H. apply H. Qed.

(** One step of a proof that a command keeps an invariant. *)
Ltac keeps_step :=
  match goal with
  | |- keeps _ (bind _ _) => apply keeps_bind; [|intros ?]
  | |- keeps _ (ret _) => apply keeps_ret
  | |- keeps _ (raise _) => apply keeps_raise
  | |- keeps _ (if ?b then _ else _) => destruct b
  | |- keeps _ (match ?x with _ => _ end) => destruct x
  end.

Create HintDb keeps discriminated.

Lemma core_current_events0212 : preserves core_view V0212._current_events.
Proof. unfold V0212._current_events. pres. Qed.

Lemma core_current_events033 : preserves core_view V033._current_events.
Proof. unfold V033._current_events. pres. Qed.

#[global] Hint Resolve core_current_events0212 core_current_events033 : pres.

Lemma core_wait0212 (r : rid) : preserves core_view (V0212._wait r).
Proof. unfold V0212._wait. pres. Qed.

Lemma core_wait033 (r : rid) : preserves core_view (V033._wait r).
Proof. unfold V033._wait. pres. Qed.

Lemma core_event0212 (event : Z) (one : bool) : preserves core_view (V0212._event event one).
Proof. unfold V0212._event. pres. Qed.

Lemma core_event033 (event : Z) (one : bool) : preserves core_view (V033._event event one).
Proof. unfold V033._event. pres. Qed.

Lemma core_unidle (r : rid) : preserves core_view (V0212._unidle r).
Proof. unfold V0212._unidle. pres. Qed.

#[global] Hint Resolve core_wait0212 core_wait033 core_event0212 core_event033
  core_unidle : pres.

Lemma core_idle_task_resume0212 (r : rid) : preserves core_view (V0212._idle_task_resume r).
Proof. unfold V0212._idle_task_resume. pres. Qed.

Lemma core_idle_task_resume033 (r : rid) : preserves core_view (V033._idle_task_resume r).
Proof. unfold V033._idle_task_resume. pres. Qed.

#[global] Hint Resolve core_idle_task_resume0212 core_idle_task_resume033 : pres.

Section WireInvariant.

(** An invariant that looks at the wire only, and that the three
    operations on the wire keep: writing to the transport, writing the
    command line of a request and queueing it, taking the head of the
    queue to hand it a reply. *)
Variable I : World → Prop.
Hypothesis I_core : ∀ w w', core_view w' = core_view w → I w → I w'.
Hypothesis I_write : ∀ data, keeps I (Client_.write data).
Hypothesis I_send :
  ∀ r, keeps I (bind (emit (wrote r)) (fun _ => Client_.queue_append r)).
Hypothesis I_pop :
  ∀ (k : rid → M unit), (∀ r, keeps I (k r)) →
    keeps I (bind Client_.queue_pop (fun r => bind (emit (replied r)) (fun _ => k r))).
(** ... and the operations on timers. *)
Hypothesis I_call_later : ∀ d r, keeps I (Loop.call_later d r).
Hypothesis I_cancel : ∀ h, keeps I (Loop.cancel h).
Hypothesis I_timer_due : ∀ h, keeps I (Loop.timer_due h).
Hypothesis I_run_timer : ∀ h, keeps I (Loop.run_timer h).

Lemma keeps_core {A} (c : M A) : preserves core_view c → keeps I c.
Proof. apply keeps_preserves. intros w w'. apply I_core. Qed.

Ltac keeps_all :=
  repeat first
    [ solve [ eauto with keeps ]
    | solve [ apply keeps_core; pres ]
    | apply I_write
    | apply I_send
    | apply I_call_later
    | apply I_cancel
    | apply I_timer_due
    | apply I_run_timer
    | match goal with
      | |- keeps _ (bind Client_.queue_pop _) => apply I_pop; intros ?
      end
    | keeps_step ].

Lemma keeps_cancel_timeout (r : rid) : keeps I (_cancel_timeout r).
Proof. unfold _cancel_timeout. keeps_all. Qed.

Hint Resolve keeps_cancel_timeout : keeps.

Lemma keeps_send_connected (r : rid) : keeps I (Client_.send_connected r).
Proof. unfold Client_.send_connected. keeps_all. Qed.

Hint Resolve keeps_send_connected : keeps.

Lemma keeps_send0212 (r : rid) : keeps I (V0212._send r).
Proof. unfold V0212._send. keeps_all. Qed.

Lemma keeps_send033 (r : rid) : keeps I (V033._send r).
Proof. unfold V033._send. keeps_all. Qed.

Hint Resolve keeps_send0212 keeps_send033 : keeps.

Lemma keeps_log_request (_wait _send : rid → M unit) (e : eid) (r : rid) :
  (∀ r, preserves core_view (_wait r)) → (∀ r, keeps I (_send r)) →
  keeps I (Client_._log_request _wait _send e r).
Proof. intros Hw Hs. unfold Client_._log_request. keeps_all. Qed.

Lemma keeps_await (_log_request : eid → rid → M unit) (r : rid) :
  (∀ e r, keeps I (_log_request e r)) → keeps I (await _log_request r).
Proof.
  intros Hl. unfold await, RequestPassive_await, Request_await. keeps_all.
Qed.

Lemma keeps_await0212 (r : rid) : keeps I (V0212.await_ r).
Proof.
  apply keeps_await. intros e r'. apply keeps_log_request; [apply core_wait0212|].
  apply keeps_send0212.
Qed.

Lemma keeps_await033 (r : rid) : keeps I (V033.await_ r).
Proof.
  apply keeps_await. intros e r'. apply keeps_log_request; [apply core_wait033|].
  apply keeps_send033.
Qed.

Hint Resolve keeps_await0212 keeps_await033 : keeps.

Lemma keeps_process_reply (lines : list string) : keeps I (V0212._process_reply lines).
Proof. unfold V0212._process_reply. keeps_all. Qed.

Lemma keeps_idle_task0212 : keeps I V0212._idle_task.
Proof. unfold V0212._idle_task, new_RequestIdle. keeps_all. Qed.

Lemma keeps_idle_task033 : keeps I V033._idle_task.
Proof. unfold V033._idle_task, new_RequestIdle. keeps_all. Qed.

Lemma keeps_run_handle0212 (h : Handle) : keeps I (V0212.run_handle h).
Proof.
  destruct h as [cb r|h|lines|]; cbn [V0212.run_handle].
  - destruct cb; keeps_all.
  - keeps_all.
  - apply keeps_process_reply.
  - apply keeps_idle_task0212.
Qed.

Lemma keeps_run_handle033 (h : Handle) : keeps I (V033.run_handle h).
Proof.
  destruct h as [cb r|h|lines|]; cbn [V033.run_handle].
  - destruct cb; keeps_all.
  - keeps_all.
  - keeps_all.
  - apply keeps_idle_task033.
Qed.

Lemma inv_run_ready (run_handle : Handle → M unit) (w : World) :
  (∀ h, keeps I (run_handle h)) → I w → I (run_ready run_handle w).
Proof.
  intros Hr Hw. unfold run_ready. destruct (ready w) as [|h q]; [done|].
  apply Hr. by apply (I_core w).
Qed.

Lemma inv_act0212 (a : Action) (w : World) : I w → I (act0212 a w).
Proof.
  intros Hw. destruct a; cbn [act0212].
  - by apply keeps_await0212.
  - by apply keeps_process_reply.
  - apply inv_run_ready; [apply keeps_run_handle0212 | done].
  - by apply I_timer_due.
Qed.

Lemma inv_run0212 (actions : list Action) : ∀ w, I w → I (run0212 actions w).
Proof.
  induction actions as [|a actions IH]; intros w Hw; [done|].
  apply IH. by apply inv_act0212.
Qed.

Section DataReceived.

Variable read_data : rid → string → M (option string).
Hypothesis read_data_keeps : ∀ r data, keeps I (read_data r data).

Lemma keeps_data_received (fuel : nat) :
  ∀ data, keeps I (V033.data_received read_data fuel data).
Proof.
  induction fuel as [|fuel IH]; intros data; cbn [V033.data_received]; [keeps_all|].
  keeps_step.
  { keeps_all. }
  destruct (_active_queue (client a)) as [[|r rest]|]; [keeps_all| |keeps_all].
  apply keeps_bind; [apply read_data_keeps|]. intros [data'|]; [|keeps_all].
  apply keeps_bind; [keeps_all|]. intros req.
  apply keeps_bind; [keeps_all|]. intros _.
  apply I_pop. intros popped.
  keeps_step; [keeps_all|].
  destruct (_active_queue (client a0)) as [[|r' rest']|]; [keeps_all|apply IH|keeps_all].
Qed.

Lemma inv_act033 (a : Action033) (w : World) : I w → I (act033 read_data a w).
Proof.
  intros Hw. destruct a; cbn [act033].
  - by apply keeps_await033.
  - by apply keeps_data_received.
  - apply inv_run_ready; [apply keeps_run_handle033 | done].
  - by apply I_timer_due.
Qed.

Lemma inv_run033 (actions : list Action033) : ∀ w, I w → I (run033 read_data actions w).
Proof.
  induction actions as [|a actions IH]; intros w Hw; [done|].
  apply IH. by apply inv_act033.
Qed.

End DataReceived.

End WireInvariant.

(** ** C1: replies are handed out in the order of the wire *)

Lemma replied_of_filter (t : list Obs) :
  replied_of (List.filter is_wire_obs t) = replied_of t.
Proof.
  induction t as [|o t IH]; [done|].
  destruct o; simpl; try exact IH; unfold replied_of in *; simpl; by rewrite IH.
Qed.

Lemma wrote_of_filter (t : list Obs) :
  wrote_of (List.filter is_wire_obs t) = wrote_of t.
Proof.
  induction t as [|o t IH]; [done|].
  destruct o; simpl; try exact IH; unfold wrote_of in *; simpl; by rewrite IH.
Qed.

Lemma core_view_replied (w w' : World) :
  core_view w' = core_view w → replied_of (trace w') = replied_of (trace w).
Proof.
  unfold core_view. intros [= _ _ _ Ht].
  by rewrite <- (replied_of_filter (trace w')), Ht, replied_of_filter.
Qed.

Lemma core_view_wrote (w w' : World) :
  core_view w' = core_view w → wrote_of (trace w') = wrote_of (trace w).
Proof.
  unfold core_view. intros [= _ _ _ Ht].
  by rewrite <- (wrote_of_filter (trace w')), Ht, wrote_of_filter.
Qed.

Lemma core_view_queue (w w' : World) :
  core_view w' = core_view w → _active_queue (client w') = _active_queue (client w).
Proof. unfold core_view. by intros [= ? _ _ _]. Qed.

Lemma core_view_fifo (w w' : World) :
  core_view w' = core_view w → fifo_view w' = fifo_view w.
Proof.
  intros Hc. unfold fifo_view.
  by rewrite (core_view_queue _ _ Hc), (core_view_replied _ _ Hc), (core_view_wrote _ _ Hc).
Qed.

Section FifoDetermined.

(** An invariant that only looks at the queue and at the order of
    writes and replies is indifferent to the transport and the timers. *)
Variable I : World → Prop.
Hypothesis I_fifo : ∀ w w', fifo_view w' = fifo_view w → I w → I w'.

Lemma fifo_det_core (w w' : World) : core_view w' = core_view w → I w → I w'.
Proof. intros Hc. apply I_fifo. by apply core_view_fifo. Qed.

Lemma fifo_det_write (data : string) : keeps I (Client_.write data).
Proof.
  intros w Hw. unfold Client_.write, bind, get.
  destruct (_transport (client w)); [|exact Hw]. by apply (I_fifo w).
Qed.

Lemma fifo_det_call_later (d : Q) (r : rid) : keeps I (Loop.call_later d r).
Proof. intros w Hw. by apply (I_fifo w). Qed.

Lemma fifo_det_cancel (h : hid) : keeps I (Loop.cancel h).
Proof. intros w Hw. by apply (I_fifo w). Qed.

Lemma fifo_det_timer_due (h : hid) : keeps I (Loop.timer_due h).
Proof.
  intros w Hw. unfold Loop.timer_due, bind, get.
  destruct (timers w !! h) as [t|]; [|exact Hw].
  destruct (h_scheduled t); [|exact Hw]. by apply (I_fifo w).
Qed.

Lemma fifo_det_run_timer (h : hid) : keeps I (Loop.run_timer h).
Proof.
  intros w Hw. unfold Loop.run_timer, bind at 1, get.
  destruct (timers w !! h) as [t|]; [|exact Hw].
  destruct (h_cancelled t); [exact Hw|].
  unfold bind, emit, modify.
  apply (keeps_apply I); [apply keeps_preserves with (view := core_view);
                          [apply fifo_det_core | apply core_set_result]|].
  apply (I_fifo w); [|exact Hw]. unfold fifo_view, replied_of, wrote_of. simpl.
  rewrite !omap_app. simpl. by rewrite !app_nil_r.
Qed.

End FifoDetermined.

Section FifoInv.

Variable base : list rid.

Lemma fifo_inv_fifo (w w' : World) :
  fifo_view w' = fifo_view w → fifo_inv base w → fifo_inv base w'.
Proof. unfold fifo_view. intros [= Hq Hr Hw] (q & Hq' & Heq). exists q. by rewrite Hq, Hr, Hw. Qed.

Lemma fifo_inv_core (w w' : World) :
  core_view w' = core_view w → fifo_inv base w → fifo_inv base w'.
Proof.
  intros Hc (q & Hw & Heq). exists q.
  by rewrite (core_view_queue _ _ Hc), (core_view_replied _ _ Hc), (core_view_wrote _ _ Hc).
Qed.

Lemma fifo_inv_write (data : string) : keeps (fifo_inv base) (Client_.write data).
Proof.
  intros w Hw. unfold Client_.write, bind, get. destruct (_transport (client w)); exact Hw.
Qed.

Lemma fifo_inv_send (r : rid) :
  keeps (fifo_inv base) (bind (emit (wrote r)) (fun _ => Client_.queue_append r)).
Proof.
  intros w (q & Hq & Heq). unfold Client_.queue_append, emit, modify, get, bind. simpl.
  rewrite Hq. simpl. exists (q ++ [r]). split; [done|].
  unfold replied_of, wrote_of in *. cbn [trace set_client set_trace]. rewrite !omap_app. simpl.
  rewrite app_nil_r, !app_assoc. by rewrite Heq.
Qed.

Lemma fifo_inv_pop (k : rid → M unit) :
  (∀ r, keeps (fifo_inv base) (k r)) →
  keeps (fifo_inv base)
        (bind Client_.queue_pop (fun r => bind (emit (replied r)) (fun _ => k r))).
Proof.
  intros Hk w (q & Hq & Heq). unfold Client_.queue_pop, bind at 1 2, get. rewrite Hq.
  destruct q as [|r rest]; [by exists []|].
  cbv [emit modify bind ret]. apply keeps_apply; [apply Hk|].
  exists rest. split; [done|]. cbn [trace set_client set_trace].
  unfold replied_of, wrote_of in *. rewrite !omap_app. simpl.
  rewrite app_nil_r, <- app_assoc. exact Heq.
Qed.

Lemma fifo_run0212 (actions : list Action) (w : World) :
  fifo_inv base w → fifo_inv base (run0212 actions w).
Proof.
  apply inv_run0212;
    [ apply fifo_inv_core | apply fifo_inv_write | apply fifo_inv_send | apply fifo_inv_pop
    | apply fifo_det_call_later | apply fifo_det_cancel | apply fifo_det_timer_due
    | apply fifo_det_run_timer ]; apply fifo_inv_fifo.
Qed.

Lemma fifo_run033 (read_data : rid → string → M (option string))
    (actions : list Action033) (w : World) :
  (∀ r data, preserves core_view (read_data r data)) →
  fifo_inv base w → fifo_inv base (run033 read_data actions w).
Proof.
  intros Hrd. apply inv_run033;
    [ apply fifo_inv_core | apply fifo_inv_write | apply fifo_inv_send | apply fifo_inv_pop
    | apply fifo_det_call_later, fifo_inv_fifo | apply fifo_det_cancel, fifo_inv_fifo
    | apply fifo_det_timer_due, fifo_inv_fifo | apply fifo_det_run_timer, fifo_inv_fifo
    | intros r data; apply keeps_preserves with (view := core_view);
      [apply fifo_inv_core | apply Hrd] ].
Qed.

End FifoInv.

Lemma feed_fields (r : rid) (success : string) (payload : list string)
    (fields : list (string * string)) (more : list string) :
  payload_lines success payload = Some fields →
  ∀ lines w,
    Parser.feed (Parser.CommandLine r success lines) (payload ++ more) w
    = Parser.feed (Parser.CommandLine r success (lines ++ fields)) more w.
Proof.
  revert fields. induction payload as [|line payload IH]; intros fields H lines w.
  - injection H as <-. by rewrite app_nil_r.
  - cbn [payload_lines] in H.
    destruct (payload_line success line) as [kv|] eqn:Hl; [|discriminate].
    destruct (payload_lines success payload) as [kvs|]; [|discriminate].
    injection H as <-. cbn [app Parser.feed Parser.send]. unfold bind at 1 2.
    rewrite (send_payload _ _ _ _ _ _ Hl). unfold ret at 1. cbn [option_map].
    rewrite (IH kvs eq_refl). by rewrite <- app_assoc.
Qed.

(** A well-formed success reply resolves the request it is handed to
    with the value its transform makes of the fields. *)
Lemma process_reply_success (w : World) (r : rid) (req : Request)
    (payload : list string) (fields : list (string * string)) (v : Value) :
  requests w !! r = Some req → is_command_line (class_ req) = true →
  outcome req = Pending →
  payload_lines Parser.SUCCESS payload = Some fields →
  Transform.apply (_transform req) fields = inr v →
  Parser._process_reply r (payload ++ [Parser.SUCCESS]) w = Ok tt (member_world r v w).
Proof.
  intros Hr Hc Hp Hf Ht. unfold Parser._process_reply, Parser._parser, bind at 1 2.
  rewrite (lookup_ok _ _ _ Hr).
  assert (Hst : (match class_ req with
                 | RequestWelcome => ret (Parser.Welcome r)
                 | RequestCommandList =>
                     ret (Parser.CommandList_next r (_commands req) [])
                 | RequestPassive => raise AttributeError
                 | _ => ret (Parser.CommandLine r Parser.SUCCESS [])
                 end) w = Ok (Parser.CommandLine r Parser.SUCCESS []) w)
    by (destruct (class_ req); try discriminate; reflexivity).
  rewrite Hst. rewrite (feed_fields _ _ _ _ _ Hf). cbn [app Parser.feed Parser.send].
  unfold bind at 1 2. rewrite (send_success _ req _ _ v) by done.
  reflexivity.
Qed.

(** [Client._process_reply] hands the block to the head of the queue. *)
Lemma process_reply_head (w : World) (r : rid) (rest : list rid) (req : Request)
    (payload : list string) (fields : list (string * string)) (v : Value) :
  _active_queue (client w) = Some (r :: rest) →
  requests w !! r = Some req → is_command_line (class_ req) = true →
  outcome req = Pending →
  payload_lines Parser.SUCCESS payload = Some fields →
  Transform.apply (_transform req) fields = inr v →
  ∃ w', V0212._process_reply (payload ++ [Parser.SUCCESS]) w = Ok tt w'
        ∧ outcome_of w' r = Some (Result v)
        ∧ _active_queue (client w') = Some rest
        ∧ (∀ r', r' ≠ r → requests w' !! r' = requests w !! r')
        ∧ trace w' = trace w ++ [replied r; decoded r; settled r (Result v)].
Proof.
  intros Hq Hr Hc Hp Hf Ht.
  unfold V0212._process_reply, bind at 1, get. rewrite Hq.
  unfold Client_.queue_pop, bind at 1 2, get. rewrite Hq.
  cbv [modify bind ret emit].
  set (w1 := set_trace _ (set_client _ w)).
  assert (Hr1 : requests w1 !! r = Some req) by exact Hr.
  rewrite (process_reply_success w1 r req payload fields v Hr1 Hc Hp Hf Ht).
  assert (Hq1 : _active_queue (client (member_world r v w1)) = Some rest)
    by (unfold member_world; rewrite Hr1; reflexivity).
  cbv [get]. rewrite Hq1.
  assert (Hprops : ∀ w', requests w' = requests (member_world r v w1) →
                         trace w' = trace (member_world r v w1) →
                         outcome_of w' r = Some (Result v)
                         ∧ (∀ r', r' ≠ r → requests w' !! r' = requests w !! r')
                         ∧ trace w' = trace w ++ [replied r; decoded r; settled r (Result v)]).
  { intros w' Hreq Htr. unfold outcome_of. rewrite Hreq, Htr.
    rewrite (member_world_lookup _ _ _ _ Hr1). split; [done|]. split.
    - intros r' Hne. by rewrite member_world_other.
    - rewrite (member_world_trace _ _ _ _ Hr1). unfold w1. simpl.
      by rewrite <- app_assoc. }
  destruct rest as [|r2 rest].
  - eexists. split; [reflexivity|].
    destruct (Hprops _ eq_refl eq_refl) as (H1 & H2 & H3).
    repeat split; [exact H1 | exact Hq1 | exact H2 | exact H3].
  - eexists. split; [reflexivity|].
    destruct (Hprops _ eq_refl eq_refl) as (H1 & H2 & H3).
    repeat split; [exact H1 | exact Hq1 | exact H2 | exact H3].
Qed.

Section Fifo.

Variable read_data : rid → string → M (option string).


End Fifo.

Lemma core_read_all (r : rid) (data : string) : preserves core_view (read_all r data).
Proof. unfold read_all. pres. Qed.


(** ** C2: the interrupt token *)

Section OrderInv.

Variable order : list rid.

Lemma order_inv_fifo (w w' : World) :
  fifo_view w' = fifo_view w → order_inv order w → order_inv order w'.
Proof.
  unfold fifo_view. intros [= Hq Hr Hw] (q & sent & Hq' & Heq). exists q, sent.
  by rewrite Hq, Hr.
Qed.

Lemma order_inv_core (w w' : World) :
  core_view w' = core_view w → order_inv order w → order_inv order w'.
Proof.
  intros Hc (q & sent & Hw & Heq). exists q, sent.
  by rewrite (core_view_queue _ _ Hc), (core_view_replied _ _ Hc).
Qed.

Lemma order_inv_write (data : string) : keeps (order_inv order) (Client_.write data).
Proof.
  intros w Hw. unfold Client_.write, bind, get. destruct (_transport (client w)); exact Hw.
Qed.

Lemma order_inv_send (r : rid) :
  keeps (order_inv order) (bind (emit (wrote r)) (fun _ => Client_.queue_append r)).
Proof.
  intros w (q & sent & Hq & Heq). unfold Client_.queue_append, emit, modify, get, bind. simpl.
  rewrite Hq. simpl. exists (q ++ [r]), (sent ++ [r]). split; [done|].
  unfold replied_of in *. cbn [trace set_client set_trace]. rewrite !omap_app. simpl.
  rewrite app_nil_r, !app_assoc. by rewrite Heq.
Qed.

Lemma order_inv_pop (k : rid → M unit) :
  (∀ r, keeps (order_inv order) (k r)) →
  keeps (order_inv order)
        (bind Client_.queue_pop (fun r => bind (emit (replied r)) (fun _ => k r))).
Proof.
  intros Hk w (q & sent & Hq & Heq). unfold Client_.queue_pop, bind at 1 2, get. rewrite Hq.
  destruct q as [|r rest]; [by exists [], sent|].
  cbv [emit modify bind ret]. apply keeps_apply; [apply Hk|].
  exists rest, sent. split; [done|]. cbn [trace set_client set_trace].
  unfold replied_of in *. rewrite !omap_app. simpl.
  rewrite <- app_assoc. exact Heq.
Qed.

Lemma order_run0212 (actions : list Action) (w : World) :
  order_inv order w → order_inv order (run0212 actions w).
Proof.
  apply inv_run0212;
    [ apply order_inv_core | apply order_inv_write | apply order_inv_send
    | apply order_inv_pop
    | apply fifo_det_call_later | apply fifo_det_cancel | apply fifo_det_timer_due
    | apply fifo_det_run_timer ]; apply order_inv_fifo.
Qed.

Lemma order_run033 (read_data : rid → string → M (option string))
    (actions : list Action033) (w : World) :
  (∀ r data, preserves core_view (read_data r data)) →
  order_inv order w → order_inv order (run033 read_data actions w).
Proof.
  intros Hrd. apply inv_run033;
    [ apply order_inv_core | apply order_inv_write | apply order_inv_send
    | apply order_inv_pop
    | apply fifo_det_call_later, order_inv_fifo | apply fifo_det_cancel, order_inv_fifo
    | apply fifo_det_timer_due, order_inv_fifo | apply fifo_det_run_timer, order_inv_fifo
    | intros r data; apply keeps_preserves with (view := core_view);
      [apply order_inv_core | apply Hrd] ].
Qed.

End OrderInv.

Lemma send_connected_spec (w : World) (r : rid) (req : Request) (t : Transport)
    (q : list rid) :
  requests w !! r = Some req → class_ req ≠ RequestIdle →
  _transport (client w) = Some t → _active_queue (client w) = Some q →
  Client_.send_connected r w
  = Ok tt (sent_world (negb (truthy (Z.land (_state (client w)) ClientState.FLAG_ACTIVE)))
                      r req t q w).
Proof.
  intros Hr Hc Ht Hq. unfold Client_.send_connected, bind at 1. rewrite (lookup_ok _ _ _ Hr).
  unfold Client_.state, bind at 1 2, get, ret. rewrite bool_decide_eq_false_2 by done.
  destruct w as [rs es ts rd c tr]. destruct c as [ex wl st pv aq tp ac]. simpl in *. subst.
  destruct (truthy (Z.land st ClientState.FLAG_ACTIVE)) eqn:Ha; simpl.
  - cbv [Client_.write Client_.queue_append emit modify bind get ret]. simpl.
    unfold sent_world, sent_client. simpl. reflexivity.
  - cbv [Client_.write Client_.queue_append Client_.put_state emit modify bind get ret]. simpl.
    unfold sent_world, sent_client. simpl. by rewrite <- app_assoc.
Qed.

Lemma send033_connected (w : World) (r : rid) :
  truthy (Z.land (_state (client w)) ClientState.FLAG_CONNECTED) = true →
  V033._send r w = Client_.send_connected r w.
Proof. intros H. unfold V033._send, Client_.state, bind, get, ret. by rewrite H. Qed.

Lemma send0212_connected (w : World) (r : rid) :
  truthy (Z.land (_state (client w)) ClientState.FLAG_CONNECTED) = true →
  V0212._send r w = Client_.send_connected r (set_client (set_active true) w).
Proof.
  intros H. unfold V0212._send, Client_.state, modify, bind, get, ret. simpl. by rewrite H.
Qed.

Lemma sent_world_as (noidle : bool) (w w0 : World) (r : rid) (req : Request)
    (t : Transport) (q : list rid) :
  trace w0 = trace w → requests w0 = requests w →
  sent_as w (sent_world noidle r req t q w0) r t q
          ((if noidle then [("noidle" ++ Client_.nl)%string] else [])
           ++ [(_commandline req ++ Client_.nl)%string])
          (if noidle then Z.lor (_state (client w0)) ClientState.FLAG_ACTIVE
           else _state (client w0)).
Proof. intros Ht Hr. unfold sent_as, sent_world. simpl. by rewrite Ht, Hr. Qed.

Lemma sent_as_order (w w1 : World) (r : rid) (t : Transport) (q : list rid)
    (chunks : list string) (st1 : Z) :
  sent_as w w1 r t q chunks st1 → order_inv (replied_of (trace w) ++ q ++ [r]) w1.
Proof.
  intros (_ & _ & Hq & Ht & _). exists (q ++ [r]), []. split; [done|].
  rewrite Ht. unfold replied_of. rewrite omap_app. simpl. by rewrite !app_nil_r.
Qed.

Section Interrupt.

Variable read_data : rid → string → M (option string).
Hypothesis read_data_core : ∀ r data, preserves core_view (read_data r data).


End Interrupt.


(** ** C6: subscriptions that the state already satisfies *)

Lemma executor_lookup_ok (w : World) (e : eid) (ex : Executor) :
  executors w !! e = Some ex → Executor_.lookup e w = Ok ex w.
Proof. intros H. unfold Executor_.lookup. by rewrite H. Qed.

Lemma executor_update_ok (w : World) (e : eid) (ex : Executor) (f : Executor → Executor) :
  executors w !! e = Some ex →
  Executor_.update e f w = Ok tt (set_executors (insert e (f ex)) w).
Proof. intros H. unfold Executor_.update, modify, set_executors. by rewrite H. Qed.

Lemma add_done_callback_pending (w : World) (r : rid) (req : Request) (cb : Callback) :
  requests w !! r = Some req → outcome req = Pending →
  Future.add_done_callback r cb w
  = Ok tt (set_requests (insert r (set_callbacks_ (_callbacks req ++ [cb]) req)) w).
Proof.
  intros Hr Hp. unfold Future.add_done_callback, bind. rewrite (lookup_ok _ _ _ Hr), Hp.
  cbn [Future.is_done]. by rewrite (update_ok _ _ _ _ Hr).
Qed.

(** [Executor._log_request] of an open executor, up to the call of
    [_wait] or [_send]. *)
Lemma log_request_open (_wait _send : rid → M unit) (w : World) (r : rid)
    (req : Request) (ex : Executor) :
  requests w !! r = Some req → outcome req = Pending →
  executors w !! _executor req = Some ex → _client ex = Some the_client →
  Client_._log_request _wait _send (_executor req) r w
  = (if bool_decide (class_ req = RequestPassive) then _wait r else _send r)
      (set_requests
         (insert r (set_callbacks_ (_callbacks req ++ [unlog_request (_executor req)]) req))
         (set_executors
            (insert (_executor req) (Executor_.set_requests_ (_requests ex ++ [r]) ex)) w)).
Proof.
  intros Hr Hp He Hc. unfold Client_._log_request, bind at 1.
  rewrite (executor_lookup_ok _ _ _ He), Hc.
  unfold bind at 1. rewrite (executor_update_ok _ _ _ _ He).
  unfold bind at 1. rewrite (add_done_callback_pending _ r req) by done.
  unfold bind. rewrite (lookup_ok _ r (set_callbacks_ _ req)) by apply lookup_insert_eq.
  reflexivity.
Qed.

(** [Client._wait] for a subscription that the current events match. *)
Lemma wait_matching (cur : M Z) (c : Z) (w : World) (r : rid) (req : Request) :
  cur w = Ok c w → requests w !! r = Some req → outcome req = Pending →
  truthy (Z.land c (_event_mask req)) = true →
  Client_._wait cur r w
  = Ok tt (settled_world r req (Result (VInt (Z.land c (_event_mask req)))) w).
Proof.
  intros Hcur Hr Hp Hm. unfold Client_._wait, bind. rewrite Hcur, (lookup_ok _ _ _ Hr), Hm.
  by apply set_result_pending.
Qed.

(** [Client._wait] for a subscription that the current events do not
    match: it joins the waiting list. *)
Lemma wait_not_matching (cur : M Z) (c : Z) (w : World) (r : rid) (req : Request) :
  cur w = Ok c w → requests w !! r = Some req → outcome req = Pending →
  truthy (Z.land c (_event_mask req)) = false →
  Client_._wait cur r w
  = Ok tt (set_requests
             (insert r (set_callbacks_ (_callbacks req ++ [waiting_list_remove]) req))
             (set_client (set_waiting_list (fun l => l ++ [r])) w)).
Proof.
  intros Hcur Hr Hp Hm. unfold Client_._wait, bind at 1 2.
  rewrite Hcur, (lookup_ok _ _ _ Hr), Hm. unfold modify, bind.
  by rewrite (add_done_callback_pending _ r req).
Qed.

Lemma current_events0212_ok (w : World) :
  V0212._current_events w = Ok (current_events0212 (_state (client w))) w.
Proof. reflexivity. Qed.

Lemma current_events033_ok (w : World) :
  V033._current_events w = Ok (current_events033 (_state (client w))) w.
Proof. reflexivity. Qed.

Lemma passive_await_armed (L : eid → rid → M unit) (w : World) (r : rid) (req : Request) :
  requests w !! r = Some req → outcome req = Pending →
  RequestPassive_await L r w = Request_await L r (armed_world w r req).
Proof.
  intros Hr Hp. unfold RequestPassive_await, bind at 1. rewrite (lookup_ok _ _ _ Hr).
  unfold armed_world, armed_request. destruct (_timeout req) as [timeout|].
  - unfold bind at 1 2. unfold Loop.call_later, bind at 1 2, get, modify, ret.
    unfold bind at 1. rewrite (update_ok _ r req) by exact Hr.
    unfold bind at 1.
    rewrite (update_ok _ r (set_timeout_handle (Some (fresh (dom (timers w)))) req))
      by apply lookup_insert_eq.
    rewrite (add_done_callback_pending _ r
               (set_event_mask (Z.lor (_event_mask req) Event.TIMEOUT)
                  (set_timeout_handle (Some (fresh (dom (timers w)))) req)));
      [| simpl; apply lookup_insert_eq | exact Hp].
    unfold set_requests, set_timers. simpl. by rewrite !insert_insert_eq.
  - reflexivity.
Qed.

Lemma armed_world_lookup (w : World) (r : rid) (req : Request) :
  requests w !! r = Some req → requests (armed_world w r req) !! r = Some (armed_request w req).
Proof.
  intros Hr. unfold armed_world, armed_request. destruct (_timeout req); [|done].
  simpl. apply lookup_insert_eq.
Qed.

Lemma armed_world_client (w : World) (r : rid) (req : Request) :
  client (armed_world w r req) = client w.
Proof. unfold armed_world. by destruct (_timeout req). Qed.

Lemma armed_world_executors (w : World) (r : rid) (req : Request) :
  executors (armed_world w r req) = executors w.
Proof. unfold armed_world. by destruct (_timeout req). Qed.

Lemma armed_request_facts (w : World) (req : Request) :
  outcome (armed_request w req) = outcome req
  ∧ _executor (armed_request w req) = _executor req
  ∧ class_ (armed_request w req) = class_ req
  ∧ _event_mask (armed_request w req)
    = match _timeout req with
      | Some _ => Z.lor (_event_mask req) Event.TIMEOUT
      | None => _event_mask req
      end.
Proof. unfold armed_request. by destruct (_timeout req). Qed.

Section ImmediateSubscription.

(** The two releases differ in [_current_events] only; [events] is its
    value as a function of the state. *)
Variable cur : M Z.
Variable _send : rid → M unit.
Variable events : Z → Z.
Hypothesis cur_events : ∀ w, cur w = Ok (events (_state (client w))) w.
Hypothesis events_no_timeout : ∀ st, Z.land (events st) Event.TIMEOUT = 0.

Let L := Client_._log_request (Client_._wait cur) _send.

Lemma armed_mask (w : World) (req : Request) :
  Z.land (events (_state (client w))) (_event_mask (armed_request w req))
  = Z.land (events (_state (client w))) (_event_mask req).
Proof.
  destruct (armed_request_facts w req) as (_ & _ & _ & ->).
  destruct (_timeout req); [|done].
  by rewrite Z.land_lor_distr_r, events_no_timeout, Z.lor_0_r.
Qed.

Lemma subscription_immediate (w : World) (r : rid) (req : Request) :
  open_subscription w r req →
  let event := Z.land (events (_state (client w))) (_event_mask req) in
  event ≠ 0 →
  ∃ w', await L r w = Ok (Some (VInt event)) w'
        ∧ outcome_of w' r = Some (Result (VInt event))
        ∧ wire_untouched w w'
        ∧ _waiting_list (client w') = _waiting_list (client w).
Proof.
  intros (Hr & Hclass & Hp & ex & He & Hc) event Hev.
  unfold await, bind at 1. rewrite (lookup_ok _ _ _ Hr), Hclass.
  rewrite (passive_await_armed _ _ _ _ Hr Hp).
  set (w2 := armed_world w r req). set (req2 := armed_request w req).
  destruct (armed_request_facts w req) as (Hp2 & He2 & Hc2 & _). fold req2 in Hp2, He2, Hc2.
  assert (Hr2 : requests w2 !! r = Some req2) by by apply armed_world_lookup.
  unfold Request_await, bind at 1. rewrite (lookup_ok _ _ _ Hr2).
  unfold bind at 1. unfold L.
  rewrite (log_request_open _ _ w2 r req2 ex); [| done | congruence | | done]; cycle 1.
  { unfold w2. rewrite armed_world_executors. congruence. }
  rewrite Hc2, Hclass. rewrite bool_decide_eq_true_2 by done.
  set (req3 := set_callbacks_ _ req2). set (w3 := set_requests _ _).
  assert (Hr3 : requests w3 !! r = Some req3) by apply lookup_insert_eq.
  assert (Hcl3 : client w3 = client w) by (unfold w3, w2; simpl; apply armed_world_client).
  assert (Hm3 : Z.land (events (_state (client w3))) (_event_mask req3) = event).
  { rewrite Hcl3. unfold req3. simpl. unfold req2. by rewrite armed_mask. }
  rewrite (wait_matching cur (events (_state (client w3))) w3 r req3);
    [| apply cur_events | done | by rewrite <- Hp | ]; cycle 1.
  { rewrite Hm3. unfold truthy. by destruct (Z.eqb_spec event 0). }
  rewrite Hm3. set (w4 := settled_world _ _ _ _).
  assert (Hr4 : requests w4 !! r
                = Some (set_callbacks_ [] (set_outcome (Result (VInt event)) req3)))
    by apply lookup_insert_eq.
  exists w4. split; [|split; [|split]].
  - cbv [Loop.await_ Future.done Future.result Future.lookup bind ret].
    rewrite Hr4. simpl. by rewrite lookup_insert_eq.
  - unfold outcome_of. by rewrite Hr4.
  - unfold wire_untouched. change (client w4) with (client w3). by rewrite Hcl3.
  - change (client w4) with (client w3). by rewrite Hcl3.
Qed.

Lemma subscription_waits_full (w : World) (r : rid) (req : Request) :
  open_subscription w r req →
  Z.land (events (_state (client w))) (_event_mask req) = 0 →
  ∃ w', await L r w = Ok None w'
        ∧ outcome_of w' r = Some Pending
        ∧ wire_untouched w w'
        ∧ _waiting_list (client w') = _waiting_list (client w) ++ [r]
        ∧ requests w' !! r = Some (waiting_request w req)
        ∧ timers w' = timers (armed_world w r req).
Proof.
  intros (Hr & Hclass & Hp & ex & He & Hc) Hev.
  unfold await, bind at 1. rewrite (lookup_ok _ _ _ Hr), Hclass.
  rewrite (passive_await_armed _ _ _ _ Hr Hp).
  set (w2 := armed_world w r req). set (req2 := armed_request w req).
  destruct (armed_request_facts w req) as (Hp2 & He2 & Hc2 & _). fold req2 in Hp2, He2, Hc2.
  assert (Hr2 : requests w2 !! r = Some req2) by by apply armed_world_lookup.
  unfold Request_await, bind at 1. rewrite (lookup_ok _ _ _ Hr2).
  unfold bind at 1. unfold L.
  rewrite (log_request_open _ _ w2 r req2 ex); [| done | congruence | | done]; cycle 1.
  { unfold w2. rewrite armed_world_executors. congruence. }
  rewrite Hc2, Hclass. rewrite bool_decide_eq_true_2 by done.
  set (req3 := set_callbacks_ _ req2). set (w3 := set_requests _ _).
  assert (Hr3 : requests w3 !! r = Some req3) by apply lookup_insert_eq.
  assert (Hcl3 : client w3 = client w) by (unfold w3, w2; simpl; apply armed_world_client).
  assert (Hm3 : Z.land (events (_state (client w3))) (_event_mask req3) = 0).
  { rewrite Hcl3. unfold req3. simpl. unfold req2. by rewrite armed_mask. }
  rewrite (wait_not_matching cur (events (_state (client w3))) w3 r req3);
    [| apply cur_events | done | by rewrite <- Hp | by rewrite Hm3 ].
  set (w4 := set_requests _ _).
  assert (Hr4 : requests w4 !! r
                = Some (set_callbacks_ (_callbacks req3 ++ [waiting_list_remove]) req3))
    by apply lookup_insert_eq.
  exists w4. split; [|split; [|split; [|split; [|split]]]].
  - cbv [Loop.await_ Future.done Future.lookup bind ret].
    rewrite Hr4. simpl. change (outcome req3) with (outcome req2). by rewrite Hp2, Hp.
  - unfold outcome_of. rewrite Hr4. simpl. change (outcome req3) with (outcome req2).
    by rewrite Hp2, Hp.
  - unfold wire_untouched, w4. clearbody w3. simpl. by rewrite Hcl3.
  - unfold w4. clearbody w3. simpl. by rewrite Hcl3.
  - exact Hr4.
  - reflexivity.
Qed.

Lemma subscription_waits (w : World) (r : rid) (req : Request) :
  open_subscription w r req →
  Z.land (events (_state (client w))) (_event_mask req) = 0 →
  ∃ w', await L r w = Ok None w'
        ∧ outcome_of w' r = Some Pending
        ∧ wire_untouched w w'
        ∧ _waiting_list (client w') = _waiting_list (client w) ++ [r].
Proof.
  intros Ho He. destruct (subscription_waits_full w r req Ho He) as (w' & H1 & H2 & H3 & H4 & _).
  by exists w'.
Qed.

Lemma subscription_arms (w : World) (r : rid) (req : Request) (timeout : Q) :
  open_subscription w r req → _timeout req = Some timeout →
  Z.land (events (_state (client w))) (_event_mask req) = 0 →
  ∃ w', await L r w = Ok None w'
        ∧ wire_untouched w w'
        ∧ armed w' r (fresh (dom (timers w))) timeout.
Proof.
  intros Ho Ht He.
  destruct (subscription_waits_full w r req Ho He) as (w' & H1 & _ & H3 & _ & Hr & Htm).
  exists w'. split; [done|]. split; [done|]. exists (waiting_request w req).
  destruct Ho as (_ & _ & Hp & _).
  unfold waiting_request, armed_request, armed_world in *. rewrite Ht in *. simpl.
  split; [done|]. split; [done|]. split; [done|]. split; [|split].
  - rewrite !elem_of_app. left. left. right. by apply list_elem_of_singleton.
  - apply Z.bits_inj'. intros k _. rewrite Z.land_spec, Z.lor_spec.
    destruct (Z.testbit (_event_mask req) k), (Z.testbit Event.TIMEOUT k); reflexivity.
  - rewrite Htm. simpl. apply lookup_insert_eq.
Qed.

End ImmediateSubscription.

Lemma current_events0212_no_timeout (st : Z) :
  Z.land (current_events0212 st) Event.TIMEOUT = 0.
Proof.
  unfold current_events0212.
  destruct (st =? ClientState.STATE_IDLE),
           (truthy (Z.land st ClientState.FLAG_CONNECTED)); reflexivity.
Qed.

Lemma current_events033_no_timeout (st : Z) :
  Z.land (current_events033 st) Event.TIMEOUT = 0.
Proof. unfold current_events033. destruct (st =? ClientState.STATE_IDLE); reflexivity. Qed.

(** In release 0.3.3 a subscription to [CONNECT], issued while the
    client is connected, is not resolved: it joins the waiting list. *)
Lemma connect_subscription_waits_033 :
  open_subscription Scenario3.active 5 (Scenario.subscription Event.CONNECT None)
  ∧ truthy (Z.land (_state (client Scenario3.active)) ClientState.FLAG_CONNECTED) = true
  ∧ Z.land (_event_mask (Scenario.subscription Event.CONNECT None)) Event.CONNECT ≠ 0
  ∧ ∃ w', V033.await_ 5 Scenario3.active = Ok None w'
          ∧ outcome_of w' 5 = Some Pending
          ∧ _waiting_list (client w') = _waiting_list (client Scenario3.active) ++ [5%nat].
Proof.
  split; [|split; [|split]].
  - repeat split; try reflexivity. eexists. split; reflexivity.
  - reflexivity.
  - discriminate.
  - eexists. split; [vm_compute; reflexivity|]. split; reflexivity.
Qed.

(** C6, amended.  A pending subscription [r] of an open executor is
    awaited.  In release 0.2.12 the current events are [IDLE] when the
    client is idle and [CONNECT] when it is connected: if the mask of [r]
    meets them, [r] resolves at once with the intersection.  In release
    0.3.3 the current events are [IDLE] alone, when the client is idle: if
    the mask meets that, [r] resolves at once with [IDLE]; otherwise -- so
    for [CONNECT] while connected -- [r] stays pending on the waiting
    list.  In every case nothing is written and nothing is queued. *)
Theorem subscription_already_satisfied (w : World) (r : rid) (req : Request) :
  open_subscription w r req →
  let st := _state (client w) in
  (let event := Z.land (current_events0212 st) (_event_mask req) in
   event ≠ 0 →
   ∃ w', V0212.await_ r w = Ok (Some (VInt event)) w'
         ∧ outcome_of w' r = Some (Result (VInt event))
         ∧ wire_untouched w w'
         ∧ _waiting_list (client w') = _waiting_list (client w))
  ∧ (let event := Z.land (current_events033 st) (_event_mask req) in
     (event ≠ 0 →
      ∃ w', V033.await_ r w = Ok (Some (VInt event)) w'
            ∧ outcome_of w' r = Some (Result (VInt event))
            ∧ wire_untouched w w'
            ∧ _waiting_list (client w') = _waiting_list (client w))
     ∧ (event = 0 →
        ∃ w', V033.await_ r w = Ok None w'
              ∧ outcome_of w' r = Some Pending
              ∧ wire_untouched w w'
              ∧ _waiting_list (client w') = _waiting_list (client w) ++ [r]))
  ∧ (truthy (Z.land st ClientState.FLAG_CONNECTED) = true →
     Z.land (current_events0212 st) Event.CONNECT = Event.CONNECT)
  ∧ (st = ClientState.STATE_IDLE →
     Z.land (current_events0212 st) Event.IDLE = Event.IDLE
     ∧ current_events033 st = Event.IDLE)
  ∧ Z.land (current_events033 st) Event.CONNECT = 0.
Proof.
  intros Hopen st. split; [|split; [|split; [|split]]].
  - apply (subscription_immediate V0212._current_events V0212._send current_events0212
             current_events0212_ok current_events0212_no_timeout w r req Hopen).
  - split.
    + apply (subscription_immediate V033._current_events V033._send current_events033
               current_events033_ok current_events033_no_timeout w r req Hopen).
    + apply (subscription_waits V033._current_events V033._send current_events033
               current_events033_ok current_events033_no_timeout w r req Hopen).
  - intros Hc. unfold current_events0212. rewrite Hc.
    destruct (st =? ClientState.STATE_IDLE); reflexivity.
  - intros ->. split; reflexivity.
  - unfold current_events033. destruct (st =? ClientState.STATE_IDLE); reflexivity.
Qed.

Lemma subscription_already_satisfied_witness :
  (∃ w', V0212.await_ 6 Scenario3.idle
         = Ok (Some (VInt (Z.lor Event.IDLE Event.CONNECT))) w'
         ∧ outcome_of w' 6 = Some (Result (VInt (Z.lor Event.IDLE Event.CONNECT)))
         ∧ wire_untouched Scenario3.idle w'
         ∧ _waiting_list (client w') = _waiting_list (client Scenario3.idle))
  ∧ (∃ w', V033.await_ 6 Scenario3.idle = Ok (Some (VInt Event.IDLE)) w'
           ∧ outcome_of w' 6 = Some (Result (VInt Event.IDLE))
           ∧ wire_untouched Scenario3.idle w'
           ∧ _waiting_list (client w') = _waiting_list (client Scenario3.idle))
  ∧ (∃ w', V033.await_ 5 Scenario3.idle = Ok None w'
           ∧ outcome_of w' 5 = Some Pending
           ∧ wire_untouched Scenario3.idle w'
           ∧ _waiting_list (client w') = _waiting_list (client Scenario3.idle) ++ [5%nat]).
Proof.
  assert (H6 : open_subscription Scenario3.idle 6
                 (Scenario.subscription (Z.lor Event.IDLE Event.CONNECT) (Some 30%Q))).
  { repeat split; try reflexivity. eexists. split; reflexivity. }
  assert (H5 : open_subscription Scenario3.idle 5 (Scenario.subscription Event.CONNECT None)).
  { repeat split; try reflexivity. eexists. split; reflexivity. }
  destruct (subscription_already_satisfied _ _ _ H6) as (A & (B & _) & _).
  destruct (subscription_already_satisfied _ _ _ H5) as (_ & (_ & C) & _).
  split; [|split].
  - apply A. discriminate.
  - apply B. discriminate.
  - apply C. reflexivity.
Defined.

(** ** The timeout of a subscription *)

Lemma fired_filter (h : hid) (t : list Obs) :
  fired h (List.filter is_wire_obs t) = fired h t.
Proof.
  induction t as [|o t IH]; [done|].
  destruct o; simpl; try exact IH; unfold fired in *; simpl;
    try (destruct (Nat.eqb _ _)); by rewrite IH.
Qed.

Lemma fired_app (h : hid) (t1 t2 : list Obs) : fired h (t1 ++ t2) = fired h t1 ++ fired h t2.
Proof. apply List.filter_app. Qed.

Section Disarmed.

Variables (h : hid) (n : nat).

Lemma disarmed_core (w w' : World) :
  core_view w' = core_view w → disarmed_inv h n w → disarmed_inv h n w'.
Proof.
  unfold core_view. intros [= _ _ Ht Htr] [Hc Hf]. split.
  - by rewrite Ht.
  - by rewrite <- (fired_filter h (trace w')), Htr, fired_filter.
Qed.

(** What changes neither the timers nor the calls of timeout callbacks
    keeps the invariant. *)
Lemma disarmed_frame (w w' : World) :
  timers w' = timers w → fired h (trace w') = fired h (trace w) →
  disarmed_inv h n w → disarmed_inv h n w'.
Proof. intros Ht Hf [Hc Hn]. split; by rewrite ?Ht, ?Hf. Qed.

Lemma disarmed_write (data : string) : keeps (disarmed_inv h n) (Client_.write data).
Proof.
  intros w Hw. unfold Client_.write, bind, get.
  destruct (_transport (client w)); [|exact Hw]. by apply (disarmed_frame w).
Qed.

Lemma disarmed_send (r : rid) :
  keeps (disarmed_inv h n) (bind (emit (wrote r)) (fun _ => Client_.queue_append r)).
Proof.
  intros w Hw. unfold Client_.queue_append, emit, modify, get, bind. simpl.
  assert (Hw' : disarmed_inv h n (set_trace (fun t => t ++ [wrote r]) w)).
  { apply (disarmed_frame w); [done| |done]. simpl. rewrite fired_app. simpl.
    by rewrite app_nil_r. }
  destruct (_active_queue (client w)); [|exact Hw'].
  by apply (disarmed_frame (set_trace (fun t => t ++ [wrote r]) w)).
Qed.

Lemma disarmed_pop (k : rid → M unit) :
  (∀ r, keeps (disarmed_inv h n) (k r)) →
  keeps (disarmed_inv h n)
        (bind Client_.queue_pop (fun r => bind (emit (replied r)) (fun _ => k r))).
Proof.
  intros Hk w Hw. unfold Client_.queue_pop, bind at 1 2, get.
  destruct (_active_queue (client w)) as [[|r rest]|]; [exact Hw| |exact Hw].
  cbv [emit modify bind ret]. apply keeps_apply; [apply Hk|].
  apply (disarmed_frame w); [done| |done]. simpl. rewrite fired_app. simpl.
  by rewrite app_nil_r.
Qed.

Lemma disarmed_call_later (d : Q) (r : rid) : keeps (disarmed_inv h n) (Loop.call_later d r).
Proof.
  intros w [(t & Ht & Hc) Hn]. split; [|exact Hn]. exists t. split; [|exact Hc].
  unfold Loop.call_later, bind, get, modify, ret. simpl.
  rewrite lookup_insert_ne; [exact Ht|].
  intros Heq. apply (is_fresh (dom (timers w))). rewrite Heq.
  apply elem_of_dom. by exists t.
Qed.

Lemma disarmed_cancel (h' : hid) : keeps (disarmed_inv h n) (Loop.cancel h').
Proof.
  intros w [(t & Ht & Hc) Hn]. split; [|exact Hn].
  unfold Loop.cancel, modify. simpl.
  destruct (timers w !! h') as [t'|] eqn:Ht'; [|by exists t].
  destruct (decide (h' = h)) as [->|Hne].
  - rewrite lookup_insert_eq. by eexists.
  - rewrite lookup_insert_ne by done. by exists t.
Qed.

Lemma disarmed_timer_due (h' : hid) : keeps (disarmed_inv h n) (Loop.timer_due h').
Proof.
  intros w [(t & Ht & Hc) Hn]. unfold Loop.timer_due, bind at 1, get.
  destruct (timers w !! h') as [t'|] eqn:Ht'; [|by split; [exists t|]].
  destruct (h_scheduled t'); [|by split; [exists t|]].
  split; [|exact Hn].
  unfold Future.call_soon, bind, modify. simpl.
  destruct (decide (h' = h)) as [->|Hne].
  - rewrite lookup_insert_eq. rewrite Ht in Ht'. injection Ht' as <-. by eexists.
  - rewrite lookup_insert_ne by done. by exists t.
Qed.

Lemma disarmed_run_timer (h' : hid) : keeps (disarmed_inv h n) (Loop.run_timer h').
Proof.
  intros w Hw. unfold Loop.run_timer, bind at 1, get.
  destruct (timers w !! h') as [t'|] eqn:Ht'; [|exact Hw].
  destruct (h_cancelled t') eqn:Hc'; [exact Hw|].
  unfold bind, emit, modify.
  apply (keeps_apply (disarmed_inv h n));
    [apply keeps_preserves with (view := core_view);
     [apply disarmed_core | apply core_set_result]|].
  apply (disarmed_frame w); [done| |done]. simpl. rewrite fired_app. simpl.
  destruct (Nat.eqb_spec h' h) as [->|Hne]; [|by rewrite app_nil_r].
  destruct Hw as [(t & Ht & Hc) _]. rewrite Ht in Ht'. injection Ht' as <-. congruence.
Qed.

Lemma disarmed_run0212 (actions : list Action) (w : World) :
  disarmed_inv h n w → disarmed_inv h n (run0212 actions w).
Proof.
  apply inv_run0212;
    [ apply disarmed_core | apply disarmed_write | apply disarmed_send | apply disarmed_pop
    | apply disarmed_call_later | apply disarmed_cancel | apply disarmed_timer_due
    | apply disarmed_run_timer ].
Qed.

Lemma disarmed_run033 (read_data : rid → string → M (option string))
    (actions : list Action033) (w : World) :
  (∀ r data, preserves core_view (read_data r data)) →
  disarmed_inv h n w → disarmed_inv h n (run033 read_data actions w).
Proof.
  intros Hrd. apply inv_run033;
    [ apply disarmed_core | apply disarmed_write | apply disarmed_send | apply disarmed_pop
    | apply disarmed_call_later | apply disarmed_cancel | apply disarmed_timer_due
    | apply disarmed_run_timer
    | intros r data; apply keeps_preserves with (view := core_view);
      [apply disarmed_core | apply Hrd] ].
Qed.

End Disarmed.

(** [Future.cancel] of a pending request. *)
Lemma cancel_pending (w : World) (r : rid) (req : Request) :
  requests w !! r = Some req → outcome req = Pending →
  Future.cancel r w = Ok true (settled_world r req Cancelled w).
Proof.
  intros Hr Hp.
  unfold Future.cancel, bind at 1. rewrite (lookup_ok _ _ _ Hr), Hp. cbn [Future.is_done].
  pose proof (settle_pending w r req Cancelled Hr Hp) as Hs.
  unfold Future.settle, bind at 1 in Hs. rewrite (lookup_ok _ _ _ Hr), Hp in Hs.
  cbn [Future.is_done] in Hs. unfold bind in *.
  destruct (Future.update r (set_outcome Cancelled) w) as [[] w1|]; [|discriminate].
  destruct (emit (settled r Cancelled) w1) as [[] w2|]; [|discriminate].
  destruct (Future.schedule_callbacks r w2) as [[] w3|]; [|discriminate].
  by injection Hs as ->.
Qed.

(** The loop runs [_cancel_timeout]: the timer is cancelled. *)
Lemma cancel_timeout_disarms (w : World) (r : rid) (req : Request) (h : hid) (t : TimerHandle) :
  requests w !! r = Some req → _timeout_handle req = Some h → timers w !! h = Some t →
  ∃ w', V0212.run_handle (HDone cancel_timeout r) w = Ok tt w'
        ∧ V033.run_handle (HDone cancel_timeout r) w = Ok tt w'
        ∧ disarmed_inv h (length (fired h (trace w))) w'.
Proof.
  intros Hr Hh Ht. eexists. split; [|split].
  - cbn [V0212.run_handle]. unfold _cancel_timeout, bind.
    rewrite (lookup_ok _ _ _ Hr), Hh. reflexivity.
  - cbn [V033.run_handle]. unfold _cancel_timeout, bind.
    rewrite (lookup_ok _ _ _ Hr), Hh. reflexivity.
  - split; [|reflexivity]. simpl. rewrite Ht. rewrite lookup_insert_eq. by eexists.
Qed.

(** The timer elapses after the subscription is done and before the
    loop has run [_cancel_timeout]: the callback is called, and changes
    nothing but the history. *)
Lemma timer_fires_done (w : World) (r : rid) (req : Request) (h : hid) (t : TimerHandle) :
  requests w !! r = Some req → Future.is_done (outcome req) = true →
  timers w !! h = Some t → h_request t = r → h_cancelled t = false →
  Loop.run_timer h w = Ok tt (set_trace (fun tr => tr ++ [timeout_cb h]) w).
Proof.
  intros Hr Hd Ht Hreq Hc. unfold Loop.run_timer, bind at 1, get. rewrite Ht, Hc, Hreq.
  unfold bind, emit, modify. by rewrite (set_result_done _ r req).
Qed.

(** The callback of a timer can be called after its subscription is
    resolved: here subscription 7 is resolved by the change of the player,
    and the callback of its timer 0 is called after that. *)
Lemma timeout_cb_after_resolution :
  armed (act0212 (Await 7) Scenario4.start) 7 0 30%Q
  ∧ trace (run0212 Scenario4.actions Scenario4.start)
    = [ replied 0; settled 0 (Result (VStr "0.23.5")); wrote 4; replied 4; decoded 4;
        settled 4 (Result (VList [VStr "player"]));
        settled 7 (Result (VInt Event.PLAYER)); timeout_cb 0 ]
  ∧ outcome_of (run0212 Scenario4.actions Scenario4.start) 7
    = Some (Result (VInt Event.PLAYER)).
Proof.
  split; [|split]; [|vm_compute; reflexivity|vm_compute; reflexivity].
  eexists. repeat split; try (vm_compute; reflexivity).
  vm_compute. repeat constructor.
Qed.

Lemma disarmed_never_again (h : hid) (n : nat) (w : World) :
  disarmed_inv h n w → never_again h n w.
Proof.
  intros [(t & Ht & Hc) Hn]. split; [|done].
  unfold Loop.run_timer, bind, get. by rewrite Ht, Hc.
Qed.

Lemma armed_resolving (w : World) (r : rid) (h : hid) (t : TimerHandle) (req : Request)
    (o : Outcome) :
  requests w !! r = Some req → _timeout_handle req = Some h → cancel_timeout ∈ _callbacks req →
  timers w !! h = Some t → h_request t = r → h_cancelled t = false →
  Future.is_done o = true →
  resolving (settled_world r req o w) r h o.
Proof.
  intros Hr Hh Hcb Ht Hq Hc Hd. split; [done|]. split; [|split].
  - eexists. split; [apply lookup_insert_eq|]. by split.
  - eexists. by split; [apply Ht|].
  - simpl. rewrite elem_of_app. right.
    apply list_elem_of_In, (in_map (fun cb => HDone cb r)), list_elem_of_In, Hcb.
Qed.

(** A resolved subscription whose timer is not cancelled yet: if the
    loop runs the handle of the timer, the callback is called and changes
    nothing; once the loop has run [_cancel_timeout], it is never called
    again, whatever happens on the connection. *)
Lemma resolving_disarms (w : World) (r : rid) (h : hid) (o : Outcome) :
  resolving w r h o →
  Loop.run_timer h w = Ok tt (set_trace (fun tr => tr ++ [timeout_cb h]) w)
  ∧ ∃ w', V0212.run_handle (HDone cancel_timeout r) w = Ok tt w'
          ∧ V033.run_handle (HDone cancel_timeout r) w = Ok tt w'
          ∧ (∀ actions, never_again h (length (fired h (trace w))) (run0212 actions w'))
          ∧ (∀ read_data actions,
               (∀ r' data, preserves core_view (read_data r' data)) →
               never_again h (length (fired h (trace w))) (run033 read_data actions w')).
Proof.
  intros (Hd & (req & Hr & Ho & Hh) & (t & Ht & Hreq & Hc) & _). split.
  - apply (timer_fires_done w r req h t); congruence.
  - destruct (cancel_timeout_disarms w r req h t Hr Hh Ht) as (w' & H1 & H2 & H3).
    exists w'. split; [done|]. split; [done|]. split.
    + intros actions. by apply disarmed_never_again, disarmed_run0212.
    + intros read_data actions Hrd. by apply disarmed_never_again, disarmed_run033.
Qed.

(** X3.  A subscription with a timeout that finds none of its
    events in the current state waits with its timer armed (first two
    parts, one for each release).  From there (third part): when the
    delay elapses and the loop runs the handle, the subscription
    resolves with exactly [TIMEOUT]; and however it resolves -- by the
    timeout, with a value, with an exception, by cancellation -- the
    cancellation of the timer is handed to the loop as a done callback,
    the timer itself being not cancelled yet.  From such a state (fourth
    part): if the loop runs the handle of the timer first, the callback
    is called and has no effect; once the loop has run
    [_cancel_timeout], the handle is skipped and the callback is never
    called again, in every run of either release. *)
Theorem timeout_resolves_and_disarms (w0 : World) (r : rid) (req : Request) (timeout : Q) :
  open_subscription w0 r req → _timeout req = Some timeout →
  let h := fresh (dom (timers w0)) in
  let st := _state (client w0) in
  (Z.land (current_events0212 st) (_event_mask req) = 0 →
   ∃ w, V0212.await_ r w0 = Ok None w ∧ wire_untouched w0 w ∧ armed w r h timeout)
  ∧ (Z.land (current_events033 st) (_event_mask req) = 0 →
     ∃ w, V033.await_ r w0 = Ok None w ∧ wire_untouched w0 w ∧ armed w r h timeout)
  ∧ (∀ w, armed w r h timeout →
       (∃ w', bind (Loop.timer_due h) (fun _ => Loop.run_timer h) w = Ok tt w'
              ∧ resolving w' r h (Result (VInt Event.TIMEOUT))
              ∧ trace w' = trace w ++ [timeout_cb h; settled r (Result (VInt Event.TIMEOUT))])
       ∧ (∀ v, ∃ w', Request_.set_result r v w = Ok tt w' ∧ resolving w' r h (Result v))
       ∧ (∀ e, ∃ w', Future.set_exception r e w = Ok tt w' ∧ resolving w' r h (Exception e))
       ∧ (∃ w', Future.cancel r w = Ok true w' ∧ resolving w' r h Cancelled))
  ∧ (∀ w o, resolving w r h o →
       Loop.run_timer h w = Ok tt (set_trace (fun tr => tr ++ [timeout_cb h]) w)
       ∧ ∃ w', V0212.run_handle (HDone cancel_timeout r) w = Ok tt w'
               ∧ V033.run_handle (HDone cancel_timeout r) w = Ok tt w'
               ∧ (∀ actions, never_again h (length (fired h (trace w))) (run0212 actions w'))
               ∧ (∀ read_data actions,
                    (∀ r' data, preserves core_view (read_data r' data)) →
                    never_again h (length (fired h (trace w)))
                                (run033 read_data actions w'))).
Proof.
  intros Hopen Ht h st. split; [|split; [|split]].
  - apply (subscription_arms V0212._current_events V0212._send current_events0212
             current_events0212_ok current_events0212_no_timeout w0 r req timeout Hopen Ht).
  - apply (subscription_arms V033._current_events V033._send current_events033
             current_events033_ok current_events033_no_timeout w0 r req timeout Hopen Ht).
  - intros w (rq & Hr & Hp & Hh & Hcb & Hm & Htm). split; [|split; [|split]].
    + unfold bind at 1, Loop.timer_due, bind at 1, get. rewrite Htm. cbn [h_scheduled].
      unfold bind at 1, modify, Future.call_soon, modify.
      unfold Loop.run_timer, bind at 1, get. simpl. rewrite lookup_insert_eq.
      cbn [h_cancelled]. unfold bind at 1, emit, modify.
      rewrite (set_result_pending _ r rq) by done.
      eexists. split; [reflexivity|]. split.
      * eapply (armed_resolving _ r h _ rq); try done; [simpl; apply lookup_insert_eq|done|done].
      * simpl. by rewrite <- app_assoc.
    + intros v. eexists. split; [by apply set_result_pending|].
      by eapply (armed_resolving w r h _ rq).
    + intros e. eexists. split; [by apply settle_pending|].
      by eapply (armed_resolving w r h _ rq).
    + eexists. split; [by apply cancel_pending|].
      by eapply (armed_resolving w r h _ rq).
  - intros w o. apply resolving_disarms.
Qed.

Lemma timeout_resolves_and_disarms_witness :
  open_subscription Scenario4.start 7 (Scenario.subscription Event.PLAYER (Some 30%Q))
  ∧ ∃ w, V0212.await_ 7 Scenario4.start = Ok None w
         ∧ wire_untouched Scenario4.start w
         ∧ armed w 7 (fresh (dom (timers Scenario4.start))) 30%Q
         ∧ ∃ w', bind (Loop.timer_due (fresh (dom (timers Scenario4.start))))
                      (fun _ => Loop.run_timer (fresh (dom (timers Scenario4.start)))) w
                 = Ok tt w'
                 ∧ resolving w' 7 (fresh (dom (timers Scenario4.start)))
                             (Result (VInt Event.TIMEOUT)).
Proof.
  assert (Ho : open_subscription Scenario4.start 7
                 (Scenario.subscription Event.PLAYER (Some 30%Q))).
  { repeat split; try reflexivity. eexists. split; reflexivity. }
  split; [exact Ho|].
  destruct (timeout_resolves_and_disarms Scenario4.start 7 _ 30%Q Ho eq_refl) as (A & _ & B & _).
  destruct (A eq_refl) as (w & H1 & H2 & H3).
  exists w. split; [exact H1|]. split; [exact H2|]. split; [exact H3|].
  destruct (B w H3) as ((w' & H4 & H5 & _) & _).
  exists w'. split; [exact H4 | exact H5].
Defined.

(** ** Closing an executor *)

Lemma fail_request_failed (w : World) (r : rid) :
  is_Some (requests w !! r) →
  V033.fail_request r w = Ok tt (failed (Exception ConnectionError) r w).
Proof.
  intros [req Hr]. unfold V033.fail_request, Future.done, failed, bind, ret.
  rewrite (lookup_ok _ _ _ Hr), Hr.
  destruct (Future.is_done (outcome req)) eqn:Hd; [done|]. simpl.
  apply settle_pending; [done|]. by destruct (outcome req).
Qed.

Lemma cancel_failed (w : World) (r : rid) :
  is_Some (requests w !! r) →
  bind (Future.cancel r) (fun _ => ret tt) w = Ok tt (failed Cancelled r w).
Proof.
  intros [req Hr]. unfold failed. rewrite Hr.
  destruct (Future.is_done (outcome req)) eqn:Hd.
  - unfold Future.cancel, bind, ret. by rewrite (lookup_ok _ _ _ Hr), Hd.
  - unfold bind at 1. rewrite (cancel_pending w r req); [done|done|].
    by destruct (outcome req).
Qed.

Lemma outcomes_fail_refl (how : Outcome) (w : World) : outcomes_fail how w w.
Proof. intros r o H. by left. Qed.

Lemma outcomes_fail_trans (how : Outcome) (w1 w2 w3 : World) :
  Future.is_done how = true →
  outcomes_fail how w1 w2 → outcomes_fail how w2 w3 → outcomes_fail how w1 w3.
Proof.
  intros Hh H12 H23 r o H1. destruct (H12 r o H1) as [H2|[-> H2]].
  - apply (H23 r o H2).
  - destruct (H23 r how H2) as [H3|[-> _]]; [by right|done].
Qed.

Lemma outcomes_fail_exists (how : Outcome) (w w' : World) (r : rid) :
  outcomes_fail how w w' → is_Some (requests w !! r) → is_Some (requests w' !! r).
Proof.
  intros H [req Hr]. assert (Ho : outcome_of w r = Some (outcome req)).
  { unfold outcome_of. by rewrite Hr. }
  assert (Hs : is_Some (outcome_of w' r)) by (destruct (H r _ Ho) as [H'|[_ H']]; eauto).
  unfold outcome_of in Hs. destruct (requests w' !! r); [eauto|by destruct Hs].
Qed.

Lemma outcomes_fail_done (how : Outcome) (w w' : World) (r : rid) (o : Outcome) :
  outcomes_fail how w w' → Future.is_done o = true →
  outcome_of w r = Some o → outcome_of w' r = Some o.
Proof. intros H Hd Ho. by destruct (H r o Ho) as [H'|[-> H']]. Qed.

Section Failed.

Variable how : Outcome.
Hypothesis how_done : Future.is_done how = true.

Lemma failed_fields (r : rid) (w : World) :
  executors (failed how r w) = executors w ∧ client (failed how r w) = client w.
Proof.
  unfold failed. destruct (requests w !! r) as [req|]; [|done].
  by destruct (Future.is_done (outcome req)).
Qed.

Lemma failed_outcomes (r : rid) (w : World) : outcomes_fail how w (failed how r w).
Proof.
  unfold failed. destruct (requests w !! r) as [req|] eqn:Hr; [|apply outcomes_fail_refl].
  destruct (Future.is_done (outcome req)) eqn:Hd; [apply outcomes_fail_refl|].
  intros r' o Ho. unfold outcome_of in *. simpl.
  destruct (decide (r' = r)) as [->|Hne].
  - right. rewrite lookup_insert_eq. rewrite Hr in Ho. injection Ho as <-.
    split; [by destruct (outcome req)|done].
  - left. by rewrite lookup_insert_ne.
Qed.

Lemma failed_own (r : rid) (w : World) :
  outcome_of w r = Some Pending → outcome_of (failed how r w) r = Some how.
Proof.
  unfold failed, outcome_of. destruct (requests w !! r) as [req|] eqn:Hr; [|done].
  simpl. intros [= Hp]. rewrite Hp. simpl. by rewrite lookup_insert_eq.
Qed.

Lemma failed_trace (r : rid) (w : World) :
  trace (failed how r w) = trace w ∨ trace (failed how r w) = trace w ++ [settled r how].
Proof.
  unfold failed. destruct (requests w !! r) as [req|]; [|by left].
  destruct (Future.is_done (outcome req)); [by left|by right].
Qed.

Lemma failed_all_fields (rs : list rid) (w : World) :
  executors (failed_all how rs w) = executors w ∧ client (failed_all how rs w) = client w.
Proof.
  revert w. induction rs as [|r rs IH]; intros w; [done|]. simpl.
  destruct (IH (failed how r w)) as [-> ->]. apply failed_fields.
Qed.

Lemma failed_all_outcomes (rs : list rid) (w : World) :
  outcomes_fail how w (failed_all how rs w).
Proof.
  revert w. induction rs as [|r rs IH]; intros w; [apply outcomes_fail_refl|]. simpl.
  eapply outcomes_fail_trans; [done|apply failed_outcomes|apply IH].
Qed.

Lemma failed_all_own (rs : list rid) (w : World) (r : rid) :
  r ∈ rs → outcome_of w r = Some Pending → outcome_of (failed_all how rs w) r = Some how.
Proof.
  revert w. induction rs as [|r' rs IH]; intros w Hin Hp; [by apply elem_of_nil in Hin|].
  simpl. apply elem_of_cons in Hin as [->|Hin].
  - apply (outcomes_fail_done how (failed how r' w)); [apply failed_all_outcomes|done|].
    by apply failed_own.
  - destruct (failed_outcomes r' w r Pending Hp) as [H|[_ H]].
    + by apply IH.
    + apply (outcomes_fail_done how (failed how r' w)); [apply failed_all_outcomes|done|done].
Qed.

Lemma failed_all_trace (rs : list rid) (w : World) :
  ∃ tr, trace (failed_all how rs w) = trace w ++ tr
        ∧ Forall (fun o => ∃ r, r ∈ rs ∧ o = settled r how) tr.
Proof.
  revert w. induction rs as [|r rs IH]; intros w.
  - exists []. split; [by rewrite app_nil_r|constructor].
  - simpl. destruct (IH (failed how r w)) as (tr & Htr & Hall).
    assert (Hall' : Forall (fun o => ∃ r0, r0 ∈ r :: rs ∧ o = settled r0 how) tr).
    { eapply Forall_impl; [exact Hall|]. intros o (r0 & Hin & ->). exists r0.
      split; [by apply elem_of_cons; right|done]. }
    destruct (failed_trace r w) as [Ht|Ht]; rewrite Htr, Ht.
    + by exists tr.
    + exists (settled r how :: tr). split; [by rewrite <- app_assoc|].
      constructor; [|done]. exists r. split; [by apply elem_of_cons; left|done].
Qed.

Variable fail : rid → M unit.
Hypothesis fail_failed :
  ∀ r w, is_Some (requests w !! r) → fail r w = Ok tt (failed how r w).

Lemma for_each_fail (rs : list rid) (w : World) :
  Forall (fun r => is_Some (requests w !! r)) rs →
  for_each rs fail w = Ok tt (failed_all how rs w).
Proof.
  revert w. induction rs as [|r rs IH]; intros w Hall; [done|].
  apply Forall_cons in Hall as [Hr Hall]. simpl. unfold bind.
  rewrite (fail_failed r w Hr). apply IH.
  eapply Forall_impl; [exact Hall|]. intros r'.
  apply outcomes_fail_exists with (how := how), failed_outcomes.
Qed.

End Failed.

Lemma list_remove_head (x : nat) (l : list nat) : PyStr.list_remove x (x :: l) = Some l.
Proof. simpl. by rewrite Nat.eqb_refl. Qed.

Lemma list_remove_elem (x : nat) (l : list nat) :
  x ∈ l → is_Some (PyStr.list_remove x l).
Proof.
  induction l as [|y l IH]; intros Hin; [by apply elem_of_nil in Hin|]. simpl.
  destruct (Nat.eqb_spec y x) as [->|Hne]; [eauto|].
  apply elem_of_cons in Hin as [->|Hin]; [done|].
  destruct (IH Hin) as [l' ->]. eauto.
Qed.

(** [detach] of an executor without parent. *)
Lemma detach_root (w : World) (e : eid) (ex : Executor) :
  executors w !! e = Some ex → _parent ex = None →
  Executor_.detach e w
  = Ok tt (set_trace (fun t => t ++ [closed_executor e])
             (set_executors (insert e (detached ex)) w)).
Proof.
  intros He Hp. unfold Executor_.detach, bind at 1. rewrite (executor_lookup_ok _ _ _ He).
  cbv beta. rewrite Hp.
  unfold bind at 1, ret. unfold bind at 1.
  rewrite (executor_update_ok _ _ _ _ He). unfold bind.
  erewrite executor_update_ok by (simpl; apply lookup_insert_eq).
  unfold emit, modify, set_trace, set_executors. simpl.
  rewrite !insert_insert_eq.
  unfold detached, Executor_.set_cb_funcs, Executor_.clear_client. simpl. by rewrite Hp.
Qed.

(** [detach] of an executor listed by its parent. *)
Lemma detach_child (w : World) (e p : eid) (ex px : Executor) (l : list eid) :
  executors w !! e = Some ex → _parent ex = Some p → e ≠ p →
  executors w !! p = Some px → PyStr.list_remove e (_children px) = Some l →
  Executor_.detach e w
  = Ok tt (set_trace (fun t => t ++ [closed_executor e])
             (set_executors
                (fun m => <[e := detached ex]> (<[p := Executor_.set_children l px]> m)) w)).
Proof.
  intros He Hp Hne Hpx Hl.
  unfold Executor_.detach, bind at 1. rewrite (executor_lookup_ok _ _ _ He).
  cbv beta. rewrite Hp.
  unfold bind at 1, bind at 1, bind at 1. rewrite (executor_lookup_ok _ _ _ Hpx).
  cbv beta. rewrite Hl.
  rewrite (executor_update_ok _ _ _ _ Hpx).
  erewrite executor_update_ok by (simpl; rewrite lookup_insert_ne by done; exact He).
  unfold bind at 1.
  erewrite executor_update_ok by (simpl; apply lookup_insert_eq).
  unfold bind.
  erewrite executor_update_ok by (simpl; apply lookup_insert_eq).
  unfold emit, modify, set_trace, set_executors. simpl.
  by rewrite !insert_insert_eq.
Qed.

Lemma requests_of_lookup (w : World) (e : eid) (ex : Executor) :
  executors w !! e = Some ex → requests_of w e = _requests ex.
Proof. intros H. unfold requests_of. by rewrite H. Qed.

Lemma forest_ok_frame (w w' : World) (p : eid) (f : Forest) :
  (∀ x, x ∈ nodes f → executors w' !! x = executors w !! x) →
  (∀ r, is_Some (requests w !! r) → is_Some (requests w' !! r)) →
  forest_ok w p f → forest_ok w' p f.
Proof.
  revert p. induction f as [|e ch IHch sib IHsib]; intros p Hex Hreq; [done|].
  simpl. intros ((ex & He & Hc & Hp & Hch & Hrs) & Hok1 & Hok2). split; [|split].
  - exists ex. rewrite Hex by (simpl; apply elem_of_cons; by left).
    repeat (split; [done|]). eapply Forall_impl; [exact Hrs|]. intros r. apply Hreq.
  - apply IHch; [|done|done]. intros x Hx. apply Hex. simpl.
    apply elem_of_cons. right. apply elem_of_app. by left.
  - apply IHsib; [|done|done]. intros x Hx. apply Hex. simpl.
    apply elem_of_cons. right. apply elem_of_app. by right.
Qed.

Lemma closes_ext (how : Outcome) (owned owned' : eid → list rid) (f : Forest)
    (tr : list Obs) :
  (∀ x, owned x = owned' x) → closes how owned f tr → closes how owned' f tr.
Proof.
  intros Hext. revert tr. induction f as [|e ch IHch sib IHsib]; intros tr; [done|].
  simpl. intros (tr1 & tr2 & tr3 & -> & H1 & H2 & H3).
  exists tr1, tr2, tr3. split; [done|]. split; [by apply IHch|]. split; [|by apply IHsib].
  by rewrite <- Hext.
Qed.

Section CloseForest.

Variable how : Outcome.
Hypothesis how_done : Future.is_done how = true.
Variable fail : rid → M unit.
Hypothesis fail_failed :
  ∀ r w, is_Some (requests w !! r) → fail r w = Ok tt (failed how r w).

(** An executor whose children are closed: its own requests are failed
    and it is detached from its parent. *)
Lemma close_own (w : World) (e p : eid) (ex px : Executor) (l : list eid) :
  executors w !! e = Some ex → _parent ex = Some p → e ≠ p →
  executors w !! p = Some px → PyStr.list_remove e (_children px) = Some l →
  Forall (fun r => is_Some (requests w !! r)) (_requests ex) →
  ∃ w', bind (Executor_.lookup e)
             (fun ex' => bind (for_each (_requests ex') fail)
                              (fun _ => Executor_.detach e)) w = Ok tt w'
        ∧ executors w' = <[e := detached ex]> (<[p := Executor_.set_children l px]> (executors w))
        ∧ client w' = client w
        ∧ outcomes_fail how w w'
        ∧ (∀ r, r ∈ _requests ex → outcome_of w r = Some Pending → outcome_of w' r = Some how)
        ∧ ∃ tr, trace w' = trace w ++ tr ++ [closed_executor e]
                ∧ Forall (fun o => ∃ r, r ∈ _requests ex ∧ o = settled r how) tr.
Proof.
  intros He Hpar Hne Hp Hl Hrs.
  unfold bind at 1. rewrite (executor_lookup_ok _ _ _ He). unfold bind at 1.
  rewrite (for_each_fail how fail fail_failed _ _ Hrs).
  destruct (failed_all_fields how (_requests ex) w) as [Hex Hcl].
  rewrite (detach_child _ e p ex px l) by (try rewrite Hex; done).
  eexists. split; [reflexivity|]. simpl. rewrite Hex, Hcl.
  split; [done|]. split; [done|]. split; [|split].
  - intros r o Ho. apply (failed_all_outcomes how how_done (_requests ex) w r o Ho).
  - intros r Hin Hpend. by apply (failed_all_own how how_done).
  - destruct (failed_all_trace how (_requests ex) w) as (tr & Htr & Hall).
    exists tr. split; [|done]. by rewrite Htr, <- app_assoc.
Qed.

Lemma close_children_step (w : World) (p : eid) (px : Executor) (child : eid)
    (rest : list eid) (fuel : nat) :
  executors w !! p = Some px → _children px = child :: rest →
  Executor_.close_children fail (S fuel) p w
  = bind (Executor_.close fail fuel child)
         (fun _ => Executor_.close_children fail fuel p) w.
Proof.
  intros Hp Hch. cbn [Executor_.close_children]. unfold bind at 1.
  rewrite (executor_lookup_ok _ _ _ Hp). cbv beta. by rewrite Hch.
Qed.

Lemma close_step (w : World) (e : eid) (ex : Executor) (c : ClientRef) (fuel : nat) :
  executors w !! e = Some ex → _client ex = Some c →
  Executor_.close fail (S fuel) e w
  = bind (Executor_.close_children fail fuel e)
         (fun _ => bind (Executor_.lookup e)
                        (fun ex' => bind (for_each (_requests ex') fail)
                                         (fun _ => Executor_.detach e))) w.
Proof.
  intros He Hc. cbn [Executor_.close]. unfold bind at 1.
  rewrite (executor_lookup_ok _ _ _ He). cbv beta. by rewrite Hc.
Qed.

Lemma close_children_forest (f : Forest) :
  ∀ (p : eid) (px : Executor) (w : World) (fuel : nat),
    executors w !! p = Some px → _children px = roots f → forest_ok w p f →
    NoDup (p :: nodes f) → (2 * length (nodes f) + 1 ≤ fuel)%nat →
    ∃ w', Executor_.close_children fail fuel p w = Ok tt w'
          ∧ closed_below how p px f w w'.
Proof.
  induction f as [|e ch IHch sib IHsib]; intros p px w fuel Hp Hch Hok Hnd Hfuel.
  - destruct fuel as [|fuel]; [simpl in Hfuel; lia|].
    exists w. split.
    + simpl. unfold bind. by rewrite (executor_lookup_ok _ _ _ Hp), Hch.
    + split; [|split; [|split; [|split; [|split; [|split; [|split]]]]]]; try done.
      * rewrite Hp. f_equal. destruct px; simpl in *. by subst.
      * intros x Hx. by apply elem_of_nil in Hx.
      * apply outcomes_fail_refl.
      * intros x r Hx. by apply elem_of_nil in Hx.
      * exists []. split; [by rewrite app_nil_r|done].
  - simpl in Hok. destruct Hok as ((ex & He & Hc & Hpar & Hchildren & Hrs) & Hok1 & Hok2).
    simpl in Hnd, Hfuel. rewrite length_app in Hfuel.
    destruct fuel as [|[|fuel]]; [lia|lia|].
    (* names apart *)
    apply NoDup_cons in Hnd as [Hp_notin Hnd].
    apply NoDup_cons in Hnd as [He_notin Hnd].
    apply NoDup_app in Hnd as (Hnd_ch & Hdisj & Hnd_sib).
    assert (Hep : e ≠ p).
    { intros ->. apply Hp_notin. apply elem_of_cons. by left. }
    assert (Hp_ch : p ∉ nodes ch).
    { intros H. apply Hp_notin. apply elem_of_cons. right. apply elem_of_app. by left. }
    assert (Hp_sib : p ∉ nodes sib).
    { intros H. apply Hp_notin. apply elem_of_cons. right. apply elem_of_app. by right. }
    assert (He_ch : e ∉ nodes ch).
    { intros H. apply He_notin. apply elem_of_app. by left. }
    assert (He_sib : e ∉ nodes sib).
    { intros H. apply He_notin. apply elem_of_app. by right. }
    (* the children of [e] *)
    destruct (IHch e ex w fuel He Hchildren Hok1) as (w1 & Hrun1 & Post1);
      [by apply NoDup_cons | lia |].
    destruct Post1 as (E1 & C1 & F1 & K1 & O1 & R1 & W1 & tr1 & T1 & S1).
    (* [e] itself *)
    assert (Hp1 : executors w1 !! p = Some px) by (rewrite F1; done).
    destruct (close_own w1 e p (Executor_.set_children [] ex) px (roots sib))
      as (w3 & Hrun3 & E3 & K3 & O3 & W3 & tr2 & T3 & S3); try done.
    { rewrite Hch. apply list_remove_head. }
    { simpl. eapply Forall_impl; [exact Hrs|]. intros r.
      by apply outcomes_fail_exists with (how := how). }
    simpl in W3, S3.
    assert (O13 : outcomes_fail how w w3) by (by apply (outcomes_fail_trans how w w1 w3)).
    (* the siblings of [e] *)
    assert (Hp3 : executors w3 !! p = Some (Executor_.set_children (roots sib) px)).
    { rewrite E3, lookup_insert_ne by done. apply lookup_insert_eq. }
    assert (F3 : ∀ x, x ≠ e → x ≠ p → executors w3 !! x = executors w1 !! x).
    { intros x Hxe Hxp. rewrite E3. by rewrite !lookup_insert_ne. }
    destruct (IHsib p (Executor_.set_children (roots sib) px) w3 (S fuel) Hp3 eq_refl)
      as (w4 & Hrun4 & Post4); [| by apply NoDup_cons | lia |].
    { apply (forest_ok_frame w); [| |done].
      - intros x Hx. rewrite F3, F1; try done.
        + intros ->. by apply He_sib.
        + intros Hx'. by apply (Hdisj x).
        + intros ->. by apply He_sib.
        + intros ->. by apply Hp_sib.
      - intros r. by apply outcomes_fail_exists with (how := how). }
    destruct Post4 as (E4 & C4 & F4 & K4 & O4 & R4 & W4 & tr4 & T4 & S4).
    assert (R3 : ∀ x, requests_of w3 x = requests_of w1 x).
    { intros x. unfold requests_of. rewrite E3.
      destruct (decide (x = e)) as [->|Hxe]; [by rewrite lookup_insert_eq, E1|].
      rewrite lookup_insert_ne by done.
      destruct (decide (x = p)) as [->|Hxp]; [by rewrite lookup_insert_eq, Hp1|].
      by rewrite lookup_insert_ne. }
    exists w4. split.
    + rewrite (close_children_step w p px e (roots sib) (S fuel) Hp Hch).
      unfold bind at 1. rewrite (close_step w e ex the_client fuel He Hc).
      unfold bind at 1. rewrite Hrun1. rewrite Hrun3. exact Hrun4.
    + split; [|split; [|split; [|split; [|split; [|split; [|split]]]]]].
      * by rewrite E4.
      * intros x Hx. simpl in Hx. apply elem_of_cons in Hx as [->|Hx];
          [|apply elem_of_app in Hx as [Hx|Hx]].
        -- exists (detached (Executor_.set_children [] ex)).
           split; [|done]. rewrite F4 by done. rewrite E3. apply lookup_insert_eq.
        -- destruct (C1 x Hx) as (ex' & Hx1 & Hcl). exists ex'. split; [|done].
           rewrite F4, F3; try done.
           ++ intros ->. by apply He_ch.
           ++ intros ->. by apply Hp_ch.
           ++ intros ->. by apply Hp_ch.
           ++ intros Hx'. by apply (Hdisj x).
        -- by apply C4.
      * intros x Hxp Hx. simpl in Hx.
        assert (Hxe : x ≠ e) by (intros ->; apply Hx, elem_of_cons; by left).
        assert (Hx_ch : x ∉ nodes ch).
        { intros H. apply Hx, elem_of_cons. right. apply elem_of_app. by left. }
        assert (Hx_sib : x ∉ nodes sib).
        { intros H. apply Hx, elem_of_cons. right. apply elem_of_app. by right. }
        rewrite F4, F3, F1; done.
      * by rewrite K4, K3, K1.
      * by apply (outcomes_fail_trans how w w3 w4).
      * intros x. by rewrite R4, R3, R1.
      * intros x r Hx Hr Hpend. simpl in Hx.
        assert (Hkeep : outcome_of w3 r = Some how → outcome_of w4 r = Some how).
        { by apply (outcomes_fail_done how w3 w4). }
        apply elem_of_cons in Hx as [->|Hx]; [|apply elem_of_app in Hx as [Hx|Hx]].
        -- apply Hkeep. rewrite (requests_of_lookup _ _ _ He) in Hr.
           destruct (O1 r Pending Hpend) as [H1|[_ H1]].
           ++ by apply W3.
           ++ by apply (outcomes_fail_done how w1 w3).
        -- apply Hkeep. apply (outcomes_fail_done how w1 w3); [done|done|].
           by apply (W1 x).
        -- destruct (O13 r Pending Hpend) as [H3|[_ H3]]; [|by apply Hkeep].
           apply (W4 x); [done| |done]. by rewrite R3, R1.
      * exists (tr1 ++ tr2 ++ closed_executor e :: tr4). split.
        -- rewrite T4, T3, T1. by rewrite <- !app_assoc.
        -- simpl. exists tr1, tr2, tr4. split; [done|]. split; [done|]. split.
           ++ by rewrite (requests_of_lookup _ _ _ He).
           ++ apply (closes_ext how (requests_of w3)); [|done].
              intros x. by rewrite R3, R1.
Qed.

(** The same for an executor without parent. *)
Lemma close_own_root (w : World) (e : eid) (ex : Executor) :
  executors w !! e = Some ex → _parent ex = None →
  Forall (fun r => is_Some (requests w !! r)) (_requests ex) →
  ∃ w', bind (Executor_.lookup e)
             (fun ex' => bind (for_each (_requests ex') fail)
                              (fun _ => Executor_.detach e)) w = Ok tt w'
        ∧ executors w' = <[e := detached ex]> (executors w)
        ∧ client w' = client w
        ∧ outcomes_fail how w w'
        ∧ (∀ r, r ∈ _requests ex → outcome_of w r = Some Pending → outcome_of w' r = Some how)
        ∧ ∃ tr, trace w' = trace w ++ tr ++ [closed_executor e]
                ∧ Forall (fun o => ∃ r, r ∈ _requests ex ∧ o = settled r how) tr.
Proof.
  intros He Hpar Hrs.
  unfold bind at 1. rewrite (executor_lookup_ok _ _ _ He). unfold bind at 1.
  rewrite (for_each_fail how fail fail_failed _ _ Hrs).
  destruct (failed_all_fields how (_requests ex) w) as [Hex Hcl].
  rewrite (detach_root _ e ex) by (try rewrite Hex; done).
  eexists. split; [reflexivity|]. simpl. rewrite Hex, Hcl.
  split; [done|]. split; [done|]. split; [|split].
  - intros r o Ho. apply (failed_all_outcomes how how_done (_requests ex) w r o Ho).
  - intros r Hin Hpend. by apply (failed_all_own how how_done).
  - destruct (failed_all_trace how (_requests ex) w) as (tr & Htr & Hall).
    exists tr. split; [|done]. by rewrite Htr, <- app_assoc.
Qed.

(** The first [close] of an open executor. *)
Lemma close_tree (w : World) (e : eid) (ch : Forest) (fuel : nat) :
  open_tree w e ch → (2 * length (nodes ch) + 2 ≤ fuel)%nat →
  ∃ w', Executor_.close fail fuel e w = Ok tt w' ∧ tree_closed how e ch w w'.
Proof.
  intros (Hnd & Hok & ex & He & Hc & Hch & Hrs & Hpar) Hfuel.
  destruct fuel as [|fuel]; [lia|].
  destruct (close_children_forest ch e ex w fuel He Hch Hok Hnd) as (w1 & Hrun1 & Post1);
    [lia|].
  destruct Post1 as (E1 & C1 & F1 & K1 & O1 & R1 & W1 & tr1 & T1 & S1).
  assert (Hrs1 : Forall (fun r => is_Some (requests w1 !! r))
                        (_requests (Executor_.set_children [] ex))).
  { simpl. eapply Forall_impl; [exact Hrs|]. intros r.
    by apply outcomes_fail_exists with (how := how). }
  assert (Hown : ∃ w', bind (Executor_.lookup e)
                   (fun ex' => bind (for_each (_requests ex') fail)
                                    (fun _ => Executor_.detach e)) w1 = Ok tt w'
            ∧ (∀ x, x ≠ e → x ∈ nodes ch → executors w' !! x = executors w1 !! x)
            ∧ executors w' !! e = Some (detached (Executor_.set_children [] ex))
            ∧ client w' = client w1
            ∧ outcomes_fail how w1 w'
            ∧ (∀ r, r ∈ _requests ex → outcome_of w1 r = Some Pending →
                    outcome_of w' r = Some how)
            ∧ ∃ tr, trace w' = trace w1 ++ tr ++ [closed_executor e]
                    ∧ Forall (fun o => ∃ r, r ∈ _requests ex ∧ o = settled r how) tr).
  { destruct (_parent ex) as [p|] eqn:Hp.
    - destruct Hpar as (Hp_notin & px & Hpx & Hin).
      assert (Hep : e ≠ p) by (intros ->; apply Hp_notin, elem_of_cons; by left).
      assert (Hp_ch : p ∉ nodes ch).
      { intros H. apply Hp_notin, elem_of_cons. by right. }
      destruct (list_remove_elem e (_children px) Hin) as [l Hl].
      destruct (close_own w1 e p (Executor_.set_children [] ex) px l)
        as (w3 & Hrun3 & E3 & K3 & O3 & W3 & tr2 & T3 & S3); try done.
      { by rewrite F1. }
      exists w3. split; [done|]. split; [|split; [|by eauto 10]].
      + intros x Hxe Hx. rewrite E3. rewrite !lookup_insert_ne; [done| |done].
        intros ->. by apply Hp_ch.
      + rewrite E3. apply lookup_insert_eq.
    - destruct (close_own_root w1 e (Executor_.set_children [] ex))
        as (w3 & Hrun3 & E3 & K3 & O3 & W3 & tr2 & T3 & S3); try done.
      exists w3. split; [done|]. split; [|split; [|by eauto 10]].
      + intros x Hxe Hx. rewrite E3. by rewrite lookup_insert_ne.
      + rewrite E3. apply lookup_insert_eq. }
  destruct Hown as (w3 & Hrun3 & F3 & E3 & K3 & O3 & W3 & tr2 & T3 & S3).
  exists w3. split.
  - rewrite (close_step w e ex the_client fuel He Hc).
    unfold bind at 1. by rewrite Hrun1.
  - apply NoDup_cons in Hnd as [He_ch _].
    split; [|split; [|split; [|split]]].
    + intros x Hx. apply elem_of_cons in Hx as [->|Hx].
      * by eexists.
      * destruct (C1 x Hx) as (ex' & Hx1 & Hcl). exists ex'. split; [|done].
        rewrite F3; [done| |done]. intros ->. by apply He_ch.
    + intros x r Hx Hr Hpend. apply elem_of_cons in Hx as [->|Hx].
      * rewrite (requests_of_lookup _ _ _ He) in Hr.
        destruct (O1 r Pending Hpend) as [H1|[_ H1]].
        -- by apply W3.
        -- by apply (outcomes_fail_done how w1 w3).
      * apply (outcomes_fail_done how w1 w3); [done|done|]. by apply (W1 x).
    + by apply (outcomes_fail_trans how w w1 w3).
    + by rewrite K3, K1.
    + exists tr1, tr2. split; [|split; [done|]].
      * rewrite T3, T1. by rewrite <- !app_assoc.
      * by rewrite (requests_of_lookup _ _ _ He).
Qed.

(** [close] of a closed executor returns at once. *)
Lemma close_closed (w : World) (e : eid) (fuel : nat) :
  is_closed w e → Executor_.close fail (S fuel) e w = Ok tt w.
Proof.
  intros (ex & He & Hc). cbn [Executor_.close]. unfold bind.
  by rewrite (executor_lookup_ok _ _ _ He), Hc.
Qed.

End CloseForest.

(** [_log_request] on a closed executor. *)
Lemma log_request_closed (_wait _send : rid → M unit) (w : World) (e : eid) (r : rid) :
  is_closed w e → Client_._log_request _wait _send e r w = Raise ConnectionError w.
Proof.
  intros (ex & He & Hc). unfold Client_._log_request, bind.
  by rewrite (executor_lookup_ok _ _ _ He), Hc.
Qed.

Lemma request_await_closed (_wait _send : rid → M unit) (w : World) (r : rid)
    (req : Request) :
  requests w !! r = Some req → is_closed w (_executor req) →
  Request_await (Client_._log_request _wait _send) r w = Raise ConnectionError w.
Proof.
  intros Hr Hc. unfold Request_await, bind at 1. rewrite (lookup_ok _ _ _ Hr).
  unfold bind. by rewrite (log_request_closed _ _ _ _ _ Hc).
Qed.

(** The first statements of [RequestPassive.__await__] touch the timers,
    the request and the ready queue, and nothing else. *)
Lemma passive_arming (L : eid → rid → M unit) (w : World) (r : rid) (req : Request) :
  requests w !! r = Some req →
  ∃ w' req', RequestPassive_await L r w = Request_await L r w'
             ∧ requests w' !! r = Some req'
             ∧ _executor req' = _executor req
             ∧ executors w' = executors w
             ∧ client w' = client w
             ∧ trace w' = trace w.
Proof.
  intros Hr. unfold RequestPassive_await, bind at 1. rewrite (lookup_ok _ _ _ Hr).
  cbv beta. destruct (_timeout req) as [timeout|]; [|by exists w, req].
  unfold bind at 1 2. unfold Loop.call_later, bind at 1 2, get, modify, ret.
  unfold bind at 1. rewrite (update_ok _ r req) by exact Hr.
  unfold bind at 1.
  rewrite (update_ok _ r (set_timeout_handle (Some (fresh (dom (timers w)))) req))
    by apply lookup_insert_eq.
  unfold Future.add_done_callback, bind at 1.
  erewrite lookup_ok by (simpl; apply lookup_insert_eq).
  cbn [outcome set_event_mask set_timeout_handle].
  destruct (Future.is_done (outcome req)).
  - unfold Future.call_soon, modify. eexists _, _. split; [reflexivity|].
    split; [simpl; apply lookup_insert_eq|]. done.
  - erewrite update_ok by (simpl; apply lookup_insert_eq).
    eexists _, _. split; [reflexivity|].
    split; [simpl; apply lookup_insert_eq|]. done.
Qed.

(** Awaiting a request of a closed executor. *)
Lemma await_closed (_wait _send : rid → M unit) (w : World) (r : rid) (req : Request) :
  requests w !! r = Some req → is_closed w (_executor req) →
  class_ req ≠ RequestWelcome →
  ∃ w', await (Client_._log_request _wait _send) r w = Raise ConnectionError w'
        ∧ client w' = client w ∧ trace w' = trace w.
Proof.
  intros Hr Hc Hw. unfold await, bind at 1. rewrite (lookup_ok _ _ _ Hr). cbv beta.
  assert (Hplain : ∃ w', Request_await (Client_._log_request _wait _send) r w
                         = Raise ConnectionError w'
                         ∧ client w' = client w ∧ trace w' = trace w).
  { exists w. by rewrite (request_await_closed _ _ _ _ _ Hr Hc). }
  destruct (class_ req); try done.
  destruct (passive_arming (Client_._log_request _wait _send) w r req Hr)
    as (w' & req' & -> & Hr' & He & Hx & Hcl & Htr).
  exists w'. split; [|done].
  apply (request_await_closed _ _ _ _ req'); [done|].
  destruct Hc as (ex & Hex & Hnone). exists ex. by rewrite He, Hx.
Qed.

(** X1.  The first [close] of an open executor, in both releases: given
    fuel for the recursion over its tree, it returns; every executor of
    the tree is then closed; every request of the tree that was pending
    has failed -- with [ConnectionError] in release 0.3.3, cancelled in
    release 0.2.12 -- and every request that was done keeps its outcome;
    the client and its connection are untouched; in the history the
    sub-executors are closed first, children before parents, then the
    requests of the executor itself are failed, then it is closed.  Any
    further [close] of an executor of the tree returns at once and
    changes nothing. *)
Theorem close_closes_tree (w : World) (e : eid) (ch : Forest) (fuel : nat) :
  open_tree w e ch → (2 * length (nodes ch) + 2 ≤ fuel)%nat →
  (∃ w', V033.close fuel e w = Ok tt w'
         ∧ tree_closed (Exception ConnectionError) e ch w w'
         ∧ ∀ x fuel', x ∈ e :: nodes ch → V033.close (S fuel') x w' = Ok tt w')
  ∧ (∃ w', V0212.close fuel e w = Ok tt w'
           ∧ tree_closed Cancelled e ch w w'
           ∧ ∀ x fuel', x ∈ e :: nodes ch → V0212.close (S fuel') x w' = Ok tt w').
Proof.
  intros Hopen Hfuel. split.
  - destruct (close_tree (Exception ConnectionError) eq_refl V033.fail_request
                (fun r w => fail_request_failed w r) w e ch fuel Hopen Hfuel) as (w' & Hrun & Hpost).
    exists w'. split; [done|]. split; [done|].
    intros x fuel' Hx. apply close_closed. by apply Hpost.
  - destruct (close_tree Cancelled eq_refl (fun r => bind (Future.cancel r) (fun _ => ret tt))
                (fun r w => cancel_failed w r) w e ch fuel Hopen Hfuel) as (w' & Hrun & Hpost).
    exists w'. split; [done|]. split; [done|].
    intros x fuel' Hx. apply (close_closed (fun r => bind (Future.cancel r) (fun _ => ret tt))).
    by apply Hpost.
Qed.

Lemma close_closes_tree_witness :
  open_tree Scenario5.tree 0 Scenario5.below
  ∧ ∃ w', V033.close 8 0 Scenario5.tree = Ok tt w'
          ∧ tree_closed (Exception ConnectionError) 0 Scenario5.below Scenario5.tree w'.
Proof.
  assert (Ho : open_tree Scenario5.tree 0 Scenario5.below).
  { split; [|split].
    - apply (bool_decide_unpack _). vm_compute. reflexivity.
    - simpl. repeat split; try (eexists; repeat split; try reflexivity;
        repeat constructor; eexists; reflexivity).
    - eexists. repeat split; try reflexivity. constructor. }
  split; [exact Ho|].
  destruct (close_closes_tree Scenario5.tree 0 Scenario5.below 8 Ho) as ((w' & H1 & H2 & _) & _).
  - simpl. lia.
  - exists w'. split; [exact H1 | exact H2].
Defined.

(** X2.  Awaiting a request of a closed executor, in both releases: for
    every request but the greeting, [await] raises [ConnectionError]; the
    client -- its state, its transport and what was written to it, the
    queue of requests in flight, the waiting list -- is as before, and
    nothing is added to the history. *)
Theorem await_after_close (w : World) (r : rid) (req : Request) :
  requests w !! r = Some req → is_closed w (_executor req) →
  class_ req ≠ RequestWelcome →
  (∃ w', V033.await_ r w = Raise ConnectionError w'
         ∧ client w' = client w ∧ trace w' = trace w)
  ∧ (∃ w', V0212.await_ r w = Raise ConnectionError w'
           ∧ client w' = client w ∧ trace w' = trace w).
Proof.
  intros Hr Hc Hw. split.
  - apply (await_closed V033._wait V033._send w r req Hr Hc Hw).
  - apply (await_closed V0212._wait V0212._send w r req Hr Hc Hw).
Qed.

Lemma await_after_close_witness :
  ∃ w, V033.close 8 0 Scenario5.tree = Ok tt w
       ∧ ∃ w', V033.await_ 14 w = Raise ConnectionError w' ∧ client w' = client w.
Proof.
  eexists. split; [vm_compute; reflexivity|].
  edestruct (await_after_close) as ((w' & H1 & H2 & _) & _); cycle 3.
  - exists w'. split; [exact H1 | exact H2].
  - vm_compute. reflexivity.
  - eexists. split; vm_compute; reflexivity.
  - vm_compute. discriminate.
Defined.

(** ** Callbacks over the executor tree *)

Lemma add_trace_nil (w : World) : add_trace [] w = w.
Proof. destruct w. unfold add_trace, set_trace. simpl. by rewrite app_nil_r. Qed.

Lemma add_trace_app (tr1 tr2 : list Obs) (w : World) :
  add_trace tr2 (add_trace tr1 w) = add_trace (tr1 ++ tr2) w.
Proof. unfold add_trace, set_trace. simpl. by rewrite app_assoc. Qed.

Lemma disconnect_cb_step (fuel : nat) (e : eid) (ex : Executor) (reason : Z)
    (message : option string) (w : World) :
  executors w !! e = Some ex →
  Executor_._disconnect_cb (S fuel) e reason message w
  = bind (for_each (_children ex)
            (fun child => Executor_._disconnect_cb fuel child reason message))
         (fun _ => match _disconnect_cb_func ex with
                   | Some f => emit (disconnect_cb f reason message)
                   | None => ret tt
                   end) w.
Proof.
  intros He. cbn [Executor_._disconnect_cb]. unfold bind at 1.
  by rewrite (executor_lookup_ok _ _ _ He).
Qed.

Lemma connect_cb_step (fuel : nat) (e : eid) (ex : Executor) (w : World) :
  executors w !! e = Some ex →
  Executor_._connect_cb (S fuel) e w
  = bind (match _connect_cb_func ex with
          | Some f => emit (connect_cb f)
          | None => ret tt
          end)
         (fun _ => for_each (_children ex) (fun child => Executor_._connect_cb fuel child)) w.
Proof.
  intros He. cbn [Executor_._connect_cb]. unfold bind at 1.
  by rewrite (executor_lookup_ok _ _ _ He).
Qed.

Lemma disconnect_cb_forest (reason : Z) (message : option string) (f : Forest) :
  ∀ (fuel : nat) (w : World),
    forest_shape (executors w) f → (length (nodes f) ≤ fuel)%nat →
    for_each (roots f) (fun c => Executor_._disconnect_cb fuel c reason message) w
    = Ok tt (add_trace (disconnect_calls (executors w) reason message f) w).
Proof.
  induction f as [|e ch IHch sib IHsib]; intros fuel w Hshape Hfuel.
  - simpl. unfold ret. by rewrite add_trace_nil.
  - simpl in Hshape, Hfuel. destruct Hshape as ((ex & He & Hch) & Hs1 & Hs2).
    rewrite length_app in Hfuel. destruct fuel as [|fuel]; [lia|].
    cbn [roots for_each]. unfold bind at 1.
    rewrite (disconnect_cb_step fuel e ex reason message w He). unfold bind at 1.
    rewrite Hch, (IHch fuel w Hs1) by lia.
    assert (Hown : (match _disconnect_cb_func ex with
                    | Some f0 => emit (disconnect_cb f0 reason message)
                    | None => ret tt
                    end) (add_trace (disconnect_calls (executors w) reason message ch) w)
                   = Ok tt (add_trace (own_disconnect (executors w) reason message e)
                              (add_trace (disconnect_calls (executors w) reason message ch) w))).
    { unfold own_disconnect. rewrite He. destruct (_disconnect_cb_func ex); [done|].
      unfold ret. by rewrite add_trace_nil. }
    rewrite Hown. cbv beta iota. rewrite IHsib; [|done|lia].
    cbn [disconnect_calls]. f_equal. rewrite !add_trace_app. f_equal; by rewrite <- ?app_assoc.
Qed.

Lemma connect_cb_forest (f : Forest) :
  ∀ (fuel : nat) (w : World),
    forest_shape (executors w) f → (length (nodes f) ≤ fuel)%nat →
    for_each (roots f) (fun c => Executor_._connect_cb fuel c) w
    = Ok tt (add_trace (connect_calls (executors w) f) w).
Proof.
  induction f as [|e ch IHch sib IHsib]; intros fuel w Hshape Hfuel.
  - simpl. unfold ret. by rewrite add_trace_nil.
  - simpl in Hshape, Hfuel. destruct Hshape as ((ex & He & Hch) & Hs1 & Hs2).
    rewrite length_app in Hfuel. destruct fuel as [|fuel]; [lia|].
    cbn [roots for_each]. unfold bind at 1.
    rewrite (connect_cb_step fuel e ex w He). unfold bind at 1.
    assert (Hown : (match _connect_cb_func ex with
                    | Some f0 => emit (connect_cb f0)
                    | None => ret tt
                    end) w = Ok tt (add_trace (own_connect (executors w) e) w)).
    { unfold own_connect. rewrite He. destruct (_connect_cb_func ex); [done|].
      unfold ret. by rewrite add_trace_nil. }
    rewrite Hown. cbv beta iota.
    rewrite Hch, (IHch fuel) by (done || lia). cbv beta iota.
    rewrite IHsib; [|done|lia].
    cbn [connect_calls]. f_equal. rewrite !add_trace_app. f_equal; by rewrite <- ?app_assoc.
Qed.

Lemma for_each_one {A} (x : A) (body : A → M unit) (w : World) :
  for_each [x] body w = body x w.
Proof. simpl. unfold bind, ret. by destruct (body x w) as [[] w'|]. Qed.

(** X4.  The callbacks of an executor tree: given fuel for the
    recursion, [_disconnect_cb] calls the disconnect callback of every
    executor of the tree that has one, once, with the reason and the
    message it was given, the children of an executor before the
    executor itself; [_connect_cb] calls the connect callbacks, an
    executor before its children.  Neither changes anything else. *)
Theorem callbacks_over_tree (w : World) (e : eid) (ch : Forest) (fuel : nat)
    (reason : Z) (message : option string) :
  forest_shape (executors w) (FCons e ch FNil) → (length (nodes ch) < fuel)%nat →
  Executor_._disconnect_cb fuel e reason message w
  = Ok tt (add_trace (disconnect_calls (executors w) reason message ch
                      ++ own_disconnect (executors w) reason message e) w)
  ∧ Executor_._connect_cb fuel e w
    = Ok tt (add_trace (own_connect (executors w) e ++ connect_calls (executors w) ch) w).
Proof.
  intros Hshape Hfuel.
  assert (Hlen : (length (nodes (FCons e ch FNil)) ≤ fuel)%nat).
  { simpl. rewrite length_app. simpl. lia. }
  pose proof (disconnect_cb_forest reason message (FCons e ch FNil) fuel w Hshape Hlen) as Hd.
  pose proof (connect_cb_forest (FCons e ch FNil) fuel w Hshape Hlen) as Hc.
  cbn [roots disconnect_calls connect_calls] in Hd, Hc.
  rewrite for_each_one in Hd. rewrite for_each_one in Hc.
  rewrite !app_nil_r in Hd, Hc. by split.
Qed.

Lemma callbacks_over_tree_witness :
  trace (world_of (Executor_._disconnect_cb 4 0 Disconnect.ERROR None
                     Scenario5.tree))
  = [disconnect_cb 8 Disconnect.ERROR None;
     disconnect_cb 7 Disconnect.ERROR None].
Proof.
  destruct (callbacks_over_tree Scenario5.tree 0 Scenario5.below 4
              Disconnect.ERROR None) as [-> _].
  - simpl. repeat split; eexists; split; reflexivity.
  - simpl. lia.
  - reflexivity.
Defined.

Lemma disconnect_cb_tree (w : World) (e : eid) (ch : Forest) (fuel : nat)
    (reason : Z) (message : option string) :
  forest_shape (executors w) (FCons e ch FNil) → (length (nodes ch) < fuel)%nat →
  Executor_._disconnect_cb fuel e reason message w
  = Ok tt (add_trace (disconnect_calls (executors w) reason message ch
                      ++ own_disconnect (executors w) reason message e) w).
Proof.
  intros Hshape Hfuel.
  assert (Hlen : (length (nodes (FCons e ch FNil)) ≤ fuel)%nat).
  { simpl. rewrite length_app. simpl. lia. }
  pose proof (disconnect_cb_forest reason message (FCons e ch FNil) fuel w Hshape Hlen) as Hd.
  cbn [roots disconnect_calls] in Hd. rewrite for_each_one in Hd.
  by rewrite !app_nil_r in Hd.
Qed.

Lemma disconnect_0212_again (w : World) (fuel : nat) (reason : Z)
    (message : option string) :
  _state (client w) = ClientState.STATE_DISCONNECTED →
  V0212.disconnect_from_server fuel reason message w = Ok tt w.
Proof.
  intros Hs. unfold V0212.disconnect_from_server, Client_.state, bind, get, ret.
  by rewrite Hs.
Qed.

Lemma disconnect_0212_run (w : World) (ch : Forest) (fuel : nat)
    (reason : Z) (message : option string) :
  _state (client w) ≠ ClientState.STATE_DISCONNECTED →
  _state (client w) ≠ ClientState.STATE_CONNECTING →
  forest_shape (executors w) (FCons (executor (client w)) ch FNil) →
  (length (nodes ch) < fuel)%nat →
  V0212.disconnect_from_server fuel reason message w
  = Ok tt (add_trace (disconnect_calls (executors w) reason message ch
                      ++ own_disconnect (executors w) reason message (executor (client w)))
             (set_client disconnected_client w)).
Proof.
  intros Hd Hc Hshape Hfuel.
  unfold V0212.disconnect_from_server, Client_.state, bind at 1, bind at 1, get, ret.
  apply Z.eqb_neq in Hd, Hc. rewrite Hd, Hc.
  unfold bind at 1, bind at 1, bind at 1, modify, Client_.put_state, modify.
  unfold bind at 1, bind at 1.
  rewrite (disconnect_cb_tree _ _ ch fuel reason message);
    [reflexivity | exact Hshape | exact Hfuel].
Qed.

(** X5.  [disconnect_from_server] of release 0.2.12 on a connected
    client: the connection is dropped (state [STATE_DISCONNECTED], no
    protocol version, no queue, no transport) and the disconnect
    callbacks of the executor tree are called, children first, with the
    reason and the message given.  No request is touched: the requests
    that were in flight and the subscriptions on the waiting list stay
    pending, and the waiting list is kept.  A further call returns at
    once and changes nothing. *)
Theorem disconnect_leaves_requests_0212 (w : World) (ch : Forest) (fuel : nat)
    (reason : Z) (message : option string) (t : Transport) (q : list rid) :
  _state (client w) ≠ ClientState.STATE_DISCONNECTED →
  _state (client w) ≠ ClientState.STATE_CONNECTING →
  _transport (client w) = Some t → _active_queue (client w) = Some q →
  forest_shape (executors w) (FCons (executor (client w)) ch FNil) →
  (length (nodes ch) < fuel)%nat →
  ∃ w', V0212.disconnect_from_server fuel reason message w = Ok tt w'
        ∧ client w' = disconnected_client (client w)
        ∧ requests w' = requests w
        ∧ executors w' = executors w
        ∧ timers w' = timers w
        ∧ ready w' = ready w
        ∧ trace w' = trace w ++ disconnect_calls (executors w) reason message ch
                             ++ own_disconnect (executors w) reason message
                                               (executor (client w))
        ∧ ∀ fuel' reason' message',
            V0212.disconnect_from_server fuel' reason' message' w' = Ok tt w'.
Proof.
  intros Hd Hc Ht Hq Hshape Hfuel.
  exists (add_trace (disconnect_calls (executors w) reason message ch
                     ++ own_disconnect (executors w) reason message (executor (client w)))
            (set_client disconnected_client w)).
  split; [by apply disconnect_0212_run|].
  split; [reflexivity|]. split; [reflexivity|]. split; [reflexivity|].
  split; [reflexivity|]. split; [reflexivity|].
  split; [simpl; by rewrite app_assoc|].
  intros fuel' reason' message'. by apply disconnect_0212_again.
Qed.

Lemma disconnect_leaves_requests_0212_witness :
  ∃ w', V0212.disconnect_from_server 4 Disconnect.REQUESTED None Scenario5.tree = Ok tt w'
        ∧ requests w' = requests Scenario5.tree
        ∧ trace w' = [disconnect_cb 8 Disconnect.REQUESTED None;
                      disconnect_cb 7 Disconnect.REQUESTED None].
Proof.
  destruct (disconnect_leaves_requests_0212 Scenario5.tree Scenario5.below 4
              Disconnect.REQUESTED None (Scenario2.transport_of Scenario5.tree) [11; 13]%nat)
    as (w' & H1 & _ & H2 & _ & _ & _ & H3 & _).
  - vm_compute. discriminate.
  - vm_compute. discriminate.
  - reflexivity.
  - reflexivity.
  - simpl. repeat split; eexists; split; reflexivity.
  - simpl. lia.
  - exists w'. split; [exact H1|]. split; [exact H2|]. rewrite H3. reflexivity.
Defined.

(** ** Commands on a client that is not connected *)

Lemma request_await_disconnected (_wait _send : rid → M unit) (w : World) (r : rid)
    (req : Request) (ex : Executor) :
  requests w !! r = Some req → outcome req = Pending →
  class_ req ≠ RequestPassive → class_ req ≠ RequestWelcome →
  executors w !! _executor req = Some ex → _client ex = Some the_client →
  await (Client_._log_request _wait _send) r w
  = bind (_send r) (fun _ => Loop.await_ r)
      (set_requests
         (insert r (set_callbacks_ (_callbacks req ++ [unlog_request (_executor req)]) req))
         (set_executors
            (insert (_executor req) (Executor_.set_requests_ (_requests ex ++ [r]) ex)) w)).
Proof.
  intros Hr Hp Hnp Hnw He Hc.
  assert (Hra : Request_await (Client_._log_request _wait _send) r w
                = bind (_send r) (fun _ => Loop.await_ r)
                    (set_requests
                       (insert r (set_callbacks_
                                    (_callbacks req ++ [unlog_request (_executor req)]) req))
                       (set_executors
                          (insert (_executor req)
                                  (Executor_.set_requests_ (_requests ex ++ [r]) ex)) w))).
  { unfold Request_await, bind at 1. rewrite (lookup_ok _ _ _ Hr). cbv beta.
    unfold bind at 1. rewrite (log_request_open _wait _send w r req ex Hr Hp He Hc).
    rewrite bool_decide_eq_false_2 by done. reflexivity. }
  unfold await, bind at 1. rewrite (lookup_ok _ _ _ Hr). cbv beta.
  destruct (class_ req); done.
Qed.

(** X6.  A command awaited while the client is not connected, in both
    releases: [await] raises [ConnectionError]; nothing is written and
    nothing is queued; the request stays pending, and it stays logged in
    the [_requests] of its executor. *)
Theorem command_while_disconnected (w : World) (r : rid) (req : Request) (ex : Executor) :
  requests w !! r = Some req → outcome req = Pending →
  class_ req ≠ RequestPassive → class_ req ≠ RequestWelcome →
  executors w !! _executor req = Some ex → _client ex = Some the_client →
  Z.land (_state (client w)) ClientState.FLAG_CONNECTED = 0 →
  (∃ w', V033.await_ r w = Raise ConnectionError w'
         ∧ wire_untouched w w' ∧ trace w' = trace w
         ∧ outcome_of w' r = Some Pending
         ∧ requests_of w' (_executor req) = _requests ex ++ [r])
  ∧ (∃ w', V0212.await_ r w = Raise ConnectionError w'
           ∧ wire_untouched w w' ∧ trace w' = trace w
           ∧ outcome_of w' r = Some Pending
           ∧ requests_of w' (_executor req) = _requests ex ++ [r]).
Proof.
  intros Hr Hp Hnp Hnw He Hc Hst. split.
  - unfold V033.await_, V033._log_request.
    rewrite (request_await_disconnected _ _ w r req ex) by done.
    unfold bind at 1, V033._send, Client_.state, bind at 1, bind at 1, get, ret.
    simpl. rewrite Hst. simpl. eexists. split; [reflexivity|].
    split; [done|]. split; [done|]. split.
    + unfold outcome_of. simpl. rewrite lookup_insert_eq. simpl. by rewrite Hp.
    + unfold requests_of. simpl. by rewrite lookup_insert_eq.
  - unfold V0212.await_, V0212._log_request.
    rewrite (request_await_disconnected _ _ w r req ex) by done.
    unfold bind at 1, V0212._send, bind at 1, modify, Client_.state, bind at 1, bind at 1,
      get, ret.
    simpl. rewrite Hst. simpl. eexists. split; [reflexivity|].
    split; [done|]. split; [done|]. split.
    + unfold outcome_of. simpl. rewrite lookup_insert_eq. simpl. by rewrite Hp.
    + unfold requests_of. simpl. by rewrite lookup_insert_eq.
Qed.

Lemma command_while_disconnected_witness :
  ∃ w', V033.await_ 1 Scenario6.offline = Raise ConnectionError w'
        ∧ wire_untouched Scenario6.offline w'
        ∧ outcome_of w' 1 = Some Pending.
Proof.
  destruct (command_while_disconnected Scenario6.offline 1
              (Examples.command "status" [] Transform.Dict) Examples.root)
    as ((w' & H1 & H2 & _ & H3 & _) & _); try reflexivity; try discriminate.
  exists w'. split; [exact H1|]. split; [exact H2 | exact H3].
Defined.

(** ** Events and the waiting list *)

Lemma set_result_failed (w : World) (r : rid) (v : Value) :
  is_Some (requests w !! r) →
  Request_.set_result r v w = Ok tt (failed (Result v) r w).
Proof.
  intros [req Hr]. unfold failed. rewrite Hr.
  destruct (Future.is_done (outcome req)) eqn:Hd.
  - by apply (set_result_done w r req).
  - apply set_result_pending; [done|]. by destruct (outcome req).
Qed.

Lemma failed_lookup (how : Outcome) (r r' : rid) (w : World) (req : Request) :
  requests w !! r' = Some req →
  ∃ req', requests (failed how r w) !! r' = Some req'
          ∧ _event_mask req' = _event_mask req
          ∧ outcome req' = if bool_decide (r' = r) && negb (Future.is_done (outcome req))
                           then how else outcome req.
Proof.
  intros Hr'. unfold failed. destruct (requests w !! r) as [req0|] eqn:Hr.
  - destruct (Future.is_done (outcome req0)) eqn:Hd.
    + exists req. split; [done|]. split; [done|].
      destruct (bool_decide_reflect (r' = r)) as [->|]; [|done].
      rewrite Hr in Hr'. injection Hr' as <-. by rewrite Hd.
    + simpl. destruct (bool_decide_reflect (r' = r)) as [->|Hne].
      * rewrite Hr in Hr'. injection Hr' as <-. rewrite lookup_insert_eq.
        eexists. split; [done|]. rewrite Hd. by split.
      * rewrite lookup_insert_ne by done. by exists req.
  - exists req. split; [done|]. split; [done|].
    destruct (bool_decide_reflect (r' = r)) as [->|]; [|done]. congruence.
Qed.

Section EventLoop.

Variable mark : M unit.
Variable marked : World → World.
Hypothesis mark_ok : ∀ w, mark w = Ok tt (marked w).
Hypothesis marked_requests : ∀ w, requests (marked w) = requests w.
Hypothesis marked_wire : ∀ w, wire_untouched w (marked w).
Hypothesis marked_waiting :
  ∀ w, _waiting_list (client (marked w)) = _waiting_list (client w).
Variable event : Z.

Lemma event_loop_all (l : list rid) :
  ∀ w, Forall (fun r => is_Some (requests w !! r)) l →
       ∃ w', Client_.event_loop mark l event false w = Ok false w'
             ∧ wire_untouched w w'
             ∧ _waiting_list (client w') = _waiting_list (client w)
             ∧ ∀ r req, requests w !! r = Some req →
                        ∃ req', requests w' !! r = Some req'
                                ∧ _event_mask req' = _event_mask req
                                ∧ outcome req' = event_outcome event l r req.
Proof.
  induction l as [|r0 rest IH]; intros w Hall.
  - exists w. split; [done|]. split; [done|]. split; [done|].
    intros r req Hr. exists req. split; [done|]. split; [done|].
    unfold event_outcome. rewrite bool_decide_eq_false_2; [done|]. apply not_elem_of_nil.
  - apply Forall_cons in Hall as [[req0 Hr0] Hall].
    cbn [Client_.event_loop]. unfold bind at 1. rewrite (lookup_ok _ _ _ Hr0). cbv beta zeta.
    destruct (truthy (Z.land (_event_mask req0) event)) eqn:Ht.
    + unfold bind at 1. rewrite mark_ok. unfold bind at 1.
      rewrite set_result_failed by (rewrite marked_requests; eauto).
      set (w2 := failed _ r0 (marked w)).
      assert (Hlk : ∀ r req, requests w !! r = Some req →
                ∃ req', requests w2 !! r = Some req'
                        ∧ _event_mask req' = _event_mask req
                        ∧ outcome req' = if bool_decide (r = r0)
                                            && negb (Future.is_done (outcome req))
                                         then Result (VInt (Z.land (_event_mask req0) event))
                                         else outcome req).
      { intros r req Hr. apply failed_lookup. by rewrite marked_requests. }
      destruct (IH w2) as (w' & Hrun & Hwire & Hwait & Hreqs).
      { eapply Forall_impl; [exact Hall|]. intros r [req Hr].
        destruct (Hlk r req Hr) as (req' & Hr' & _). eauto. }
      exists w'. split; [exact Hrun|].
      destruct (failed_fields (Result (VInt (Z.land (_event_mask req0) event))) r0 (marked w))
        as [_ Hcl].
      split; [|split].
      * destruct Hwire as [H1 H2]. destruct (marked_wire w) as [H3 H4].
        fold w2 in Hcl. split; [rewrite H1, Hcl, H3|rewrite H2, Hcl, H4]; done.
      * rewrite Hwait. fold w2 in Hcl. by rewrite Hcl, marked_waiting.
      * intros r req Hr. destruct (Hlk r req Hr) as (req2 & Hr2 & Hm2 & Ho2).
        destruct (Hreqs r req2 Hr2) as (req' & Hr' & Hm' & Ho').
        exists req'. split; [done|]. split; [congruence|].
        rewrite Ho'. unfold event_outcome. rewrite Hm2, Ho2.
        destruct (bool_decide_reflect (r = r0)) as [->|Hne].
        -- rewrite Hr0 in Hr. injection Hr as <-.
           rewrite (bool_decide_eq_true_2 (r0 ∈ r0 :: rest)) by (apply elem_of_cons; by left).
           rewrite Ht. destruct (Future.is_done (outcome req0)) eqn:Hd; simpl.
           ++ rewrite Hd. by destruct (bool_decide (r0 ∈ rest)).
           ++ by destruct (bool_decide (r0 ∈ rest)).
        -- simpl. destruct (bool_decide_reflect (r ∈ rest)) as [Hin|Hnin].
           ++ rewrite (bool_decide_eq_true_2 (r ∈ r0 :: rest)); [done|].
              apply elem_of_cons. by right.
           ++ rewrite (bool_decide_eq_false_2 (r ∈ r0 :: rest)); [done|].
              intros [?|?]%elem_of_cons; done.
    + destruct (IH w Hall) as (w' & Hrun & Hwire & Hwait & Hreqs).
      exists w'. split; [exact Hrun|]. split; [done|]. split; [done|].
      intros r req Hr. destruct (Hreqs r req Hr) as (req' & Hr' & Hm' & Ho').
      exists req'. split; [done|]. split; [done|]. rewrite Ho'. unfold event_outcome.
      destruct (bool_decide_reflect (r = r0)) as [->|Hne].
      * rewrite Hr0 in Hr. injection Hr as <-. by rewrite Ht, !andb_false_r.
      * destruct (bool_decide_reflect (r ∈ rest)) as [Hin|Hnin].
        -- rewrite (bool_decide_eq_true_2 (r ∈ r0 :: rest)); [done|].
           apply elem_of_cons. by right.
        -- rewrite (bool_decide_eq_false_2 (r ∈ r0 :: rest)); [done|].
           intros [?|?]%elem_of_cons; done.
Qed.

End EventLoop.

(** X7.  [Client._event(event)] in both releases, when every request on
    the waiting list exists: it returns [False]; every pending
    subscription on the waiting list whose mask meets [event] is resolved
    with exactly the events of its mask that occurred; every other
    request keeps its outcome; masks are unchanged; nothing is written,
    and the waiting list itself is unchanged (the subscriptions leave it
    later, through their done callbacks). *)
Theorem event_resolves_matching (w : World) (event : Z) :
  Forall (fun r => is_Some (requests w !! r)) (_waiting_list (client w)) →
  (∃ w', V033._event event false w = Ok false w'
         ∧ wire_untouched w w'
         ∧ _waiting_list (client w') = _waiting_list (client w)
         ∧ ∀ r req, requests w !! r = Some req →
                    ∃ req', requests w' !! r = Some req'
                            ∧ _event_mask req' = _event_mask req
                            ∧ outcome req'
                              = event_outcome event (_waiting_list (client w)) r req)
  ∧ (∃ w', V0212._event event false w = Ok false w'
           ∧ wire_untouched w w'
           ∧ _waiting_list (client w') = _waiting_list (client w)
           ∧ ∀ r req, requests w !! r = Some req →
                      ∃ req', requests w' !! r = Some req'
                              ∧ _event_mask req' = _event_mask req
                              ∧ outcome req'
                                = event_outcome event (_waiting_list (client w)) r req).
Proof.
  intros Hall. split.
  - unfold V033._event, bind, get.
    by apply (event_loop_all (ret tt) (fun w => w)).
  - unfold V0212._event, bind, get.
    by apply (event_loop_all (modify (set_client (set_active true)))
                             (set_client (set_active true))).
Qed.

Lemma event_resolves_matching_witness :
  ∃ w', V033._event Event.PLAYER false Scenario7.subscribed = Ok false w'
        ∧ outcome_of w' 5 = Some (Result (VInt Event.PLAYER))
        ∧ outcome_of w' 6 = Some Pending
        ∧ outcome_of w' 7 = Some (Result (VInt Event.PLAYER)).
Proof.
  destruct (event_resolves_matching Scenario7.subscribed Event.PLAYER)
    as ((w' & Hrun & _ & _ & Hreqs) & _).
  - repeat constructor; eexists; reflexivity.
  - exists w'. split; [exact Hrun|].
    destruct (Hreqs 5%nat _ eq_refl) as (r5 & H5 & _ & O5).
    destruct (Hreqs 6%nat _ eq_refl) as (r6 & H6 & _ & O6).
    destruct (Hreqs 7%nat _ eq_refl) as (r7 & H7 & _ & O7).
    unfold outcome_of. rewrite H5, H6, H7. simpl. rewrite O5, O6, O7.
    split; [reflexivity|]. split; reflexivity.
Defined.

(** ** Framing of the replies (release 0.2.12) *)

Lemma string_append_assoc (a b c : string) : (a ++ (b ++ c) = (a ++ b) ++ c)%string.
Proof. induction a as [|x a IH]; [done|]. exact (f_equal (String x) IH). Qed.

Lemma split_nonempty (sep : ascii) (s : string) : PyStr.split sep s ≠ [].
Proof.
  destruct s as [|c s]; simpl; [done|].
  destruct (Ascii.eqb c sep); [done|]. by destruct (PyStr.split sep s).
Qed.

Lemma last_cons_nonempty {A} (x : A) (l : list A) (d : A) :
  l ≠ [] → List.last (x :: l) d = List.last l d.
Proof. by destruct l. Qed.

Lemma removelast_cons_nonempty {A} (x : A) (l : list A) :
  l ≠ [] → removelast (x :: l) = x :: removelast l.
Proof. by destruct l. Qed.

Lemma last_app_nonempty {A} (l1 l2 : list A) (d : A) :
  l2 ≠ [] → List.last (l1 ++ l2) d = List.last l2 d.
Proof.
  intros H. induction l1 as [|x l1 IH]; [done|].
  simpl app. rewrite last_cons_nonempty; [done|]. by destruct l1, l2.
Qed.

(** Splitting a text that arrives in two pieces: the lines completed by
    the first piece, then the lines of the unfinished last line followed
    by the second piece. *)
Lemma split_app (sep : ascii) (a b : string) :
  PyStr.split sep (a ++ b)
  = removelast (PyStr.split sep a)
    ++ PyStr.split sep (List.last (PyStr.split sep a) EmptyString ++ b).
Proof.
  induction a as [|c a IH]; [done|].
  pose proof (split_nonempty sep a) as Hne.
  change (String c a ++ b)%string with (String c (a ++ b)).
  cbn [PyStr.split]. rewrite IH.
  destruct (Ascii.eqb c sep) eqn:E.
  - by rewrite removelast_cons_nonempty, last_cons_nonempty.
  - destruct (PyStr.split sep a) as [|x [|y l]] eqn:Hs; [done| |].
    + cbn [removelast List.last app].
      change (String c x ++ b)%string with (String c (x ++ b)).
      cbn [PyStr.split]. by rewrite E.
    + rewrite (removelast_cons_nonempty x (y :: l)) by done.
      rewrite (removelast_cons_nonempty (String c x) (y :: l)) by done.
      rewrite (last_cons_nonempty x (y :: l)) by done.
      rewrite (last_cons_nonempty (String c x) (y :: l)) by done.
      done.
Qed.

Lemma lines_loop_blocks (new_lines lines : list string) (blocks : list (list string)) :
  AMPDProtocol.lines_loop new_lines lines blocks
  = (fst (AMPDProtocol.lines_loop new_lines lines []),
     blocks ++ snd (AMPDProtocol.lines_loop new_lines lines [])).
Proof.
  revert lines blocks. induction new_lines as [|line rest IH]; intros lines blocks.
  - simpl. by rewrite app_nil_r.
  - simpl. destruct (_ || _).
    + rewrite (IH [] (blocks ++ [lines ++ [line]])), (IH [] [lines ++ [line]]). simpl.
      by rewrite <- app_assoc.
    + apply IH.
Qed.

Lemma lines_loop_app (l1 l2 lines : list string) (blocks : list (list string)) :
  AMPDProtocol.lines_loop (l1 ++ l2) lines blocks
  = AMPDProtocol.lines_loop l2 (fst (AMPDProtocol.lines_loop l1 lines blocks))
                               (snd (AMPDProtocol.lines_loop l1 lines blocks)).
Proof.
  revert lines blocks. induction l1 as [|line rest IH]; intros lines blocks; [done|].
  simpl. destruct (_ || _); apply IH.
Qed.

(** X8.  [AMPDProtocol.data_received] of release 0.2.12 does not depend
    on how the stream is cut into pieces: receiving [d1] and then [d2]
    hands out the same reply blocks, in the same order, and leaves the
    same unfinished lines, as receiving [d1 ++ d2] at once. *)
Theorem data_received_chunks (p : AMPDProtocol.t) (d1 d2 : string) :
  AMPDProtocol.data_received p (d1 ++ d2)
  = let '(p1, blocks1) := AMPDProtocol.data_received p d1 in
    let '(p2, blocks2) := AMPDProtocol.data_received p1 d2 in
    (p2, blocks1 ++ blocks2).
Proof.
  unfold AMPDProtocol.data_received.
  set (inc := AMPDProtocol._incomplete_line p).
  rewrite string_append_assoc, split_app.
  set (done1 := removelast (PyStr.split Parser.newline (inc ++ d1))).
  set (rest1 := List.last (PyStr.split Parser.newline (inc ++ d1)) EmptyString).
  pose proof (split_nonempty Parser.newline (rest1 ++ d2)) as Hne.
  rewrite removelast_app, last_app_nonempty by done.
  rewrite lines_loop_app.
  destruct (AMPDProtocol.lines_loop done1 (AMPDProtocol._lines p) []) as [lines1 blocks1] eqn:H1.
  cbn [fst snd AMPDProtocol._lines AMPDProtocol._incomplete_line].
  rewrite (lines_loop_blocks _ lines1 blocks1).
  by destruct (AMPDProtocol.lines_loop _ lines1 []).
Qed.

(** ** The greeting *)



(** ** Error replies *)

Lemma span_digits_app (d : string) (c : ascii) (r : string) :
  PyStr.all_digits d = true → PyStr.is_digit c = false →
  PyStr.span_digits (d ++ String c r) = (d, String c r).
Proof.
  intros Hd Hc. induction d as [|x d IH].
  - change (PyStr.span_digits (String c r) = (EmptyString, String c r)).
    cbn [PyStr.span_digits]. by rewrite Hc.
  - change (PyStr.span_digits (String x (d ++ String c r)) = (String x d, String c r)).
    cbn [PyStr.all_digits] in Hd. apply andb_true_iff in Hd as [Hx Hd].
    cbn [PyStr.span_digits]. by rewrite Hx, IH.
Qed.

Lemma partition_char (c : ascii) (h t : string) :
  PyStr.contains c h = false →
  PyStr.partition (String c EmptyString) (h ++ String c t) = (h, true, t).
Proof.
  intros Hh. induction h as [|x h IH].
  - change (PyStr.partition (String c EmptyString) (String c t) = (EmptyString, true, t)).
    destruct t; cbn; by rewrite Ascii.eqb_refl.
  - change (PyStr.partition (String c EmptyString) (String x (h ++ String c t))
            = (String x h, true, t)).
    cbn [PyStr.contains] in Hh. apply orb_false_iff in Hh as [Hx Hh].
    cbn [PyStr.partition PyStr.startswith].
    rewrite Hx. by rewrite IH.
Qed.

Lemma match_rest_line (s : string) :
  PyStr.contains Parser.newline s = false → Parser.match_rest s = Some s.
Proof.
  induction s as [|x s IH]; [done|]. cbn [PyStr.contains]. intros [Hx Hs]%orb_false_iff.
  cbn [Parser.match_rest]. rewrite Ascii.eqb_sym, Hx. by rewrite IH.
Qed.



(** ** Replies that cannot be delivered *)

Lemma parser_command_line (w : World) (r : rid) (req : Request) :
  requests w !! r = Some req → is_command_line (class_ req) = true →
  Parser._parser r w = Ok (Parser.CommandLine r Parser.SUCCESS []) w.
Proof.
  intros Hr Hc. unfold Parser._parser, bind. rewrite (lookup_ok _ _ _ Hr).
  destruct (class_ req); try discriminate; reflexivity.
Qed.

Lemma process_reply_feed (w : World) (r : rid) (req : Request)
    (payload : list string) (fields : list (string * string)) (more : list string) :
  requests w !! r = Some req → is_command_line (class_ req) = true →
  payload_lines Parser.SUCCESS payload = Some fields →
  Parser._process_reply r (payload ++ more) w
  = Parser.feed (Parser.CommandLine r Parser.SUCCESS fields) more w.
Proof.
  intros Hr Hc Hf. unfold Parser._process_reply, bind at 1.
  rewrite (parser_command_line w r req Hr Hc).
  by rewrite (feed_fields _ _ _ _ _ Hf).
Qed.





(** ** The transforms of replies *)

Lemma dict_get_append {A} (k k' : string) (v : A) (d : list (string * list A)) :
  Transform.dict_get k (Transform.dict_append k' v d)
  = if String.eqb k' k
    then Some (match Transform.dict_get k d with Some l => l ++ [v] | None => [v] end)
    else Transform.dict_get k d.
Proof.
  induction d as [|[k0 l] d IH].
  - simpl. by destruct (String.eqb k' k).
  - simpl. destruct (String.eqb_spec k0 k') as [->|Hne].
    + simpl. by destruct (String.eqb k' k).
    + simpl. rewrite IH. destruct (String.eqb_spec k0 k) as [->|Hne'].
      * apply not_eq_sym in Hne. apply String.eqb_neq in Hne. by rewrite Hne.
      * done.
Qed.

Lemma transform_lists_from {A} (k : string) (reply : list (string * A))
    (d : list (string * list A)) :
  Transform.dict_get k
    (fold_left (fun lists fv => Transform.dict_append (fst fv) (snd fv) lists) reply d)
  = match Transform.dict_get k d, values_of k reply with
    | Some l, vs => Some (l ++ vs)
    | None, [] => None
    | None, vs => Some vs
    end.
Proof.
  revert d. induction reply as [|[f v] reply IH]; intros d.
  - unfold values_of. simpl. destruct (Transform.dict_get k d); [|done].
    by rewrite app_nil_r.
  - cbn [fold_left fst snd]. rewrite IH, dict_get_append.
    unfold values_of. cbn [List.filter fst]. destruct (String.eqb f k).
    + cbn [map snd]. destruct (Transform.dict_get k d) as [l|].
      * by rewrite <- app_assoc.
      * done.
    + done.
Qed.

(** X13.  [transform_lists] groups a reply by field: a field that
    occurs in the reply is mapped to the list of its values, in the order
    of the reply; a field that does not occur is not a key. *)
Theorem transform_lists_groups {A} (k : string) (reply : list (string * A)) :
  Transform.dict_get k (Transform.transform_lists reply)
  = match values_of k reply with
    | [] => None
    | vs => Some vs
    end.
Proof. unfold Transform.transform_lists. by rewrite transform_lists_from. Qed.

Lemma subsets_loop_from (markers : list string) (reply : list (string * string)) :
  ∀ first acc,
    ∃ more, Transform.subsets_loop markers reply (first :: acc) = inr ((fst first, more) :: [])
            ∨ ∃ subset rest, Transform.subsets_loop markers reply (first :: acc)
                             = inr ((fst first, subset) :: rest).
Proof.
  induction reply as [|item reply IH]; intros [f s] acc.
  - exists s. right. by exists s, acc.
  - cbn [Transform.subsets_loop].
    destruct (existsb (String.eqb (fst item)) markers).
    + change (((f, s) :: acc) ++ [(fst item, [item])])
        with ((f, s) :: (acc ++ [(fst item, [item])])).
      apply (IH (f, s)).
    + destruct (List.rev ((f, s) :: acc)) as [|[f' subset] before] eqn:Hrev.
      { apply (f_equal (@length _)) in Hrev. rewrite length_rev in Hrev. done. }
      assert (Hacc : (f, s) :: acc = List.rev before ++ [(f', subset)]).
      { rewrite <- (rev_involutive ((f, s) :: acc)), Hrev. done. }
      destruct (List.rev before) as [|first' acc'] eqn:Hb.
      * simpl in Hacc. injection Hacc as -> -> ->. apply (IH (f', subset ++ [item]) []).
      * simpl in Hacc. injection Hacc as <- Hacc'.
        change ((f, s) :: acc' ++ [(f', subset ++ [item])])
          with ((f, s) :: (acc' ++ [(f', subset ++ [item])])).
        apply (IH (f, s)).
Qed.

(** X14.  [transform_subsets] and [transform_single_subset]: a reply
    whose first item is not one of the markers ([file], [directory],
    [playlist]) makes [transform_subsets] raise [UnboundLocalError],
    because no subset is open yet; an empty reply, or a reply that
    starts with a marker, is transformed.  [transform_single_subset]
    takes the field of the first item as its marker, and so never
    raises. *)
Theorem transform_subsets_first_item (reply : list (string * string)) :
  (∀ item rest,
     reply = item :: rest →
     existsb (String.eqb (fst item)) ["file"; "directory"; "playlist"] = false →
     Transform.transform_subsets reply = inl UnboundLocalError)
  ∧ (reply = [] → Transform.transform_subsets reply = inr (VDict []))
  ∧ (∀ item rest,
       reply = item :: rest →
       existsb (String.eqb (fst item)) ["file"; "directory"; "playlist"] = true →
       ∃ v, Transform.transform_subsets reply = inr v)
  ∧ ∃ v, Transform.transform_single_subset reply = inr v.
Proof.
  split; [|split; [|split]].
  - intros item rest -> Hm. unfold Transform.transform_subsets, Transform.transform_subsets_with.
    cbn [Transform.subsets_loop]. by rewrite Hm.
  - by intros ->.
  - intros item rest -> Hm. unfold Transform.transform_subsets, Transform.transform_subsets_with.
    cbn [Transform.subsets_loop]. rewrite Hm. cbn [app].
    destruct (subsets_loop_from ["file"; "directory"; "playlist"] rest (fst item, [item]) [])
      as (more & [->|(subset & rest' & ->)]); eauto.
  - destruct reply as [|[marker value] rest]; [by eexists|].
    unfold Transform.transform_single_subset, Transform.transform_subsets_with.
    cbn [Transform.subsets_loop existsb fst]. rewrite String.eqb_refl. cbn [orb app].
    destruct (subsets_loop_from [marker] rest (marker, [(marker, value)]) [])
      as (more & [->|(subset & rest' & ->)]).
    + cbn [map fst snd]. unfold Transform.transform_lists.
      rewrite transform_lists_from. unfold values_of. cbn [Transform.dict_get].
      cbn [List.filter fst]. rewrite String.eqb_refl. by eexists.
    + cbn [map fst snd]. unfold Transform.transform_lists.
      rewrite transform_lists_from. unfold values_of. cbn [Transform.dict_get].
      cbn [List.filter fst]. rewrite String.eqb_refl. by eexists.
Qed.

(** ** Registering callbacks *)

(** X15.  [Executor.set_callbacks]: the two callbacks are stored; on an
    open executor the connect callback, if there is one, is called at
    once, and once, when the client is connected, and not at all when it
    is not; on a closed executor the callbacks are stored all the same,
    and then [AttributeError] is raised by [get_is_connected]. *)
Theorem set_callbacks_calls_connect (w : World) (e : eid) (ex : Executor)
    (connect_cb_ disconnect_cb_ : option nat) :
  executors w !! e = Some ex →
  let stored := set_executors (insert e (Executor_.set_cb_funcs connect_cb_ disconnect_cb_ ex))
                              w in
  (_client ex = Some the_client →
   Executor_.set_callbacks e connect_cb_ disconnect_cb_ w
   = Ok tt (add_trace
              (match connect_cb_ with
               | Some f =>
                   if truthy (Z.land (_state (client w)) ClientState.FLAG_CONNECTED)
                   then [connect_cb f] else []
               | None => []
               end) stored))
  ∧ (_client ex = None →
     Executor_.set_callbacks e connect_cb_ disconnect_cb_ w = Raise AttributeError stored).
Proof.
  intros He stored. split.
  - intros Hc. unfold Executor_.set_callbacks, bind at 1.
    rewrite (executor_update_ok _ _ _ _ He). fold stored.
    unfold bind at 1, Executor_.get_is_connected, bind at 1.
    erewrite executor_lookup_ok by (simpl; apply lookup_insert_eq).
    cbn [_client Executor_.set_cb_funcs]. rewrite Hc. unfold bind at 1, get, ret.
    destruct connect_cb_ as [f|]; [|by rewrite add_trace_nil].
    cbn [client stored set_executors].
    destruct (truthy _); [done|]. unfold ret. by rewrite add_trace_nil.
  - intros Hc. unfold Executor_.set_callbacks, bind at 1.
    rewrite (executor_update_ok _ _ _ _ He). fold stored.
    unfold bind at 1, Executor_.get_is_connected, bind at 1.
    erewrite executor_lookup_ok by (simpl; apply lookup_insert_eq).
    cbn [_client Executor_.set_cb_funcs]. by rewrite Hc.
Qed.

Lemma set_callbacks_calls_connect_witness :
  trace (world_of (Executor_.set_callbacks 2 (Some 5%nat) (Some 6%nat) Scenario5.tree))
  = [connect_cb 5].
Proof.
  destruct (set_callbacks_calls_connect Scenario5.tree 2
              (mkExecutor (Some 0%nat) (Some the_client) [] [12%nat] None None)
              (Some 5%nat) (Some 6%nat) eq_refl) as [H _].
  rewrite (H eq_refl). reflexivity.
Defined.

(** ** Going idle *)

Lemma event_loop_none (mark : M unit) (event : Z) (one : bool) (l : list rid) (w : World) :
  Forall (fun r => ∃ req, requests w !! r = Some req
                          ∧ Z.land (_event_mask req) event = 0) l →
  Client_.event_loop mark l event one w = Ok false w.
Proof.
  induction l as [|r l IH]; intros Hall; [done|].
  apply Forall_cons in Hall as [(req & Hr & Hm) Hall].
  cbn [Client_.event_loop]. unfold bind at 1. rewrite (lookup_ok _ _ _ Hr). cbv beta zeta.
  rewrite Hm. cbn [truthy Z.eqb negb]. by apply IH.
Qed.

Lemma event_loop_first (mark : M unit) (marked : World → World) (event : Z)
    (r : rid) (req : Request) (l : list rid) (w : World) :
  (∀ w, mark w = Ok tt (marked w)) → (∀ w, requests (marked w) = requests w) →
  requests w !! r = Some req → outcome req = Pending →
  Z.land (_event_mask req) event ≠ 0 →
  Client_.event_loop mark (r :: l) event true w
  = Ok true (settled_world r req (Result (VInt (Z.land (_event_mask req) event))) (marked w)).
Proof.
  intros Hmark Hmr Hr Hp Hm.
  cbn [Client_.event_loop]. unfold bind at 1. rewrite (lookup_ok _ _ _ Hr). cbv beta zeta.
  apply Z.eqb_neq in Hm. unfold truthy. rewrite Hm. cbn [negb].
  unfold bind at 1. rewrite Hmark. unfold bind at 1.
  rewrite (set_result_pending _ r req) by (rewrite ?Hmr; done). done.
Qed.

Lemma send_idle_spec (w : World) (r : rid) (req : Request) (t : Transport) (q : list rid) :
  requests w !! r = Some req → class_ req = RequestIdle →
  _transport (client w) = Some t → _active_queue (client w) = Some q →
  Client_.send_connected r w
  = Ok tt (mkWorld (requests w) (executors w) (timers w) (ready w)
             (mkClient (executor (client w)) (_waiting_list (client w))
                       (Z.land (_state (client w)) (Z.lnot ClientState.FLAG_ACTIVE))
                       (protocol_version (client w)) (Some (q ++ [r]))
                       (Some (mkTransport (written t ++ [(_commandline req ++ Client_.nl)%string])
                                          (closed t)))
                       (_active (client w)))
             (trace w ++ [wrote r])).
Proof.
  intros Hr Hc Ht Hq. unfold Client_.send_connected, bind at 1. rewrite (lookup_ok _ _ _ Hr).
  unfold Client_.state, bind at 1 2, get, ret. rewrite bool_decide_eq_true_2 by done.
  destruct w as [rs es ts rd c tr]. destruct c as [ex wl st pv aq tp ac]. simpl in *. subst.
  cbv [Client_.write Client_.queue_append Client_.put_state emit modify bind get ret]. simpl.
  reflexivity.
Qed.

Lemma new_request_fresh (req : Request) (w : World) :
  new_request req w
  = Ok (fresh (dom (requests w))) (set_requests (insert (fresh (dom (requests w))) req) w).
Proof. reflexivity. Qed.

Lemma fresh_request (w : World) : requests w !! fresh (dom (requests w)) = None.
Proof. apply not_elem_of_dom, is_fresh. Qed.
